(** * BlockVault: the secure document redaction pipeline

    A shallow embedding of
      - blockvault/services/redaction_service/base_redactor.py
      - blockvault/services/redaction_service/pdf_redactor.py
      - blockvault/services/redaction_service/docx_redactor.py
      - blockvault/api/redact.py
    followed by the properties of the redaction pipeline that the
    specification states about them.

    Conventions.  A Python [str] is a [string] holding its UTF-8 bytes: the
    substring test, [str.replace] and the code point order used by [sorted]
    all agree with their byte-wise counterparts on UTF-8 text; only [len]
    has to count code points ([py_len]).  A Python [int] is a [Z], a
    [float] a binary64 [float], a [bytes] a [list byte].  The libraries the
    code calls (PyMuPDF, python-docx, hashlib, the crypto CLI wrapper, the
    catalog lookup, IPFS, the anchoring service) are interfaces: classes
    whose methods are the calls the code makes. *)

From Stdlib Require Import ZArith String Ascii PrimFloat DecimalString DecimalPos
  DecimalZ.
From stdpp Require Import base option list strings gmap sorting.

Local Open Scope string_scope.
Local Open Scope list_scope.
Local Open Scope Z_scope.

(** ** Python helpers *)

Definition bytes := list Byte.byte.

(** Truth value of a [str]: [if term] holds for every non-empty string. *)
Definition truthy (s : string) : bool :=
  match s with
  | EmptyString => false
  | String _ _ => true
  end.

(** The order of [sorted] on [str]. *)
Definition str_le (a b : string) : Prop := String.leb a b = true.

#[global] Instance str_le_dec a b : Decision (str_le a b) :=
  decide (String.leb a b = true).

Definition sorted (l : list string) : list string := merge_sort str_le l.

(** [set(l)]: the distinct elements of [l].  The iteration order of a Python
    set is unspecified; wherever the code iterates over a set without sorting
    it the order is a parameter of the model. *)
Definition py_set (l : list string) : list string := remove_dups l.

(** ** base_redactor.py *)

Module RedactionRegion.
Record t := mk {
  page : Z;
  x : float;
  y : float;
  w : float;
  h : float
}.
End RedactionRegion.

Module RedactionRequest.
Record t := mk {
  file_id : string;
  source_path : string;
  output_path : string;
  regions : list RedactionRegion.t;
  patterns_applied : list string;
  custom_terms : list string;
  matched_texts : list string;
  requested_by : string
}.
End RedactionRequest.

Module RedactionResult.
Record t := mk {
  redacted_path : string;
  sha256 : string;
  total_regions : Z;
  removed_terms : list string
}.
End RedactionResult.

(** [hashlib.sha256(data).hexdigest()]. *)
Class Hashlib := {
  sha256_hexdigest : bytes -> string
}.

(** ** pdf_redactor.py *)

(** [fitz.Rect(x0, y0, x1, y1)]. *)
Record Rect := mkRect { x0 : float; y0 : float; x1 : float; y1 : float }.

(** What the code uses of PyMuPDF.  A page is its content (text layer,
    images) together with the redaction annotations registered on it.
    Registering a mark leaves the content alone until the marks are applied;
    of the library calls only [fitz.open] is taken to be able to fail. *)
Class Fitz := {
  content : Type;
  (** [page.search_for(term)]: the rectangles where [term] occurs in the
      text layer. *)
  search_for : content -> string -> list Rect;
  (** [page.apply_redactions(images=fitz.PDF_REDACT_IMAGE_REMOVE)]: the
      content left once the given marks are burnt in. *)
  redact_content : content -> list Rect -> content;
}.

Record Page `{Fitz} := mkPage { body : content; annots : list Rect }.

(** [fitz.open(path)] parses the bytes of a file; [doc.save(path, garbage=4,
    deflate=True)] serialises the pages together with a file identifier
    (the trailer's [/ID]) that the library makes up anew at every save,
    here from the number the save draws. *)
Class FitzIO `{Fitz} := {
  fitz_open : bytes -> option (list Page);
  fitz_save : nat -> list Page -> bytes
}.

(** The opened document: its pages, in order. *)
Abbreviation Document := (list Page).

Module PDFRedactor.
Section Redactor.
Context `{Fitz}.


Definition page_count (doc : Document) : Z := Z.of_nat (length doc).

(** [annot = page.add_redact_annot(rect, fill=(0, 0, 0)); annot.update()] *)
Definition add_redact_annot (rect : Rect) (p : Page) : Page :=
  {| body := body p; annots := annots p ++ [rect] |}.

(** The body of [for term in self.request.matched_texts] on one loaded
    page. *)
Definition search_term (term : string) (st : Page * list string)
  : Page * list string :=
  let '(p, redacted_terms) := st in
  if negb (truthy term) then (p, redacted_terms)
  else
    let found := search_for (body p) term in
    let p' := foldl (fun q rect => add_redact_annot rect q) p found in
    match found with
    | [] => (p', redacted_terms)
    | _ :: _ => (p', redacted_terms ++ [term])
    end.

(** The body of the first [for page_index in range(doc.page_count)]. *)
Definition search_page (matched : list string) (page_index : nat)
    (st : Document * list string) : Document * list string :=
  let '(doc, redacted_terms) := st in
  match doc !! page_index with
  | Some p =>
      let '(p', redacted_terms') :=
        foldl (fun s term => search_term term s) (p, redacted_terms) matched in
      (<[page_index := p']> doc, redacted_terms')
  | None => (doc, redacted_terms)
  end.

Definition search_pass (matched : list string) (doc : Document)
  : Document * list string :=
  foldl (fun s i => search_page matched i s) (doc, []) (seq 0 (length doc)).

(** The guard of the region loop: [region.page < 0 or region.page >=
    doc.page_count] skips the region. *)
Definition out_of_bounds (doc : Document) (region : RedactionRegion.t) : bool :=
  (RedactionRegion.page region <? 0)
  || (RedactionRegion.page region >=? page_count doc).

Definition region_rect (region : RedactionRegion.t) : Rect :=
  mkRect (RedactionRegion.x region)
         (RedactionRegion.y region)
         (RedactionRegion.x region + RedactionRegion.w region)%float
         (RedactionRegion.y region + RedactionRegion.h region)%float.

(** The body of [for region in self.request.regions]. *)
Definition mark_region (doc : Document) (region : RedactionRegion.t) : Document :=
  if out_of_bounds doc region then doc
  else
    let i := Z.to_nat (RedactionRegion.page region) in
    match doc !! i with
    | Some p => <[i := add_redact_annot (region_rect region) p]> doc
    | None => doc
    end.

Definition region_pass (regions : list RedactionRegion.t) (doc : Document)
  : Document :=
  foldl mark_region doc regions.

(** [page.apply_redactions(images=fitz.PDF_REDACT_IMAGE_REMOVE)] *)
Definition apply_page (p : Page) : Page :=
  {| body := redact_content (body p) (annots p); annots := [] |}.

Definition apply_pass (doc : Document) : Document :=
  foldl (fun d i =>
           match d !! i with
           | Some p => <[i := apply_page p]> d
           | None => d
           end) doc (seq 0 (length doc)).

(** The three loops of [apply_redactions] on the opened document: the
    document handed to [doc.save] and the list [redacted_terms]. *)
Definition redact_document (req : RedactionRequest.t) (doc : Document)
  : Document * list string :=
  let '(doc1, redacted_terms) :=
    search_pass (RedactionRequest.matched_texts req) doc in
  let doc2 := region_pass (RedactionRequest.regions req) doc1 in
  (apply_pass doc2, redacted_terms).

(** The [RedactionResult] built from the saved file's digest. *)
Definition result (req : RedactionRequest.t) (digest : string)
    (redacted_terms : list string) : RedactionResult.t :=
  let unique_terms := sorted (py_set redacted_terms) in
  {| RedactionResult.redacted_path := RedactionRequest.output_path req;
     RedactionResult.sha256 := digest;
     RedactionResult.total_regions :=
       Z.of_nat (length (RedactionRequest.regions req));
     RedactionResult.removed_terms := unique_terms |}.

(** Number of redaction marks registered on the document. *)
Definition mark_count (doc : Document) : nat :=
  length (concat (map annots doc)).

(** The regions of the request that the region loop does not skip. *)
Definition applied_regions (req : RedactionRequest.t) (doc : Document)
  : list RedactionRegion.t :=
  filter (fun r => out_of_bounds doc r = false) (RedactionRequest.regions req).

(** A term is found on page [i] of a document with the given bodies. *)
Definition found_at (bodies : list content) (t : string) (i : nat) : Prop :=
  ∃ c, bodies !! i = Some c ∧ search_for c t ≠ [].

(** Two requests that differ at most in the fields the PDF redactor never
    reads. *)
Definition same_pdf_inputs (req1 req2 : RedactionRequest.t) : Prop :=
  RedactionRequest.source_path req1 = RedactionRequest.source_path req2
  ∧ RedactionRequest.output_path req1 = RedactionRequest.output_path req2
  ∧ RedactionRequest.regions req1 = RedactionRequest.regions req2
  ∧ RedactionRequest.matched_texts req1 = RedactionRequest.matched_texts req2.

End Redactor.
End PDFRedactor.

(** ** docx_redactor.py *)

(** [term in text]: [term] occurs in [text] as a substring. *)
Fixpoint py_in (term text : string) : bool :=
  String.prefix term text ||
  match text with
  | EmptyString => false
  | String _ rest => py_in term rest
  end.

(** [len(s)]: the number of code points, that is of bytes that do not
    continue a UTF-8 sequence (0x80 to 0xBF). *)
Definition is_continuation (c : ascii) : bool :=
  let n := N_of_ascii c in ((128 <=? n) && (n <? 192))%N.

Fixpoint py_len (s : string) : nat :=
  match s with
  | EmptyString => 0%nat
  | String c rest => if is_continuation c then py_len rest else S (py_len rest)
  end.

(** The block character U+2588, in UTF-8. *)
Definition block : string :=
  String (ascii_of_nat 226) (String (ascii_of_nat 150) (String (ascii_of_nat 136) "")).

(** [s * n] *)
Fixpoint py_mul (s : string) (n : nat) : string :=
  match n with
  | O => ""
  | S k => s ++ py_mul s k
  end.

(** [text.replace(old, new)] for a non-empty [old]: the occurrences are
    taken from the left and do not overlap; [skip] counts the characters of
    the current occurrence still to pass over. *)
Fixpoint replace_from (old new : string) (skip : nat) (text : string) : string :=
  match text with
  | EmptyString => ""
  | String c rest =>
      match skip with
      | S k => replace_from old new k rest
      | O =>
          if String.prefix old text
          then new ++ replace_from old new (String.length old - 1) rest
          else String c (replace_from old new 0 rest)
      end
  end.

(** With an empty [old], Python puts [new] before every character and at
    the end. *)
Fixpoint intersperse (new text : string) : string :=
  match text with
  | EmptyString => new
  | String c rest => new ++ String c (intersperse new rest)
  end.

Definition py_replace (old new text : string) : string :=
  match old with
  | EmptyString => intersperse new text
  | String _ _ => replace_from old new 0 text
  end.

(** [doc.core_properties] as python-docx keeps them: the text of each
    property, [None] for a property the document does not carry. *)
Record CoreProperties := mkCore {
  author : option string;
  comments : option string;
  keywords : option string;
  last_modified_by : option string;
  revision : Z;
  subject : option string;
  title : option string
}.

(** A python-docx document: the text of its body paragraphs, the text of
    the cells of its tables (table, row, cell) and its core properties. *)
Record DocxDocument := mkDocx {
  paragraphs : list string;
  tables : list (list (list string));
  core_properties : CoreProperties
}.

(** [Document(path)] parses the bytes of a file; [doc.save(path)] writes the
    document as an archive whose entries carry the moment of the save, here
    the number the save draws. *)
Class DocxIO := {
  docx_open : bytes -> option DocxDocument;
  docx_save : nat -> DocxDocument -> bytes
}.

(** The order in which a [for] loop visits a Python set, and in which
    [list(a_set)] lists it. *)
Class SetOrder := {
  set_iter : list string -> list string;
  set_iter_perm : forall l, set_iter l ≡ₚ l
}.

Module DOCXRedactor.
Section Redactor.
Context `{SetOrder}.

(** [terms = set(term for term in custom_terms if term)], then
    [terms.add] for every pattern label and every matched text. *)
Definition term_set (req : RedactionRequest.t) : list string :=
  py_set (filter (fun term => truthy term = true) (RedactionRequest.custom_terms req)
          ++ RedactionRequest.patterns_applied req
          ++ RedactionRequest.matched_texts req).

(** [if term in text: text = text.replace(term, block * len(term))] *)
Definition redact_term (text term : string) : string :=
  if py_in term text
  then py_replace term (py_mul block (py_len term)) text
  else text.

(** [for term in terms] on one paragraph or cell. *)
Definition redact_text (terms : list string) (text : string) : string :=
  foldl redact_term text (set_iter terms).

(** Assigning [value] to a text property of [doc.core_properties]:
    python-docx stores [str(value)], so [None] becomes the text [None], and
    refuses a text of more than 255 characters with [ValueError], here
    [None]. *)
Definition set_text (value : option string) : option string :=
  let text := default "None" value in
  if Nat.ltb 255 (py_len text) then None else Some text.

(** [_strip_metadata], assignment by assignment; [None] when one of them
    raises. *)
Definition _strip_metadata (requested_by : string) (core : CoreProperties)
  : option CoreProperties :=
  a ← set_text None;
  c ← set_text None;
  k ← set_text None;
  m ← set_text (Some requested_by);
  s ← set_text None;
  t ← set_text None;
  Some {| author := Some a;
          comments := Some c;
          keywords := Some k;
          last_modified_by := Some m;
          revision := 1;
          subject := Some s;
          title := Some t |}.

(** The document after the substitution loops and the list
    [removed_terms]. *)
Definition redact_document (req : RedactionRequest.t) (doc : DocxDocument)
  : DocxDocument * list string :=
  let terms := term_set req in
  match terms with
  | [] => (doc, [])
  | _ :: _ =>
      ({| paragraphs := map (redact_text terms) (paragraphs doc);
          tables := map (map (map (redact_text terms))) (tables doc);
          core_properties := core_properties doc |},
       sorted terms)
  end.

(** [self._strip_metadata(doc)]: the document handed to [doc.save], [None]
    when the call raises. *)
Definition scrubbed (req : RedactionRequest.t) (doc : DocxDocument)
  : option DocxDocument :=
  core ← _strip_metadata (RedactionRequest.requested_by req) (core_properties doc);
  Some {| paragraphs := paragraphs doc;
          tables := tables doc;
          core_properties := core |}.

Definition result (req : RedactionRequest.t) (digest : string)
    (removed_terms : list string) : RedactionResult.t :=
  {| RedactionResult.redacted_path := RedactionRequest.output_path req;
     RedactionResult.sha256 := digest;
     RedactionResult.total_regions :=
       Z.of_nat (length (RedactionRequest.regions req));
     RedactionResult.removed_terms := removed_terms |}.

End Redactor.
End DOCXRedactor.

(** ** The world the endpoint runs in *)

Module FileRecord.
(** The [redaction_meta] block of a catalog record. *)
Record meta := mkMeta {
  patterns : list string;
  custom_terms : list string;
  regions : list RedactionRegion.t;
  removed_terms : list string
}.

(** A document of the [files] collection.  Every document carries
    [original_name] and [enc_filename]; for the other keys an absent key
    and a [None] value are both [None]. *)
Record t := mk {
  owner : option string;
  original_name : string;
  enc_filename : string;
  size : Z;
  created_at : Z;
  aad : option string;
  sha256 : option string;
  cid : option string;
  anchor_tx : option string;
  folder : option string;
  parent_file_id : option string;
  redaction_meta : option meta
}.
End FileRecord.

(** Exceptions, as far as the code tells them apart. *)
Inductive exn := OSError | Exception.

(** How a call ends: with a value, with [abort(status, description)], or
    with another exception, which the framework turns into status 500. *)
Inductive outcome (A : Type) :=
  | Ok (a : A)
  | Abort (status : Z) (description : string)
  | Raise (e : exn).
Arguments Ok {A} a.
Arguments Abort {A} status description.
Arguments Raise {A} e.

Definition http_status {A} (o : outcome A) : Z :=
  match o with
  | Ok _ => 200
  | Abort status _ => status
  | Raise _ => 500
  end.

(** The storage directory's files, the [files] collection with the ids of
    its documents, the application log, the paths [os.remove] fails on, and
    the state of what a save takes from outside the document (the random
    source, the clock): a number, different at every draw. *)
Record world := mkWorld {
  fs : gmap string bytes;
  catalog : list (string * FileRecord.t);
  log : list string;
  undeletable : gset string;
  entropy : nat
}.

Definition with_fs (f : gmap string bytes) (w : world) : world :=
  {| fs := f; catalog := catalog w; log := log w; undeletable := undeletable w;
     entropy := entropy w |}.

Definition M (A : Type) : Type := world -> outcome A * world.

Definition ret {A} (a : A) : M A := fun w => (Ok a, w).

Definition bind {A B} (m : M A) (k : A -> M B) : M B :=
  fun w =>
    match m w with
    | (Ok a, w') => k a w'
    | (Abort status description, w') => (Abort status description, w')
    | (Raise e, w') => (Raise e, w')
    end.

#[global] Instance M_ret : MRet M := @ret.
#[global] Instance M_bind : MBind M := fun A B k m => bind m k.

Definition abort {A} (status : Z) (description : string) : M A :=
  fun w => (Abort status description, w).

Definition raise {A} (e : exn) : M A := fun w => (Raise e, w).

(** [try: body finally: final]: [final] runs however [body] ends, and the
    way [body] ended stands unless [final] itself does not end normally. *)
Definition try_finally {A} (body : M A) (final : M unit) : M A :=
  fun w =>
    let '(r, w1) := body w in
    match final w1 with
    | (Ok _, w2) => (r, w2)
    | (Abort status description, w2) => (Abort status description, w2)
    | (Raise e, w2) => (Raise e, w2)
    end.

(** [try: body except OSError: handler] *)
Definition except_OSError (body handler : M unit) : M unit :=
  fun w =>
    match body w with
    | (Raise OSError, w1) => handler w1
    | other => other
    end.

(** [path.exists()] *)
Definition exists_ (path : string) : M bool :=
  fun w => (Ok (bool_decide (is_Some (fs w !! path))), w).

(** [path.read_bytes()] *)
Definition read_bytes (path : string) : M bytes :=
  fun w =>
    match fs w !! path with
    | Some b => (Ok b, w)
    | None => (Raise OSError, w)
    end.

Definition write_bytes (path : string) (b : bytes) : M unit :=
  fun w => (Ok tt, with_fs (<[path := b]> (fs w)) w).

(** [os.remove(path)] *)
Definition os_remove (path : string) : M unit :=
  fun w =>
    if decide (path ∈ undeletable w) then (Raise OSError, w)
    else
      match fs w !! path with
      | Some _ => (Ok tt, with_fs (delete path (fs w)) w)
      | None => (Raise OSError, w)
      end.

(** [os.path.getsize(path)] *)
Definition getsize (path : string) : M Z :=
  b ← read_bytes path; ret (Z.of_nat (length b)).

(** [current_app.logger.warning("Failed to cleanup temp file %s", path)] *)
Definition cleanup_warning (path : string) : string :=
  "Failed to cleanup temp file " ++ path.

Definition logger_warning (line : string) : M unit :=
  fun w =>
    (Ok tt, {| fs := fs w; catalog := catalog w; log := log w ++ [line];
               undeletable := undeletable w; entropy := entropy w |}).

(** [_redacted_collection().insert_one(record)]: the new document gets the
    id the collection assigns. *)
Definition insert_one (new_id : list (string * FileRecord.t) -> string)
    (record : FileRecord.t) : M string :=
  fun w =>
    let i := new_id (catalog w) in
    (Ok i, {| fs := fs w; catalog := catalog w ++ [(i, record)]; log := log w;
              undeletable := undeletable w; entropy := entropy w |}).

(** A call of a collaborator that works on files only. *)
Definition on_files (f : gmap string bytes -> option exn * gmap string bytes)
  : M unit :=
  fun w =>
    let '(e, f') := f (fs w) in
    (match e with None => Ok tt | Some e => Raise e end, with_fs f' w).

Definition with_undeletable (u : gset string) (w : world) : world :=
  {| fs := fs w; catalog := catalog w; log := log w; undeletable := u;
     entropy := entropy w |}.

(** What a save draws from outside the document. *)
Definition draw : M nat :=
  fun w =>
    (Ok (entropy w),
     {| fs := fs w; catalog := catalog w; log := log w;
        undeletable := undeletable w; entropy := S (entropy w) |}).

(** [m] leaves the catalog as it finds it. *)
Definition catalog_stable {A} (m : M A) : Prop :=
  ∀ w, catalog (m w).2 = catalog w.

(** [m] neither reads nor changes the paths [os.remove] fails on. *)
Definition removal_blind {A} (m : M A) : Prop :=
  ∀ u w, m (with_undeletable u w) = ((m w).1, with_undeletable u (m w).2).

(** ** The redactors on files *)

Section RedactorsIO.
Context `{Hashlib} `{FitzIO} `{DocxIO} `{SetOrder}.

(** [PDFRedactor.apply_redactions] *)
Definition pdf_apply_redactions (req : RedactionRequest.t) : M RedactionResult.t :=
  src ← read_bytes (RedactionRequest.source_path req);
  match fitz_open src with
  | None => raise Exception
  | Some doc =>
      let '(doc', redacted_terms) := PDFRedactor.redact_document req doc in
      file_id ← draw;
      write_bytes (RedactionRequest.output_path req) (fitz_save file_id doc');;
      saved ← read_bytes (RedactionRequest.output_path req);
      ret (PDFRedactor.result req (sha256_hexdigest saved) redacted_terms)
  end.

(** [DOCXRedactor.apply_redactions] *)
Definition docx_apply_redactions (req : RedactionRequest.t) : M RedactionResult.t :=
  src ← read_bytes (RedactionRequest.source_path req);
  match docx_open src with
  | None => raise Exception
  | Some doc =>
      let '(doc1, removed_terms) := DOCXRedactor.redact_document req doc in
      match DOCXRedactor.scrubbed req doc1 with
      | None => raise Exception
      | Some doc' =>
          moment ← draw;
          write_bytes (RedactionRequest.output_path req) (docx_save moment doc');;
          saved ← read_bytes (RedactionRequest.output_path req);
          ret (DOCXRedactor.result req (sha256_hexdigest saved) removed_terms)
      end
  end.

(** The variants of [BaseRedactor]. *)
Inductive redactor :=
  | PDFRedactor_ (req : RedactionRequest.t)
  | DOCXRedactor_ (req : RedactionRequest.t).

Definition apply_redactions (r : redactor) : M RedactionResult.t :=
  match r with
  | PDFRedactor_ req => pdf_apply_redactions req
  | DOCXRedactor_ req => docx_apply_redactions req
  end.

(** [saved] is what the redactor's [doc.save] writes when the redactor runs
    in [w]: the serialisation of the document it opened at the source path,
    redacted. *)
Definition saved_by (r : redactor) (w : world) (saved : bytes) : Prop :=
  match r with
  | PDFRedactor_ req =>
      ∃ src doc,
        fs w !! RedactionRequest.source_path req = Some src
        ∧ fitz_open src = Some doc
        ∧ saved = fitz_save (entropy w) (PDFRedactor.redact_document req doc).1
  | DOCXRedactor_ req =>
      ∃ src doc doc',
        fs w !! RedactionRequest.source_path req = Some src
        ∧ docx_open src = Some doc
        ∧ DOCXRedactor.scrubbed req (DOCXRedactor.redact_document req doc).1
          = Some doc'
        ∧ saved = docx_save (entropy w) doc'
  end.
End RedactorsIO.

(** ** api/redact.py *)

(** [s.lower()] on text whose letters are ASCII, as hexadecimal addresses,
    role names and file extensions are; a letter outside ASCII is left as it
    is, where [str.lower] would lower-case it too. *)
Definition lower_ascii (c : ascii) : ascii :=
  let n := N_of_ascii c in
  if ((65 <=? n) && (n <=? 90))%N then ascii_of_N (n + 32) else c.

Fixpoint lower (s : string) : string :=
  match s with
  | EmptyString => ""
  | String c rest => String (lower_ascii c) (lower rest)
  end.

(** [str(n)] for an [int]. *)
Definition str_of_int (n : Z) : string := NilZero.string_of_int (Z.to_int n).

(** [s.rfind(c)] *)
Fixpoint rfind (c : ascii) (s : string) : option nat :=
  match s with
  | EmptyString => None
  | String a rest =>
      match rfind c rest with
      | Some i => Some (S i)
      | None => if Ascii.eqb a c then Some 0%nat else None
      end
  end.

(** [c in s] for a single character. *)
Fixpoint contains_char (c : ascii) (s : string) : bool :=
  match s with
  | EmptyString => false
  | String a rest => Ascii.eqb a c || contains_char c rest
  end.

(** [s.split("/")] *)
Fixpoint split_slash (s : string) : list string :=
  match s with
  | EmptyString => [""]
  | String c rest =>
      if Ascii.eqb c "/" then "" :: split_slash rest
      else
        match split_slash rest with
        | [] => [String c ""]
        | p :: ps => String c p :: ps
        end
  end.

(** The components [pathlib] keeps of a path: the empty ones (doubled and
    trailing slashes) and the ones that are a single dot are dropped. *)
Definition path_parts (s : string) : list string :=
  filter (fun p => p ≠ "" ∧ p ≠ ".") (split_slash s).

(** The root [pathlib] reads off a POSIX path: exactly two leading slashes
    are kept, any other number of them is one. *)
Definition path_root (s : string) : string :=
  match s with
  | String "/" (String "/" (String "/" _)) => "/"
  | String "/" (String "/" _) => "//"
  | String "/" _ => "/"
  | _ => ""
  end.

(** [str(path)] for a path with the given root and components. *)
Definition format_path (root : string) (parts : list string) : string :=
  match root, parts with
  | EmptyString, [] => "."
  | _, _ => root ++ String.concat "/" parts
  end.

(** [str(Path(dir) / name)]: an absolute [name] replaces [dir]. *)
Definition path_join (dir name : string) : string :=
  if truthy (path_root name)
  then format_path (path_root name) (path_parts name)
  else format_path (path_root dir) (path_parts dir ++ path_parts name).

(** A component as [pathlib] keeps it: not empty and without separator. *)
Definition clean (p : string) : Prop := p ≠ "" ∧ contains_char "/" p = false.

(** [s.endswith("/")] *)
Fixpoint ends_with_slash (s : string) : bool :=
  match s with
  | EmptyString => false
  | String c EmptyString => Ascii.eqb c "/"
  | String _ rest => ends_with_slash rest
  end.

(** [os.path.join(dir, name)] *)
Definition os_path_join (dir name : string) : string :=
  if String.prefix "/" name then name
  else if negb (truthy dir) || ends_with_slash dir then dir ++ name
  else dir ++ "/" ++ name.

(** [path.name]: the final component. *)
Definition path_name (path : string) : string :=
  match rfind "/" path with
  | Some i => substring (S i) (String.length path - S i) path
  | None => path
  end.

(** [path.suffix]: the final component from its last dot on, when that dot
    is neither its first nor its last character. *)
Definition suffix (path : string) : string :=
  let name := path_name path in
  match rfind "." name with
  | Some i =>
      if ((0 <? i) && (i <? String.length name - 1))%nat
      then substring i (String.length name - i) name
      else ""
  | None => ""
  end.

(** How [int(region[key])] or [float(region[key])] ends: with the value,
    with one of the exceptions the loop of [_build_regions] catches
    ([KeyError], [TypeError], [ValueError]), or with [OverflowError], which
    [int] raises on an infinity and [float] on an integer too large for a
    float. *)
Inductive conversion (A : Type) :=
  | Converted (a : A)
  | Refused
  | OverflowError.
Arguments Converted {A} a.
Arguments Refused {A}.
Arguments OverflowError {A}.

(** An entry of [redaction_regions]: how the conversion of each of its
    fields ends. *)
Record raw_region := mkRaw {
  raw_page : conversion Z;
  raw_x : conversion float;
  raw_y : conversion float;
  raw_w : conversion float;
  raw_h : conversion float
}.

Module Payload.
(** The JSON body; [None] for an absent [file_id] or [passphrase], the
    empty list for an absent list. *)
Record t := mk {
  file_id : option string;
  passphrase : option string;
  redaction_regions : list raw_region;
  patterns_applied : list string;
  custom_terms : list string;
  matched_texts : list string
}.
End Payload.

(** The authenticated request: [request.address] and the JSON body. *)
Record Request := mkRequest {
  address : string;
  data : Payload.t
}.

(** What the request reads from its environment while it runs: the three
    readings [int(time.time()*1000)] and the name drawn by
    [generate_encrypted_filename()]. *)
Record Env := mkEnv {
  time_ms_plain : Z;
  time_ms_redacted : Z;
  time_ms_created : Z;
  generate_encrypted_filename : string
}.

Module Response.
Record t := mk {
  status : string;
  file_id : string;
  new_cid : option string;
  hash : string;
  redacted_by : string;
  anchor_tx : option string
}.
End Response.

(** The collaborators of the endpoint. *)
Class Collaborators := {
  (** [_lookup_file(file_id)]: the record and its canonical id, or the way
      the lookup fails. *)
  _lookup_file : list (string * FileRecord.t) -> string
                 -> outcome (FileRecord.t * string);
  ensure_storage_dir : string;
  (** [crypto_decrypt(src, dst, passphrase, aad)] and [crypto_encrypt]: the
      exception raised, if any, and the files afterwards. *)
  crypto_decrypt : string -> string -> string -> option string
                   -> gmap string bytes -> option exn * gmap string bytes;
  crypto_encrypt : string -> string -> string -> option string
                   -> gmap string bytes -> option exn * gmap string bytes;
  (** [ipfs_mod.add_file(path)]; [None] also when it raises. *)
  ipfs_add_file : string -> gmap string bytes -> option string;
  (** [onchain_mod.anchor_file(hash, size, cid)]; [None] also when it
      raises. *)
  onchain_anchor_file : string -> Z -> option string -> option string;
  (** The id the collection gives to the next inserted document. *)
  inserted_id : list (string * FileRecord.t) -> string
}.

Section Endpoint.
Context `{Hashlib} `{FitzIO} `{DocxIO} `{SetOrder} `{Collaborators}.

(** [rec, canonical_id = _lookup_file(file_id)], on the catalog as it is. *)
Definition lookup_file (file_id : string) : M (FileRecord.t * string) :=
  fun w => (_lookup_file (catalog w) file_id, w).

(** [try: cid = ipfs_mod.add_file(path) except Exception: cid = None] *)
Definition try_add_file (path : string) : M (option string) :=
  fun w => (Ok (ipfs_add_file path (fs w)), w).

(** [try: anchor_tx = onchain_mod.anchor_file(...) except Exception:
    anchor_tx = None] *)
Definition try_anchor_file (hash : string) (size : Z) (cid : option string)
  : M (option string) :=
  mret (onchain_anchor_file hash size cid).

(** [not value] for [data.get(key)]. *)
Definition missing (value : option string) : bool :=
  match value with
  | Some s => negb (truthy s)
  | None => true
  end.

(** The next conversion runs on the value of the one before; the first one
    that raises ends the construction. *)
Definition and_then {A B} (c : conversion A) (k : A -> conversion B)
  : conversion B :=
  match c with
  | Converted a => k a
  | Refused => Refused
  | OverflowError => OverflowError
  end.

(** [RedactionRegion(page=int(region["page"]), x=float(region["x"]), ...)]:
    the arguments are evaluated from left to right. *)
Definition build_region (raw : raw_region) : conversion RedactionRegion.t :=
  and_then (raw_page raw) (fun p =>
  and_then (raw_x raw) (fun x =>
  and_then (raw_y raw) (fun y =>
  and_then (raw_w raw) (fun w =>
  and_then (raw_h raw) (fun h =>
  Converted (RedactionRegion.mk p x y w h)))))).

Fixpoint _build_regions (regions_raw : list raw_region)
  : M (list RedactionRegion.t) :=
  match regions_raw with
  | [] => ret []
  | raw :: rest =>
      match build_region raw with
      | Converted region => regions ← _build_regions rest; ret (region :: regions)
      | Refused => abort 400 "invalid redaction region data"
      | OverflowError => raise Exception
      end
  end.

Definition _create_redactor (request_obj : RedactionRequest.t) : M redactor :=
  let suffix := lower (suffix (RedactionRequest.source_path request_obj)) in
  if String.eqb suffix ".pdf" then ret (PDFRedactor_ request_obj)
  else if String.eqb suffix ".docx" then ret (DOCXRedactor_ request_obj)
  else abort 415 "unsupported file type for redaction".

Definition tmp_plain_name (env : Env) (rec : FileRecord.t) : string :=
  "dec_" ++ str_of_int (time_ms_plain env) ++ "_" ++ FileRecord.original_name rec.

Definition tmp_redacted_name (env : Env) (rec : FileRecord.t) : string :=
  "redacted_" ++ str_of_int (time_ms_redacted env) ++ "_" ++ FileRecord.original_name rec.

Definition tmp_plain (env : Env) (rec : FileRecord.t) : string :=
  path_join ensure_storage_dir (tmp_plain_name env rec).

Definition tmp_redacted (env : Env) (rec : FileRecord.t) : string :=
  path_join ensure_storage_dir (tmp_redacted_name env rec).

(** One round of the [finally] loop. *)
Definition cleanup_path (path : string) : M unit :=
  except_OSError
    (present ← exists_ path; if (present : bool) then os_remove path else ret tt)
    (logger_warning (cleanup_warning path)).

(** The [finally] block. *)
Definition cleanup (env : Env) (rec : FileRecord.t) : M unit :=
  cleanup_path (tmp_plain env rec);; cleanup_path (tmp_redacted env rec).

Definition redaction_request (req : Request) (env : Env) (rec : FileRecord.t)
    (canonical_id : string) (regions : list RedactionRegion.t)
  : RedactionRequest.t :=
  {| RedactionRequest.file_id := canonical_id;
     RedactionRequest.source_path := tmp_plain env rec;
     RedactionRequest.output_path := tmp_redacted env rec;
     RedactionRequest.regions := regions;
     RedactionRequest.patterns_applied := Payload.patterns_applied (data req);
     RedactionRequest.custom_terms := Payload.custom_terms (data req);
     RedactionRequest.matched_texts :=
       set_iter (py_set (filter (fun t => truthy t = true)
                                (Payload.matched_texts (data req))));
     RedactionRequest.requested_by := lower (address req) |}.

Definition new_record (rec : FileRecord.t) (canonical_id relative_enc_name : string)
    (size created_at : Z) (cid anchor_tx : option string)
    (rr : RedactionRequest.t) (result : RedactionResult.t) : FileRecord.t :=
  {| FileRecord.owner := FileRecord.owner rec;
     FileRecord.original_name := FileRecord.original_name rec;
     FileRecord.enc_filename := relative_enc_name;
     FileRecord.size := size;
     FileRecord.created_at := created_at;
     FileRecord.aad := FileRecord.aad rec;
     FileRecord.sha256 := Some (RedactionResult.sha256 result);
     FileRecord.cid := cid;
     FileRecord.anchor_tx := anchor_tx;
     FileRecord.folder := FileRecord.folder rec;
     FileRecord.parent_file_id := Some canonical_id;
     FileRecord.redaction_meta :=
       Some {| FileRecord.patterns := RedactionRequest.patterns_applied rr;
               FileRecord.custom_terms := RedactionRequest.custom_terms rr;
               FileRecord.regions := RedactionRequest.regions rr;
               FileRecord.removed_terms := RedactionResult.removed_terms result |} |}.

(** The [try] block of [redact_file]. *)
Definition redact_body (req : Request) (env : Env) (passphrase : string)
    (rec : FileRecord.t) (canonical_id : string) : M Response.t :=
  let storage_dir := ensure_storage_dir in
  let enc_path := path_join storage_dir (FileRecord.enc_filename rec) in
  on_files (crypto_decrypt enc_path (tmp_plain env rec) passphrase (FileRecord.aad rec));;
  regions ← _build_regions (Payload.redaction_regions (data req));
  let rr := redaction_request req env rec canonical_id regions in
  redactor ← _create_redactor rr;
  result ← apply_redactions redactor;
  let new_enc_name := generate_encrypted_filename env in
  let relative_enc_name := os_path_join "redacted" new_enc_name in
  let new_enc_path := path_join storage_dir relative_enc_name in
  on_files (crypto_encrypt (tmp_redacted env rec) new_enc_path passphrase
                           (FileRecord.aad rec));;
  size ← getsize (tmp_redacted env rec);
  cid ← try_add_file new_enc_path;
  anchor_tx ← try_anchor_file (RedactionResult.sha256 result) size cid;
  let record :=
    new_record rec canonical_id relative_enc_name size (time_ms_created env)
               cid anchor_tx rr result in
  inserted ← insert_one inserted_id record;
  ret {| Response.status := "success";
         Response.file_id := inserted;
         Response.new_cid := cid;
         Response.hash := RedactionResult.sha256 result;
         Response.redacted_by := lower (address req);
         Response.anchor_tx := anchor_tx |}.

(** [redact_file], behind [require_auth]. *)
Definition redact_file (req : Request) (env : Env) : M Response.t :=
  let file_id := Payload.file_id (data req) in
  if missing file_id then abort 400 "file_id required"
  else
    let passphrase := Payload.passphrase (data req) in
    if missing passphrase then abort 400 "passphrase required for redaction"
    else
      '(rec, canonical_id) ← lookup_file (default "" file_id);
      let owner := FileRecord.owner rec in
      let requester := lower (address req) in
      if bool_decide (owner ≠ Some requester)
      then abort 403 "only file owner may request redaction"
      else
        let storage_dir := ensure_storage_dir in
        let enc_path := path_join storage_dir (FileRecord.enc_filename rec) in
        present ← exists_ enc_path;
        if negb (present : bool) then abort 410 "encrypted blob missing"
        else
          try_finally
            (redact_body req env (default "" passphrase) rec canonical_id)
            (cleanup env rec).
(** The request went past validation, lookup, the owner check and the blob
    check: the [try] block runs on this record with this passphrase. *)
Definition admitted (req : Request) (w : world) (rec : FileRecord.t)
    (canonical_id passphrase : string) : Prop :=
  ∃ file_id,
    Payload.file_id (data req) = Some file_id ∧ file_id ≠ ""
    ∧ Payload.passphrase (data req) = Some passphrase ∧ passphrase ≠ ""
    ∧ _lookup_file (catalog w) file_id = Ok (rec, canonical_id)
    ∧ FileRecord.owner rec = Some (lower (address req))
    ∧ is_Some (fs w !! path_join ensure_storage_dir (FileRecord.enc_filename rec)).

End Endpoint.

(** ** A small deployment to run the model on *)

Module Demo.

(** Text-only pages: a term is found when it occurs in the page text, and
    burning in any mark blacks out the whole page. *)
#[export] Instance fitz : Fitz := {|
  content := string;
  search_for := fun text term =>
    if py_in term text then [mkRect 0 0 1 1] else [];
  redact_content := fun text marks =>
    match marks with
    | [] => text
    | _ :: _ => py_mul block (py_len text)
    end
|}.

#[export] Instance fitz_io : FitzIO := {|
  fitz_open := fun b => Some [mkPage fitz (string_of_list_byte b) []];
  fitz_save := fun file_id doc =>
    list_byte_of_string (String.concat "" (map body doc) ++ "/ID "
                         ++ str_of_int (Z.of_nat file_id))
|}.

#[export] Instance docx_io : DocxIO := {|
  docx_open := fun b =>
    Some (mkDocx [string_of_list_byte b] []
                 (mkCore (Some "carol") None None None 7 None (Some "draft")));
  docx_save := fun _ doc => list_byte_of_string (String.concat "" (paragraphs doc))
|}.

(** The digest is left symbolic: the bytes themselves, tagged. *)
#[export] Instance hashlib : Hashlib := {|
  sha256_hexdigest := fun b => ("sha256:" ++ string_of_list_byte b)%string
|}.

#[export] Instance set_order : SetOrder := {|
  set_iter := fun l => l;
  set_iter_perm := fun l => reflexivity l
|}.

Definition find_record (cat : list (string * FileRecord.t)) (file_id : string)
  : option FileRecord.t :=
  match list_find (fun e => fst e = file_id) cat with
  | Some (_, (_, rec)) => Some rec
  | None => None
  end.

Definition copy_with (passphrase : string) (src dst given : string)
    (files : gmap string bytes) : option exn * gmap string bytes :=
  match files !! src with
  | Some b =>
      if String.eqb given passphrase then (None, <[dst := b]> files)
      else (Some Exception, files)
  | None => (Some OSError, files)
  end.

#[export] Instance collaborators : Collaborators := {|
  _lookup_file := fun cat file_id =>
    match find_record cat file_id with
    | Some rec => Ok (rec, file_id)
    | None => Abort 404 "file not found"
    end;
  ensure_storage_dir := "/srv/storage";
  crypto_decrypt := fun src dst given _ => copy_with "hunter2" src dst given;
  crypto_encrypt := fun src dst given _ => copy_with "hunter2" src dst given;
  ipfs_add_file := fun _ _ => None;
  onchain_anchor_file := fun _ _ _ => None;
  inserted_id := fun cat => ("id" ++ str_of_int (Z.of_nat (length cat)))%string
|}.

Definition parent (name : string) : FileRecord.t :=
  {| FileRecord.owner := Some "0xa11ce";
     FileRecord.original_name := name;
     FileRecord.enc_filename := "blob1";
     FileRecord.size := 16;
     FileRecord.created_at := 1700000000000;
     FileRecord.aad := Some "aad";
     FileRecord.sha256 := None;
     FileRecord.cid := None;
     FileRecord.anchor_tx := None;
     FileRecord.folder := None;
     FileRecord.parent_file_id := None;
     FileRecord.redaction_meta := None |}.

(** One stored document, [blob1], holding the text below. *)
Definition world_of (name : string) : world :=
  {| fs := {[ "/srv/storage/blob1" := list_byte_of_string "SSN: 123-45-6789" ]};
     catalog := [("f1", parent name)];
     log := [];
     undeletable := ∅;
     entropy := 0 |}.

Definition env : Env :=
  {| time_ms_plain := 1700000000123;
     time_ms_redacted := 1700000000123;
     time_ms_created := 1700000000456;
     generate_encrypted_filename := "c0ffee.enc" |}.

Definition payload (passphrase : option string) (regions : list raw_region)
    (patterns custom matched : list string) : Payload.t :=
  {| Payload.file_id := Some "f1";
     Payload.passphrase := passphrase;
     Payload.redaction_regions := regions;
     Payload.patterns_applied := patterns;
     Payload.custom_terms := custom;
     Payload.matched_texts := matched |}.

Definition region_on (p : Z) : raw_region :=
  mkRaw (Converted p) (Converted 10%float) (Converted 20%float)
        (Converted 30%float) (Converted 40%float).

(** A redactor request on a staged plaintext [in.<ext>]. *)
Definition staged_request (ext : string) (regions : list RedactionRegion.t)
    (patterns custom matched : list string) : RedactionRequest.t :=
  {| RedactionRequest.file_id := "f1";
     RedactionRequest.source_path := "/srv/storage/in." ++ ext;
     RedactionRequest.output_path := "/srv/storage/out." ++ ext;
     RedactionRequest.regions := regions;
     RedactionRequest.patterns_applied := patterns;
     RedactionRequest.custom_terms := custom;
     RedactionRequest.matched_texts := matched;
     RedactionRequest.requested_by := "0xa11ce" |}.

Definition staged_world (ext text : string) : world :=
  {| fs := {[ ("/srv/storage/in." ++ ext)%string := list_byte_of_string text ]};
     catalog := [];
     log := [];
     undeletable := ∅;
     entropy := 0 |}.

Definition region_at (p : Z) : RedactionRegion.t :=
  RedactionRegion.mk p 10 20 30 40.

(** The stored text as a staged PDF, and requests on it. *)
Definition ssn_text : string := "SSN: 123-45-6789".

Definition ssn_pdf : world := staged_world "pdf" ssn_text.

Definition ssn_page : Document := [mkPage fitz ssn_text []].

(** One region on the only page, one on a page the document lacks. *)
Definition two_region_request : RedactionRequest.t :=
  staged_request "pdf" [region_at 0; region_at 5] ["ssn"] ["SSN"]
                 ["123-45-6789"; "987-65-4321"].

Definition skipped_region_request : RedactionRequest.t :=
  staged_request "pdf" [region_at 5] [] [] [].

(** The same request with other custom terms and pattern labels. *)
Definition relabelled_request : RedactionRequest.t :=
  staged_request "pdf" [region_at 0; region_at 5] ["email"; "phone"] []
                 ["123-45-6789"; "987-65-4321"].

(** A staged DOCX with one paragraph, and requests on it. *)
Definition jane_text : string := "Contact Jane Doe".

Definition jane_docx : world := staged_world "docx" jane_text.

(** One custom term that occurs in the paragraph, one that does not. *)
Definition absent_term_request : RedactionRequest.t :=
  staged_request "docx" [] [] ["Jane Doe"; "John Roe"] [].

(** An empty pattern label next to an empty custom term. *)
Definition empty_label_request : RedactionRequest.t :=
  staged_request "docx" [] [""] [""] [].

(** Requests on the stored document: by its owner, with a wrong passphrase,
    and by somebody else with and without a passphrase. *)
Definition request_from (who : string) (passphrase : option string) : Request :=
  mkRequest who (payload passphrase [region_on 0; region_on 5] ["ssn"] []
                         ["123-45-6789"; ""; "123-45-6789"]).

Definition alice_request : Request := request_from "0xA11CE" (Some "hunter2").

Definition wrong_passphrase_request : Request :=
  request_from "0xA11CE" (Some "letmein").

Definition bob_request : Request := request_from "0xB0B" (Some "hunter2").

Definition bob_request_without_passphrase : Request := request_from "0xB0B" None.

(** A second request served within the same millisecond. *)
Definition env_same_ms : Env :=
  {| time_ms_plain := 1700000000123;
     time_ms_redacted := 1700000000123;
     time_ms_created := 1700000000789;
     generate_encrypted_filename := "deadbeef.enc" |}.

(** The stored PDF, with a staged plaintext that cannot be removed. *)
Definition locked_world : world :=
  with_undeletable {[ "/srv/storage/dec_1700000000123_a.pdf" ]} (world_of "a.pdf").

End Demo.

(** ** What the PDF redactor burns into a page *)

Section PageMarks.
Context {F : Fitz}.

(** The rectangles [search_for] returns on a page for the non-empty matched
    texts, in the order of the texts. *)
Definition found_rects (matched : list string) (c : content) : list Rect :=
  concat (map (search_for c) (filter (fun t => truthy t = true) matched)).

(** The page a page becomes in the search loop. *)
Definition searched_page (matched : list string) (p : Page) : Page :=
  {| body := body p; annots := annots p ++ found_rects matched (body p) |}.

(** The rectangles of the regions that the region loop puts on page [i] of a
    document. *)
Definition region_rects (doc : Document) (regions : list RedactionRegion.t)
    (i : nat) : list Rect :=
  map PDFRedactor.region_rect
      (filter (fun r => PDFRedactor.out_of_bounds doc r = false
                        ∧ Z.to_nat (RedactionRegion.page r) = i) regions).

(** Page [i] once every mark on it is burnt in. *)
Definition redacted_page (req : RedactionRequest.t) (doc : Document) (i : nat)
    (p : Page) : Page :=
  {| body := redact_content (body p)
               (annots p
                ++ found_rects (RedactionRequest.matched_texts req) (body p)
                ++ region_rects doc (RedactionRequest.regions req) i);
     annots := [] |}.

End PageMarks.

(** ** core/onchain.py *)

(** [s[:n]]: the first [n] characters. *)
Fixpoint py_take (n : nat) (s : string) : string :=
  match s with
  | EmptyString => ""
  | String c rest =>
      if is_continuation c then String c (py_take n rest)
      else
        match n with
        | O => ""
        | S k => String c (py_take k rest)
        end
  end.

Module onchain.


(** The node: whether [Web3(Web3.HTTPProvider(rpc_url))] returns, and the
    hex of the transaction hash that building, signing and sending
    [anchorFile(hash, size, cid)] gives, [None] when any of it raises. *)
Class Node := {
  connect : string -> bool;
  send_anchor_file : string -> string -> string -> string -> Z -> string
                     -> option string
}.

Section Anchor.
Context {N : Node}.




(** The pseudo-hash returned when anchoring is disabled. *)
Definition simulated (hash_hex : string) (size : Z) : string :=
  "simulated::" ++ py_take 16 hash_hex ++ "::" ++ str_of_int size.


End Anchor.
End onchain.

(** ** core/security.py *)

(** A document of the [rbac_role_assignments] collection. *)
Module Assignment.
Record t := mk {
  address : string;
  role : option string;
  assigned_by : string;
  assigned_at : Z
}.
End Assignment.

(** [coll.find_one({"address": a})]: the first document with that address. *)
Definition find_assignment (coll : list Assignment.t) (a : string)
  : option Assignment.t :=
  snd <$> list_find (fun d => Assignment.address d = a) coll.

(** [s.removeprefix(prefix)] *)
Definition removeprefix (prefix s : string) : string :=
  if String.prefix prefix s
  then substring (String.length prefix) (String.length s - String.length prefix) s
  else s.

Module security.

Definition _ROLE_VALUE_BY_SLUG : list (string * Z) :=
  [("none", 0); ("viewer", 1); ("editor", 2); ("owner", 2); ("admin", 3)].

(** [d.get(key, default)] for a dict literal. *)
Definition dict_get (d : list (string * Z)) (key : string) (dflt : Z) : Z :=
  match list_find (fun e => fst e = key) d with
  | Some (_, (_, v)) => v
  | None => dflt
  end.

(** What [_attach_role] leaves on the request. *)
Record attrs := mkAttrs {
  role : Z;
  role_name : string;
  role_slug : string
}.

(** The slug [_attach_role] settles on: [owner] unless the first assignment
    stored for the lower-cased address has a non-empty role.  The collection
    is [inl text] when reading it raises an exception printing as [text]. *)
Definition resolved_slug (db : string + list Assignment.t) (address : string)
  : string :=
  match db with
  | inr coll =>
      match find_assignment coll (lower address) with
      | Some assignment =>
          match Assignment.role assignment with
          | Some r => if truthy r then lower r else "owner"
          | None => "owner"
          end
      | None => "owner"
      end
  | inl _ => "owner"
  end.

Definition _attach_role (db : string + list Assignment.t) (address : string)
  : M attrs :=
  let role_slug := resolved_slug db address in
  match db with
  | inl exc =>
      logger_warning ("Failed to resolve RBAC role for " ++ address ++ ": " ++ exc)
  | inr _ => mret tt
  end;;
  let role_value := dict_get _ROLE_VALUE_BY_SLUG role_slug 2 in
  mret {| role := role_value; role_name := role_slug; role_slug := role_slug |}.

(** How [verify_jwt(token)] ends: the decoded payload's [sub], one of the
    two exceptions the decorator catches, or another exception. *)
Inductive verdict :=
  | Decoded (sub : option string)
  | ExpiredSignatureError
  | InvalidTokenError
  | OtherError.

(** [jwt.decode] with the application's secret, and [str.strip]. *)
Class Tokens := {
  verify_jwt : string -> verdict;
  strip : string -> string
}.

Section RequireAuth.
Context {T : Tokens}.

(** [require_auth(fn)] on a request with the given [Authorization] header;
    [fn] gets [request.address] and the attached role. *)
Definition require_auth {A} (fn : string -> attrs -> M A)
    (authorization : option string) (db : string + list Assignment.t) : M A :=
  let auth_header := default "" authorization in
  if negb (String.prefix "Bearer " auth_header)
  then abort 401 "missing bearer token"
  else
    let token := strip (removeprefix "Bearer " auth_header) in
    if negb (truthy token) then abort 401 "empty token"
    else
      match verify_jwt token with
      | ExpiredSignatureError => abort 401 "token expired"
      | InvalidTokenError => abort 401 "invalid token"
      | OtherError => raise Exception
      | Decoded sub =>
          if missing sub then abort 401 "invalid subject"
          else
            a ← _attach_role db (default "" sub);
            fn (default "" sub) a
      end.

End RequireAuth.
End security.

(** [POST /redact]: [redact_file] behind [require_auth]. *)
Definition redact_endpoint `{Hashlib} `{FitzIO} `{DocxIO} `{SetOrder}
    `{Collaborators} `{security.Tokens}
    (authorization : option string) (db : string + list Assignment.t)
    (body : Payload.t) (env : Env) : M Response.t :=
  security.require_auth
    (fun address _ => redact_file (mkRequest address body) env) authorization db.

(** ** The demo deployment, with tokens and without a chain *)

Module DemoAuth.

(** No RPC URL is configured; the node would refuse any connection. *)
#[export] Instance node : onchain.Node := {|
  onchain.connect := fun _ => false;
  onchain.send_anchor_file := fun _ _ _ _ _ _ => None
|}.


(** Two digests of 64 characters that share their first 16. *)
Definition digest_a : string := py_mul "0123456789abcdef" 4.

Definition digest_b : string :=
  ("0123456789abcdef" ++ py_mul "f" 48)%string.

Fixpoint skip_spaces (s : string) : string :=
  match s with
  | String " " rest => skip_spaces rest
  | _ => s
  end.

(** One token is valid, for the owner of the stored document; spaces are
    stripped at both ends. *)
#[export] Instance tokens : security.Tokens := {|
  security.verify_jwt := fun token =>
    if String.eqb token "valid-token" then security.Decoded (Some "0xA11CE")
    else if String.eqb token "old-token" then security.ExpiredSignatureError
    else security.InvalidTokenError;
  security.strip := fun s => String.rev (skip_spaces (String.rev (skip_spaces s)))
|}.

Definition assignments : list Assignment.t :=
  [Assignment.mk "0xb0b" (Some "Viewer") "0xa11ce" 1700000000000;
   Assignment.mk "0xa11ce" (Some "ADMIN") "0xa11ce" 1700000000001].

Definition redact_payload : Payload.t :=
  Demo.payload (Some "hunter2") [Demo.region_on 0] ["ssn"] [] ["123-45-6789"].

End DemoAuth.

(** ** core/rbac.py and api/rbac.py *)

(** A document of the [rbac_role_requests] collection, with its [_id] as
    the string the API shows; an absent key and a [None] value are both
    [None]. *)
Module RoleRequest.
Record t := mk {
  id : string;
  address : string;
  requested_role : string;
  reason : option string;
  status : string;
  created_at : Z;
  updated_at : Z;
  handled_by : option string;
  handled_at : option Z;
  note : option string
}.
End RoleRequest.

(** The two collections, the application log and the flag
    [_warned_not_configured] of core/rbac.py. *)
Record rbac_db := mkDb {
  assignments : list Assignment.t;
  requests : list RoleRequest.t;
  rlog : list string;
  warned : bool
}.

Definition R (A : Type) : Type := rbac_db -> outcome A * rbac_db.

#[global] Instance R_ret : MRet R := fun A a db => (Ok a, db).
#[global] Instance R_bind : MBind R := fun A B k m db =>
  match m db with
  | (Ok a, db') => k a db'
  | (Abort status description, db') => (Abort status description, db')
  | (Raise e, db') => (Raise e, db')
  end.

Definition r_abort {A} (status : Z) (description : string) : R A :=
  fun db => (Abort status description, db).

Definition r_raise {A} (e : exn) : R A := fun db => (Raise e, db).

Definition r_log (line : string) : R unit :=
  fun db => (Ok tt, {| assignments := assignments db; requests := requests db;
                       rlog := rlog db ++ [line]; warned := warned db |}).

(** [coll.update_one(query, {"$set": ...})] on the first document that
    matches; [None] when none does. *)
Fixpoint update_first {A} (matches : A -> bool) (set : A -> A) (coll : list A)
  : option (list A) :=
  match coll with
  | [] => None
  | d :: rest =>
      if matches d then Some (set d :: rest)
      else cons d <$> update_first matches set rest
  end.

(** [coll.delete_one(query)]: the collection without the first document
    that matches, and [deleted_count]. *)
Fixpoint delete_first {A} (matches : A -> bool) (coll : list A) : list A * Z :=
  match coll with
  | [] => ([], 0)
  | d :: rest =>
      if matches d then (rest, 1)
      else let '(rest', n) := delete_first matches rest in (d :: rest', n)
  end.

Module rbac.

Inductive Role := NONE | VIEWER | OWNER | ADMIN.

Definition value (r : Role) : Z :=
  match r with
  | NONE => 0
  | VIEWER => 1
  | OWNER => 2
  | ADMIN => 3
  end.

(** [Role(raw)]; [None] where it raises [ValueError]. *)
Definition of_value (raw : Z) : option Role :=
  if raw =? 0 then Some NONE
  else if raw =? 1 then Some VIEWER
  else if raw =? 2 then Some OWNER
  else if raw =? 3 then Some ADMIN
  else None.

Definition role_name (r : Role) : string :=
  match r with
  | NONE => "none"
  | VIEWER => "viewer"
  | OWNER => "owner"
  | ADMIN => "admin"
  end.

Definition _ROLE_SLUG_MAP : list (string * Role) :=
  [("none", NONE); ("viewer", VIEWER); ("editor", OWNER); ("owner", OWNER);
   ("admin", ADMIN)].

(** [ensure_role(min_role)] for the role value attached to the request. *)
Definition ensure_role (min_role : Role) (request_role : Z) : R Role :=
  match of_value request_role with
  | None => r_raise Exception
  | Some role =>
      if value role <? value min_role
      then r_abort 403 (role_name min_role ++ " role required")%string
      else mret role
  end.

(** How [_get_contract()] finds the deployment: without [ETH_RPC_URL] or
    [ROLE_REGISTRY_ADDRESS], with a contract it can instantiate, or with one
    whose instantiation raises the exception printed as [exc]. *)
Inductive registry :=
  | NotConfigured
  | Instantiated
  | Failing (exc : string).

(** [_get_contract()]: whether a contract comes back.  The warning about a
    missing configuration is logged once per process. *)
Definition _get_contract (reg : registry) : R bool :=
  match reg with
  | NotConfigured =>
      fun db =>
        (Ok false,
         if warned db then db
         else
           {| assignments := assignments db;
              requests := requests db;
              rlog := rlog db
                      ++ ["RBAC contract not configured (ETH_RPC_URL / ROLE_REGISTRY_ADDRESS missing); defaulting to ADMIN"%string];
              warned := true |})
  | Instantiated => mret true
  | Failing exc =>
      r_log ("Failed to instantiate RBAC contract: " ++ exc)%string;; mret false
  end.

(** [assign_role_onchain(address, role)] *)
Definition assign_role_onchain (reg : registry) (address role : string)
  : R (option string) :=
  let role_slug := lower role in
  if negb (bool_decide (role_slug ∈ map fst _ROLE_SLUG_MAP))
  then
    r_log ("assign_role_onchain called with unknown role '" ++ role ++ "'")%string;;
    mret None
  else
    contract_info ← _get_contract reg;
    if negb (contract_info : bool)
    then mret (Some ("simulated-role::" ++ lower address ++ "::" ++ role_slug)%string)
    else
      r_log ("assign_role_onchain stub invoked for " ++ address ++ " role="
             ++ role_slug ++ " (contract configured, skipping real tx)")%string;;
      mret (Some ("stub-role::" ++ lower address ++ "::" ++ role_slug)%string).

End rbac.

(** What the role endpoints take from outside the database: how the role
    registry contract is configured, how [ObjectId(request_id)] parses (its
    canonical spelling, [None] where it raises) and the id given to the
    next inserted request. *)
Class RbacEnv := {
  role_registry : rbac.registry;
  parse_object_id : string -> option string;
  new_request_id : list RoleRequest.t -> string
}.

Module rbac_api.
Section Endpoints.
Context {E : RbacEnv}.

Definition _VALID_ROLES : list string := ["viewer"; "editor"; "admin"].

(** [sorted(_VALID_ROLES)] as the f-string prints it. *)
Definition valid_roles_text : string := "['admin', 'editor', 'viewer']".

Definition _normalize_address (address : string) : string := lower address.

(** The authenticated request: [request.address] and the attached role. *)
Record Ctx := mkCtx {
  ctx_address : string;
  ctx_role : Z
}.

Definition assignment_matches (a : string) (d : Assignment.t) : bool :=
  bool_decide (Assignment.address d = a).

(** [update_one({"address": a}, {"$set": new}, upsert=True)] *)
Definition upsert_assignment (a : string) (new : Assignment.t) : R unit :=
  fun db =>
    (Ok tt,
     {| assignments :=
          match update_first (assignment_matches a) (fun _ => new) (assignments db) with
          | Some coll => coll
          | None => assignments db ++ [new]
          end;
        requests := requests db;
        rlog := rlog db;
        warned := warned db |}).

(** The response of [upsert_member]. *)
Record Member := mkMember {
  m_address : string;
  m_role : string;
  m_assigned_at : Z;
  m_assigned_by : string;
  m_tx_reference : option string
}.

(** [upsert_member()] with the payload's [address] and [role] and the clock
    reading. *)
Definition upsert_member (ctx : Ctx) (address role : option string) (now : Z)
  : R Member :=
  rbac.ensure_role rbac.ADMIN (ctx_role ctx);;
  let role := lower (default "" role) in
  let assigned_by := ctx_address ctx in
  if missing address then r_abort 400 "address required"
  else if negb (bool_decide (role ∈ _VALID_ROLES))
  then r_abort 400 ("role must be one of " ++ valid_roles_text)%string
  else
    let address := default "" address in
    upsert_assignment (_normalize_address address)
      (Assignment.mk (_normalize_address address) (Some role) assigned_by now);;
    tx_reference ← rbac.assign_role_onchain role_registry address role;
    mret (mkMember (_normalize_address address) role now assigned_by tx_reference).

Definition pending_for (a : string) (d : RoleRequest.t) : bool :=
  bool_decide (RoleRequest.address d = a ∧ RoleRequest.status d = "pending").

Definition find_request (matches : RoleRequest.t -> bool) : R (option RoleRequest.t) :=
  fun db => (Ok (snd <$> list_find (fun d => matches d = true) (requests db)), db).

Definition insert_request (doc : list RoleRequest.t -> RoleRequest.t)
  : R RoleRequest.t :=
  fun db =>
    (Ok (doc (requests db)),
     {| assignments := assignments db;
        requests := requests db ++ [doc (requests db)];
        rlog := rlog db;
        warned := warned db |}).

(** [submit_request()]: the inserted document and the status 201. *)
Definition submit_request (ctx : Ctx) (requested_role reason : option string)
    (now : Z) : R (RoleRequest.t * Z) :=
  rbac.ensure_role rbac.VIEWER (ctx_role ctx);;
  let requested_role := lower (default "" requested_role) in
  if negb (bool_decide (requested_role ∈ _VALID_ROLES))
  then r_abort 400 ("requested_role must be one of " ++ valid_roles_text)%string
  else
    let address := ctx_address ctx in
    existing ← find_request (pending_for (_normalize_address address));
    match existing with
    | Some _ => r_abort 400 "You already have a pending request"
    | None =>
        doc ← insert_request (fun coll =>
                 RoleRequest.mk (new_request_id coll) (_normalize_address address)
                                requested_role reason "pending" now now
                                None None None);
        mret (doc, 201)
    end.

Definition has_id (oid : string) (d : RoleRequest.t) : bool :=
  bool_decide (RoleRequest.id d = oid).

Definition _load_request_or_404 (request_id : string) : R RoleRequest.t :=
  match parse_object_id request_id with
  | None => r_abort 404 "request not found"
  | Some oid =>
      doc ← find_request (has_id oid);
      match doc with
      | Some d => mret d
      | None => r_abort 404 "request not found"
      end
  end.

(** [update_one({"_id": oid}, {"$set": ...})] on the requests. *)
Definition update_request (oid : string) (set : RoleRequest.t -> RoleRequest.t)
  : R unit :=
  fun db =>
    (Ok tt,
     {| assignments := assignments db;
        requests := default (requests db) (update_first (has_id oid) set (requests db));
        rlog := rlog db;
        warned := warned db |}).

Definition approved (handled_by : string) (now : Z) (d : RoleRequest.t)
  : RoleRequest.t :=
  RoleRequest.mk (RoleRequest.id d) (RoleRequest.address d)
                 (RoleRequest.requested_role d) (RoleRequest.reason d)
                 "approved" (RoleRequest.created_at d) now
                 (Some handled_by) (Some now) (RoleRequest.note d).

Definition denied (handled_by : string) (now : Z) (note : option string)
    (d : RoleRequest.t) : RoleRequest.t :=
  RoleRequest.mk (RoleRequest.id d) (RoleRequest.address d)
                 (RoleRequest.requested_role d) (RoleRequest.reason d)
                 "denied" (RoleRequest.created_at d) now
                 (Some handled_by) (Some now) note.

(** [_serialize_doc(find_one(...))]: a missing document makes it raise. *)
Definition reload_request (oid : string) : R RoleRequest.t :=
  doc ← find_request (has_id oid);
  match doc with
  | Some d => mret d
  | None => r_raise Exception
  end.

(** [approve_request(request_id)]: the updated request and the assignment
    block of the response. *)
Definition approve_request (ctx : Ctx) (request_id : string) (now : Z)
  : R (RoleRequest.t * Member) :=
  rbac.ensure_role rbac.ADMIN (ctx_role ctx);;
  doc ← _load_request_or_404 request_id;
  if negb (String.eqb (RoleRequest.status doc) "pending")
  then r_abort 400 "request already processed"
  else
    let address := RoleRequest.address doc in
    let requested_role := RoleRequest.requested_role doc in
    let handled_by := ctx_address ctx in
    update_request (RoleRequest.id doc) (approved handled_by now);;
    upsert_assignment address
      (Assignment.mk address (Some requested_role) handled_by now);;
    tx_reference ← rbac.assign_role_onchain role_registry address requested_role;
    updated_request ← reload_request (RoleRequest.id doc);
    mret (updated_request,
          mkMember address requested_role now handled_by tx_reference).

(** [deny_request(request_id)] with the payload's [note]. *)
Definition deny_request (ctx : Ctx) (request_id : string) (note : option string)
    (now : Z) : R RoleRequest.t :=
  rbac.ensure_role rbac.ADMIN (ctx_role ctx);;
  doc ← _load_request_or_404 request_id;
  if negb (String.eqb (RoleRequest.status doc) "pending")
  then r_abort 400 "request already processed"
  else
    let handled_by := ctx_address ctx in
    update_request (RoleRequest.id doc) (denied handled_by now note);;
    reload_request (RoleRequest.id doc).

(** [delete_one({"address": a})]: [deleted_count]. *)
Definition delete_assignment (a : string) : R Z :=
  fun db =>
    let '(coll, deleted_count) :=
      delete_first (assignment_matches a) (assignments db) in
    (Ok deleted_count,
     {| assignments := coll; requests := requests db; rlog := rlog db;
        warned := warned db |}).

(** [delete_member(address)]: the [removed] flag. *)
Definition delete_member (ctx : Ctx) (address : string) : R bool :=
  rbac.ensure_role rbac.ADMIN (ctx_role ctx);;
  deleted_count ← delete_assignment (_normalize_address address);
  mret (0 <? deleted_count).

(** A call of one of the endpoints that write. *)
Inductive call :=
  | UpsertMember (ctx : Ctx) (address role : option string) (now : Z)
  | SubmitRequest (ctx : Ctx) (requested_role reason : option string) (now : Z)
  | ApproveRequest (ctx : Ctx) (request_id : string) (now : Z)
  | DenyRequest (ctx : Ctx) (request_id : string) (note : option string) (now : Z)
  | DeleteMember (ctx : Ctx) (address : string).

(** The database after a call, however the call ends. *)
Definition after (c : call) (db : rbac_db) : rbac_db :=
  match c with
  | UpsertMember ctx address role now => (upsert_member ctx address role now db).2
  | SubmitRequest ctx requested_role reason now =>
      (submit_request ctx requested_role reason now db).2
  | ApproveRequest ctx request_id now => (approve_request ctx request_id now db).2
  | DenyRequest ctx request_id note now =>
      (deny_request ctx request_id note now db).2
  | DeleteMember ctx address => (delete_member ctx address db).2
  end.

(** The database after a sequence of calls. *)
Definition after_all (calls : list call) (db : rbac_db) : rbac_db :=
  foldl (fun d c => after c d) db calls.

(** A request still waiting for a decision. *)
Definition is_pending (d : RoleRequest.t) : Prop := RoleRequest.status d = "pending".

(** What every database reached through the endpoints satisfies: one
    assignment per address, one pending request per address, only roles of
    [_VALID_ROLES] assigned or requested, and only lower-cased addresses
    stored. *)
Definition consistent (db : rbac_db) : Prop :=
  NoDup (Assignment.address <$> assignments db)
  ∧ NoDup (RoleRequest.address <$> filter is_pending (requests db))
  ∧ Forall (fun d => Assignment.role d ∈ Some <$> _VALID_ROLES) (assignments db)
  ∧ Forall (fun d => RoleRequest.requested_role d ∈ _VALID_ROLES) (requests db)
  ∧ Forall (fun d => lower (Assignment.address d) = Assignment.address d)
           (assignments db)
  ∧ Forall (fun d => lower (RoleRequest.address d) = RoleRequest.address d)
           (requests db).

#[global] Instance consistent_dec (db : rbac_db) : Decision (consistent db).
Proof. unfold consistent. apply _. Defined.

(** The caller of an endpoint. *)
Definition call_ctx (c : call) : Ctx :=
  match c with
  | UpsertMember ctx _ _ _ | SubmitRequest ctx _ _ _ | ApproveRequest ctx _ _
  | DenyRequest ctx _ _ _ | DeleteMember ctx _ => ctx
  end.

Definition empty_db : rbac_db := mkDb [] [] [] false.

End Endpoints.
End rbac_api.

(** ** A deployment for the role endpoints *)

Module DemoRbac.
Import rbac_api.

Definition is_hex (c : ascii) : bool :=
  let n := N_of_ascii c in
  ((48 <=? n) && (n <=? 57) || (65 <=? n) && (n <=? 70)
   || (97 <=? n) && (n <=? 102))%N.

Fixpoint all_hex (s : string) : bool :=
  match s with
  | EmptyString => true
  | String c rest => is_hex c && all_hex rest
  end.

(** No registry contract is configured; an [ObjectId] is spelled with 24
    hexadecimal digits and printed in lower case; ids are handed out in
    sequence. *)
#[export] Instance rbac_env : RbacEnv := {|
  role_registry := rbac.NotConfigured;
  parse_object_id s :=
    if Nat.eqb (String.length s) 24 && all_hex s then Some (lower s) else None;
  new_request_id coll :=
    ("65f0c0ffee0000000000000" ++ str_of_int (Z.of_nat (length coll) mod 10))%string
|}.

Definition admin : Ctx := mkCtx "0xAD0000" 3.
Definition alice : Ctx := mkCtx "0xA11CE" 2.
Definition first_id : string := "65F0C0FFEE00000000000000".

(** Alice has asked for the admin role. *)
Definition with_request : rbac_db :=
  after (SubmitRequest alice (Some "Admin") (Some "on call") 1000) empty_db.

(** Bob has been made a viewer. *)
Definition with_viewer : rbac_db :=
  after (UpsertMember admin (Some "0xB0B") (Some "Viewer") 3000) empty_db.

End DemoRbac.

(** * Properties *)

#[local] Set Warnings "-clear-no-such-hyp".

(** ** Sets and sorting *)

Lemma elem_of_sorted (l : list string) (t : string) : t ∈ sorted l ↔ t ∈ l.
Proof. unfold sorted. by rewrite merge_sort_Permutation. Qed.

Lemma elem_of_py_set (l : list string) (t : string) : t ∈ py_set l ↔ t ∈ l.
Proof. apply elem_of_remove_dups. Qed.

Lemma truthy_nonempty (s : string) : truthy s = true ↔ s ≠ "".
Proof. destruct s; simpl; split; congruence. Qed.

(** ** The monad *)

Lemma bind_inv {A B} (m : M A) (k : A → M B) (w w' : world) (r : outcome B) :
  (m ≫= k) w = (r, w') →
  (∃ a w1, m w = (Ok a, w1) ∧ k a w1 = (r, w'))
  ∨ (∃ status description,
        m w = (Abort status description, w') ∧ r = Abort status description)
  ∨ (∃ e, m w = (Raise e, w') ∧ r = Raise e).
Proof.
  unfold mbind, M_bind, bind.
  destruct (m w) as [[a | status description | e] w1]; intros Hrun.
  - left. eauto.
  - right; left. inversion Hrun; subst. eauto.
  - right; right. inversion Hrun; subst. eauto.
Qed.

Lemma bind_ok {A B} (m : M A) (k : A → M B) (w w' : world) (b : B) :
  (m ≫= k) w = (Ok b, w') → ∃ a w1, m w = (Ok a, w1) ∧ k a w1 = (Ok b, w').
Proof.
  intros Hrun. apply bind_inv in Hrun as [Hok | [Hab | Hex]]; [done | |].
  - destruct Hab as (? & ? & _ & ?). discriminate.
  - destruct Hex as (? & _ & ?). discriminate.
Qed.

(** ** The text search of the PDF redactor *)

Section PdfFacts.
Context {F : Fitz}.
Import PDFRedactor.

Lemma marks_keep_body (found : list Rect) (p : Page) :
  body (foldl (fun q rect => add_redact_annot rect q) p found) = body p.
Proof.
  revert p. induction found as [|rect found IH]; intros p; simpl; [done|].
  by rewrite IH.
Qed.

Lemma search_term_body (term : string) (p : Page) (r : list string) :
  body (search_term term (p, r)).1 = body p.
Proof.
  unfold search_term. destruct (truthy term); simpl; [|done].
  destruct (search_for (body p) term) eqn:Hfound; simpl; [done|].
  apply (marks_keep_body (_ :: _)).
Qed.

Lemma search_term_terms (term : string) (p : Page) (r : list string) (t : string) :
  t ∈ (search_term term (p, r)).2
  ↔ t ∈ r ∨ (t = term ∧ truthy term = true ∧ search_for (body p) term ≠ []).
Proof.
  unfold search_term. destruct (truthy term); simpl.
  - destruct (search_for (body p) term) eqn:Hfound; simpl.
    + naive_solver.
    + rewrite elem_of_app, list_elem_of_singleton. naive_solver.
  - naive_solver.
Qed.

Lemma search_terms_spec (matched : list string) (p : Page) (r : list string) :
  let s := foldl (fun s term => search_term term s) (p, r) matched in
  body s.1 = body p
  ∧ ∀ t, t ∈ s.2
         ↔ t ∈ r ∨ (t ∈ matched ∧ truthy t = true ∧ search_for (body p) t ≠ []).
Proof.
  revert p r. induction matched as [|term matched IH]; intros p r; cbn [foldl].
  - split; [done|]. intros t. rewrite elem_of_nil. naive_solver.
  - destruct (search_term term (p, r)) as [p1 r1] eqn:Hstep.
    pose proof (search_term_body term p r) as Hbody.
    pose proof (search_term_terms term p r) as Hterms.
    rewrite Hstep in Hbody, Hterms. simpl in Hbody, Hterms.
    destruct (IH p1 r1) as [IHbody IHterms]. split.
    + by rewrite IHbody.
    + intros t. rewrite IHterms, Hterms, Hbody, elem_of_cons. naive_solver.
Qed.

Lemma search_page_spec (matched : list string) (i : nat) (d : Document)
    (r : list string) :
  let s := search_page matched i (d, r) in
  body <$> s.1 = body <$> d
  ∧ ∀ t, t ∈ s.2
         ↔ t ∈ r ∨ (t ∈ matched ∧ truthy t = true ∧ found_at (body <$> d) t i).
Proof.
  unfold search_page, found_at. destruct (d !! i) as [p|] eqn:Hp; simpl.
  - destruct (search_terms_spec matched p r) as [Hbody Hterms].
    destruct (foldl _ (p, r) matched) as [p1 r1]. simpl in *. split.
    + rewrite list_fmap_insert, Hbody.
      apply list_insert_id. by rewrite list_lookup_fmap, Hp.
    + intros t. rewrite Hterms, list_lookup_fmap, Hp. simpl. naive_solver.
  - split; [done|]. intros t. rewrite list_lookup_fmap, Hp. simpl. naive_solver.
Qed.

Lemma search_pages_spec (matched : list string) (idxs : list nat) (d : Document)
    (r : list string) :
  let s := foldl (fun s i => search_page matched i s) (d, r) idxs in
  body <$> s.1 = body <$> d
  ∧ ∀ t, t ∈ s.2
         ↔ t ∈ r
           ∨ (t ∈ matched ∧ truthy t = true
              ∧ ∃ i, i ∈ idxs ∧ found_at (body <$> d) t i).
Proof.
  revert d r. induction idxs as [|i idxs IH]; intros d r; cbn [foldl].
  - split; [done|]. intros t. setoid_rewrite elem_of_nil. naive_solver.
  - destruct (search_page_spec matched i d r) as [Hbody Hterms].
    destruct (search_page matched i (d, r)) as [d1 r1]. simpl in *.
    destruct (IH d1 r1) as [IHbody IHterms]. split.
    + by rewrite IHbody.
    + intros t. rewrite IHterms, Hterms, Hbody.
      setoid_rewrite elem_of_cons. naive_solver.
Qed.

(** The terms [search_pass] collects are the non-empty matched texts that
    [search_for] finds on some page of the document. *)
Lemma search_pass_spec (matched : list string) (doc : Document) (t : string) :
  t ∈ (search_pass matched doc).2
  ↔ t ∈ matched ∧ t ≠ "" ∧ ∃ p, p ∈ doc ∧ search_for (body p) t ≠ [].
Proof.
  unfold search_pass.
  destruct (search_pages_spec matched (seq 0 (length doc)) doc []) as [_ Hterms].
  rewrite Hterms, elem_of_nil, truthy_nonempty. unfold found_at.
  split.
  - intros [[] | (Hin & Hne & i & _ & c & Hc & Hfound)].
    rewrite list_lookup_fmap in Hc.
    destruct (doc !! i) as [p|] eqn:Hp; simplify_eq/=.
    split_and!; [done..|]. exists p. split; [|done].
    by eapply list_elem_of_lookup_2.
  - intros (Hin & Hne & p & Hp & Hfound). right.
    apply list_elem_of_lookup_1 in Hp as [i Hi].
    split_and!; [done..|]. exists i. split.
    + apply elem_of_seq. apply lookup_lt_Some in Hi. lia.
    + exists (body p). by rewrite list_lookup_fmap, Hi.
Qed.

Lemma search_pass_length (matched : list string) (doc : Document) :
  length (search_pass matched doc).1 = length doc.
Proof.
  unfold search_pass.
  destruct (search_pages_spec matched (seq 0 (length doc)) doc []) as [Hbody _].
  apply (f_equal length) in Hbody. by rewrite !length_fmap in Hbody.
Qed.

End PdfFacts.

(** ** The region loop of the PDF redactor *)

Section PdfRegions.
Context {F : Fitz}.
Import PDFRedactor.

Lemma mark_region_length (doc : Document) (region : RedactionRegion.t) :
  length (mark_region doc region) = length doc.
Proof.
  unfold mark_region. destruct (out_of_bounds doc region); [done|].
  destruct (doc !! _); [|done]. apply length_insert.
Qed.

Lemma out_of_bounds_length (d1 d2 : Document) (region : RedactionRegion.t) :
  length d1 = length d2 → out_of_bounds d1 region = out_of_bounds d2 region.
Proof. unfold out_of_bounds, page_count. by intros ->. Qed.

Lemma in_bounds_iff (doc : Document) (region : RedactionRegion.t) :
  out_of_bounds doc region = false
  ↔ 0 ≤ RedactionRegion.page region < page_count doc.
Proof. unfold out_of_bounds. lia. Qed.

Lemma mark_count_insert (doc : Document) (i : nat) (p : Page) (rect : Rect) :
  doc !! i = Some p →
  mark_count (<[i := add_redact_annot rect p]> doc) = S (mark_count doc).
Proof.
  unfold mark_count. revert i.
  induction doc as [|q doc IH]; intros [|i] Hi; simplify_eq/=.
  - rewrite !length_app. simpl. lia.
  - rewrite !length_app. rewrite (IH i Hi). lia.
Qed.

Lemma mark_count_mark_region (doc : Document) (region : RedactionRegion.t) :
  mark_count (mark_region doc region)
  = (mark_count doc + if out_of_bounds doc region then 0 else 1)%nat.
Proof.
  unfold mark_region. destruct (out_of_bounds doc region) eqn:Hb; [lia|].
  apply in_bounds_iff in Hb. unfold page_count in Hb.
  destruct (lookup_lt_is_Some_2 doc (Z.to_nat (RedactionRegion.page region)))
    as [p Hp]; [lia|].
  rewrite Hp, (mark_count_insert _ _ _ _ Hp). lia.
Qed.

(** The region loop registers one mark for each region it does not skip. *)
Lemma region_pass_marks (regions : list RedactionRegion.t) (doc : Document) :
  mark_count (region_pass regions doc)
  = (mark_count doc
     + length (filter (fun r => out_of_bounds doc r = false) regions))%nat.
Proof.
  unfold region_pass. revert doc.
  induction regions as [|region regions IH]; intros doc; simpl; [lia|].
  rewrite IH, mark_count_mark_region.
  rewrite (list_filter_iff (fun r => out_of_bounds (mark_region doc region) r = false)
                      (fun r => out_of_bounds doc r = false)).
  2:{ intros r. by rewrite (out_of_bounds_length _ doc) by apply mark_region_length. }
  rewrite filter_cons. destruct (out_of_bounds doc region) eqn:Hb.
  - rewrite decide_False by done. lia.
  - rewrite decide_True by done. simpl. lia.
Qed.

Lemma length_filter_all {A} (P : A → Prop) `{∀ a, Decision (P a)} (l : list A) :
  length (filter P l) = length l ↔ Forall P l.
Proof.
  induction l as [|a l IH]; simpl.
  - split; [constructor | done].
  - rewrite filter_cons. pose proof (length_filter P l) as Hle.
    destruct (decide (P a)) as [Ha | Ha]; simpl.
    + rewrite Forall_cons. split.
      * intros Hlen. split; [done|]. apply IH. lia.
      * intros [_ Hall]. f_equal. by apply IH.
    + rewrite Forall_cons. split; [lia | tauto].
Qed.

End PdfRegions.

(** ** The PDF redactor on files *)

Section PdfIO.
Context {HL : Hashlib} {F : Fitz} {FIO : FitzIO}.

(** A successful run opened the staged source and saved the redacted
    document at the output path. *)
Lemma pdf_apply_ok (req : RedactionRequest.t) (w : world) (res : RedactionResult.t) :
  (pdf_apply_redactions req w).1 = Ok res →
  ∃ src doc,
    fs w !! RedactionRequest.source_path req = Some src
    ∧ fitz_open src = Some doc
    ∧ res = PDFRedactor.result req
              (sha256_hexdigest
                 (fitz_save (entropy w) (PDFRedactor.redact_document req doc).1))
              (PDFRedactor.redact_document req doc).2
    ∧ (pdf_apply_redactions req w).2
      = with_fs (<[RedactionRequest.output_path req :=
                     fitz_save (entropy w) (PDFRedactor.redact_document req doc).1]>
                   (fs w)) (draw w).2.
Proof.
  unfold pdf_apply_redactions, mbind, M_bind, bind, read_bytes, write_bytes, draw,
    raise, mret, M_ret, ret.
  destruct (fs w !! RedactionRequest.source_path req) as [src|] eqn:Hsrc; [|done].
  destruct (fitz_open src) as [doc|] eqn:Hopen; [|done].
  destruct (PDFRedactor.redact_document req doc) as [doc' terms] eqn:Hred.
  simpl. rewrite lookup_insert_eq. simpl.
  intros [= <-]. exists src, doc. by rewrite Hred.
Qed.

(** A run on a source that opens ends normally. *)
Lemma pdf_apply_run (req : RedactionRequest.t) (w : world) (src : bytes)
    (doc : Document) :
  fs w !! RedactionRequest.source_path req = Some src →
  fitz_open src = Some doc →
  pdf_apply_redactions req w
  = (Ok (PDFRedactor.result req
           (sha256_hexdigest
              (fitz_save (entropy w) (PDFRedactor.redact_document req doc).1))
           (PDFRedactor.redact_document req doc).2),
     with_fs (<[RedactionRequest.output_path req :=
                  fitz_save (entropy w) (PDFRedactor.redact_document req doc).1]>
                (fs w)) (draw w).2).
Proof.
  intros Hsrc Hopen.
  unfold pdf_apply_redactions, mbind, M_bind, bind, read_bytes, write_bytes, draw,
    raise, mret, M_ret, ret.
  rewrite Hsrc, Hopen.
  destruct (PDFRedactor.redact_document req doc) as [doc' terms].
  simpl. by rewrite lookup_insert_eq.
Qed.

(** The removed terms of a successful run, in terms of the document that
    was opened. *)
Lemma pdf_removed_terms_spec (req : RedactionRequest.t) (w : world)
    (res : RedactionResult.t) (src : bytes) (doc : Document) (t : string) :
  (pdf_apply_redactions req w).1 = Ok res →
  fs w !! RedactionRequest.source_path req = Some src →
  fitz_open src = Some doc →
  t ∈ RedactionResult.removed_terms res
  ↔ t ∈ RedactionRequest.matched_texts req
    ∧ t ≠ ""
    ∧ ∃ p, p ∈ doc ∧ search_for (body p) t ≠ [].
Proof.
  intros Hrun Hsrc Hopen.
  apply pdf_apply_ok in Hrun as (src' & doc' & Hsrc' & Hopen' & -> & _).
  simplify_eq. simpl.
  rewrite elem_of_sorted, elem_of_py_set. unfold PDFRedactor.redact_document.
  pose proof (search_pass_spec (RedactionRequest.matched_texts req) doc' t) as Hspec.
  destruct (PDFRedactor.search_pass (RedactionRequest.matched_texts req) doc')
    as [doc1 terms].
  exact Hspec.
Qed.

End PdfIO.

(** ** PDF redactor: the result *)

Section PdfClaims.
Context {HL : Hashlib} {F : Fitz} {FIO : FitzIO}.
Import PDFRedactor.

(** C3 (as the code has it).  [total_regions] of the PDF redactor's result
    is the number of regions of the request.  The region loop registers a
    mark for exactly the regions whose page lies in [0, page_count), so
    [total_regions] is at least the number of regions applied and equals it
    exactly when no region is out of bounds. *)
Theorem pdf_total_regions_is_request_length
    (req : RedactionRequest.t) (w : world) (res : RedactionResult.t) :
  (pdf_apply_redactions req w).1 = Ok res →
  ∃ src doc,
    fs w !! RedactionRequest.source_path req = Some src
    ∧ fitz_open src = Some doc
    ∧ RedactionResult.total_regions res
      = Z.of_nat (length (RedactionRequest.regions req))
    ∧ (let searched := (search_pass (RedactionRequest.matched_texts req) doc).1 in
       mark_count (region_pass (RedactionRequest.regions req) searched)
       = (mark_count searched + length (applied_regions req doc))%nat)
    ∧ Z.of_nat (length (applied_regions req doc))
      ≤ RedactionResult.total_regions res
    ∧ (RedactionResult.total_regions res
       = Z.of_nat (length (applied_regions req doc))
       ↔ ∀ r, r ∈ RedactionRequest.regions req →
              0 ≤ RedactionRegion.page r < page_count doc).
Proof.
  intros Hrun. apply pdf_apply_ok in Hrun as (src & doc & Hsrc & Hopen & -> & _).
  exists src, doc. split_and!; [done | done | done | | |].
  - cbn zeta. rewrite region_pass_marks. f_equal. unfold applied_regions.
    apply (f_equal length), list_filter_iff. intros r.
    by rewrite (out_of_bounds_length _ doc) by apply search_pass_length.
  - simpl. unfold applied_regions.
    pose proof (length_filter (fun r => out_of_bounds doc r = false)
                              (RedactionRequest.regions req)). lia.
  - simpl. unfold applied_regions. rewrite Nat2Z.inj_iff.
    split.
    + intros Hlen r Hr. symmetry in Hlen.
      apply length_filter_all in Hlen. rewrite Forall_forall in Hlen.
      by apply in_bounds_iff, Hlen.
    + intros Hall. symmetry. apply length_filter_all, Forall_forall.
      intros r Hr. by apply in_bounds_iff, Hall.
Qed.

(** C7.  A term is among the [removed_terms] of the PDF redactor's result
    if and only if it is a non-empty matched text that [search_for] finds
    on some page of the opened document. *)
Theorem pdf_removed_terms_iff_found
    (req : RedactionRequest.t) (w : world) (res : RedactionResult.t) :
  (pdf_apply_redactions req w).1 = Ok res →
  ∃ src doc,
    fs w !! RedactionRequest.source_path req = Some src
    ∧ fitz_open src = Some doc
    ∧ ∀ t, t ∈ RedactionResult.removed_terms res
           ↔ t ∈ RedactionRequest.matched_texts req
             ∧ t ≠ ""
             ∧ ∃ p, p ∈ doc ∧ search_for (body p) t ≠ [].
Proof.
  intros Hrun.
  destruct (pdf_apply_ok req w res Hrun) as (src & doc & Hsrc & Hopen & _).
  exists src, doc. split_and!; [done..|]. intros t.
  by apply (pdf_removed_terms_spec req w res src doc).
Qed.

(** C10 (as the code has it).  The PDF redactor reads neither
    [custom_terms] nor [patterns_applied].  Of two runs on the same source
    bytes, for requests that agree on the source and output paths, the
    regions and the matched texts, the second ends normally when the first
    does; both hand the same redacted pages to [doc.save] and report the
    same removed terms and region count, and every removed term is one of
    the matched texts.  The bytes written, and the digest reported, are
    those of the save of each run, which carries the file identifier of
    that save.  When the first run fails, the second fails in the same way
    and neither writes anything. *)
Theorem pdf_ignores_custom_terms_and_patterns
    (req1 req2 : RedactionRequest.t) (w1 w2 : world) :
  same_pdf_inputs req1 req2 →
  fs w1 !! RedactionRequest.source_path req1
  = fs w2 !! RedactionRequest.source_path req2 →
  (∀ res1,
     (pdf_apply_redactions req1 w1).1 = Ok res1 →
     ∃ res2 src doc pages,
       (pdf_apply_redactions req2 w2).1 = Ok res2
       ∧ fs w1 !! RedactionRequest.source_path req1 = Some src
       ∧ fitz_open src = Some doc
       ∧ pages = (redact_document req1 doc).1
       ∧ pages = (redact_document req2 doc).1
       ∧ RedactionResult.removed_terms res1 = RedactionResult.removed_terms res2
       ∧ RedactionResult.total_regions res1 = RedactionResult.total_regions res2
       ∧ RedactionResult.redacted_path res1 = RedactionResult.redacted_path res2
       ∧ fs (pdf_apply_redactions req1 w1).2 !! RedactionRequest.output_path req1
         = Some (fitz_save (entropy w1) pages)
       ∧ fs (pdf_apply_redactions req2 w2).2 !! RedactionRequest.output_path req2
         = Some (fitz_save (entropy w2) pages)
       ∧ RedactionResult.sha256 res1
         = sha256_hexdigest (fitz_save (entropy w1) pages)
       ∧ RedactionResult.sha256 res2
         = sha256_hexdigest (fitz_save (entropy w2) pages)
       ∧ RedactionResult.removed_terms res1 ⊆ RedactionRequest.matched_texts req1)
  ∧ ((∀ res1, (pdf_apply_redactions req1 w1).1 ≠ Ok res1) →
     (pdf_apply_redactions req2 w2).1 = (pdf_apply_redactions req1 w1).1
     ∧ (pdf_apply_redactions req1 w1).2 = w1
     ∧ (pdf_apply_redactions req2 w2).2 = w2).
Proof.
  intros (Hsrc & Hout & Hregions & Hmatched) Hfile.
  assert (∀ doc, PDFRedactor.redact_document req1 doc
                 = PDFRedactor.redact_document req2 doc) as Hsame.
  { intros doc. unfold redact_document. by rewrite Hregions, Hmatched. }
  split.
  - intros res1 Hrun.
    destruct (pdf_apply_ok req1 w1 res1 Hrun) as (src & doc & Hfile1 & Hopen & Hres & Hw).
    assert (fs w2 !! RedactionRequest.source_path req2 = Some src) as Hfile2
      by by rewrite <- Hfile.
    rewrite (pdf_apply_run req2 w2 src doc Hfile2 Hopen), Hw.
    eexists _, src, doc, (redact_document req1 doc).1.
    split; [reflexivity|]. subst res1. unfold result. simpl.
    rewrite !lookup_insert_eq, <- Hsame, Hout, Hregions.
    split_and!; try done.
    intros t Ht.
    by apply (pdf_removed_terms_spec req1 w1 _ src doc t Hrun Hfile1 Hopen) in Ht
      as [? _].
  - intros Hfail.
    destruct (fs w1 !! RedactionRequest.source_path req1) as [src|] eqn:Hfile1.
    + destruct (fitz_open src) as [doc|] eqn:Hopen.
      * exfalso. eapply Hfail. by rewrite (pdf_apply_run req1 w1 src doc).
      * unfold pdf_apply_redactions, mbind, M_bind, bind, read_bytes.
        by rewrite Hfile1, <- Hfile, Hopen.
    + unfold pdf_apply_redactions, mbind, M_bind, bind, read_bytes.
      by rewrite Hfile1, <- Hfile.
Qed.

End PdfClaims.

(** ** PDF redactor: runs on the demo deployment *)

(** Closes a goal that holds by running the model. *)
Ltac by_running := vm_compute; reflexivity.

Section PdfRuns.
Import Demo.

Lemma pdf_total_regions_is_request_length_run :
∃ res,
  (pdf_apply_redactions Demo.two_region_request Demo.ssn_pdf).1 = Ok res
  ∧ RedactionResult.total_regions res = 2
  ∧ length (PDFRedactor.applied_regions Demo.two_region_request Demo.ssn_page) = 1%nat.
Proof.
eexists. split; [by_running|].
edestruct (pdf_total_regions_is_request_length
             Demo.two_region_request Demo.ssn_pdf)
  as (src & doc & Hsrc & Hopen & Htotal & _); [by_running|].
split; [exact Htotal | reflexivity].
Defined.

(** C3 (as stated) fails: with a single region on page 5 of a one-page
  document nothing is applied, yet [total_regions] is 1. *)
Lemma pdf_total_regions_counts_skipped_region :
fs Demo.ssn_pdf !! RedactionRequest.source_path Demo.skipped_region_request
= Some (list_byte_of_string Demo.ssn_text)
∧ fitz_open (list_byte_of_string Demo.ssn_text) = Some Demo.ssn_page
∧ PDFRedactor.applied_regions Demo.skipped_region_request Demo.ssn_page = []
∧ ∃ res,
    (pdf_apply_redactions Demo.skipped_region_request Demo.ssn_pdf).1 = Ok res
    ∧ RedactionResult.total_regions res = 1
    ∧ RedactionResult.total_regions res
      ≠ Z.of_nat (length (PDFRedactor.applied_regions
                            Demo.skipped_region_request Demo.ssn_page)).
Proof.
split_and!; [by_running..|].
eexists. split_and!; [by_running | reflexivity | discriminate].
Qed.

Lemma pdf_removed_terms_iff_found_run :
∃ res,
  (pdf_apply_redactions Demo.two_region_request Demo.ssn_pdf).1 = Ok res
  ∧ RedactionResult.removed_terms res = ["123-45-6789"]
  ∧ ∃ src doc,
      fs Demo.ssn_pdf !! RedactionRequest.source_path Demo.two_region_request
      = Some src
      ∧ fitz_open src = Some doc
      ∧ ∀ t, t ∈ RedactionResult.removed_terms res
             ↔ t ∈ RedactionRequest.matched_texts Demo.two_region_request
               ∧ t ≠ ""
               ∧ ∃ p, p ∈ doc ∧ search_for (body p) t ≠ [].
Proof.
eexists. split; [by_running|]. split; [reflexivity|].
apply (pdf_removed_terms_iff_found Demo.two_region_request Demo.ssn_pdf).
by_running.
Defined.

Lemma pdf_ignores_custom_terms_and_patterns_run :
∃ res1 res2,
  (pdf_apply_redactions Demo.two_region_request Demo.ssn_pdf).1 = Ok res1
  ∧ (pdf_apply_redactions Demo.relabelled_request
       (pdf_apply_redactions Demo.two_region_request Demo.ssn_pdf).2).1 = Ok res2
  ∧ RedactionResult.removed_terms res1 = RedactionResult.removed_terms res2
  ∧ RedactionResult.removed_terms res1 = ["123-45-6789"].
Proof.
eexists.
edestruct (proj1 (pdf_ignores_custom_terms_and_patterns
                    Demo.two_region_request Demo.relabelled_request Demo.ssn_pdf
                    (pdf_apply_redactions Demo.two_region_request Demo.ssn_pdf).2
                    ltac:(repeat split) ltac:(by_running)))
  as (res2 & src & doc & pages & Hrun2 & _ & _ & _ & _ & Hterms & _); [by_running|].
exists res2. split_and!; [by_running | exact Hrun2 | exact Hterms | by_running].
Defined.

(** C10 (as stated) fails: the same document redacted twice, for requests
  that differ in nothing but [custom_terms] and [patterns_applied], gives
  two outputs that differ in their bytes and in the digest reported; the
  removed terms are the same. *)
Lemma pdf_output_bytes_differ_between_runs :
PDFRedactor.same_pdf_inputs Demo.two_region_request Demo.relabelled_request
∧ fs (pdf_apply_redactions Demo.two_region_request Demo.ssn_pdf).2
    !! RedactionRequest.source_path Demo.relabelled_request
  = fs Demo.ssn_pdf !! RedactionRequest.source_path Demo.two_region_request
∧ fs (pdf_apply_redactions Demo.two_region_request Demo.ssn_pdf).2
    !! RedactionRequest.output_path Demo.two_region_request
  ≠ fs (pdf_apply_redactions Demo.relabelled_request
          (pdf_apply_redactions Demo.two_region_request Demo.ssn_pdf).2).2
      !! RedactionRequest.output_path Demo.relabelled_request
∧ ∃ res1 res2,
    (pdf_apply_redactions Demo.two_region_request Demo.ssn_pdf).1 = Ok res1
    ∧ (pdf_apply_redactions Demo.relabelled_request
         (pdf_apply_redactions Demo.two_region_request Demo.ssn_pdf).2).1 = Ok res2
    ∧ RedactionResult.sha256 res1 ≠ RedactionResult.sha256 res2
    ∧ RedactionResult.removed_terms res1 = RedactionResult.removed_terms res2.
Proof.
split_and!; [repeat split | by_running | vm_compute; discriminate |].
eexists _, _.
split_and!; [by_running | by_running | vm_compute; discriminate | by_running].
Qed.

End PdfRuns.

(** ** DOCX redactor *)

Section DocxFacts.
Context {SO : SetOrder}.
Import DOCXRedactor.

(** The members of the term set: the non-empty custom terms, and every
    pattern label and matched text as it comes. *)
Lemma elem_of_term_set (req : RedactionRequest.t) (t : string) :
  t ∈ term_set req
  ↔ (t ∈ RedactionRequest.custom_terms req ∧ t ≠ "")
    ∨ t ∈ RedactionRequest.patterns_applied req
    ∨ t ∈ RedactionRequest.matched_texts req.
Proof.
  unfold term_set.
  rewrite elem_of_py_set, !elem_of_app, list_elem_of_filter, truthy_nonempty.
  tauto.
Qed.

(** The removed terms are the term set, whatever the document holds. *)
Lemma docx_removed_terms_spec (req : RedactionRequest.t) (doc : DocxDocument)
    (t : string) :
  t ∈ (redact_document req doc).2 ↔ t ∈ term_set req.
Proof.
  unfold redact_document. destruct (term_set req) as [|t0 terms] eqn:Hterms; simpl.
  - done.
  - by rewrite elem_of_sorted.
Qed.

End DocxFacts.

Section DocxRuns.
Import Demo.

(** C4 at its failing input: the paragraph holds [Jane Doe] only, and both
    custom terms are reported as removed.  In general the removed terms are
    the whole term set, for every document. *)
Theorem docx_removed_terms_lists_absent_term :
  py_in "John Roe" jane_text = false
  ∧ (∃ res,
       (docx_apply_redactions absent_term_request jane_docx).1 = Ok res
       ∧ RedactionResult.removed_terms res = ["Jane Doe"; "John Roe"])
  ∧ fs (docx_apply_redactions absent_term_request jane_docx).2
      !! RedactionRequest.output_path absent_term_request
    = Some (list_byte_of_string ("Contact " ++ py_mul block 8))
  ∧ ∀ (SO : SetOrder) req doc t,
      t ∈ (DOCXRedactor.redact_document req doc).2 ↔ t ∈ DOCXRedactor.term_set req.
Proof.
  split_and!; [by_running | eexists; split; by_running | by_running |].
  intros SO req doc t. apply docx_removed_terms_spec.
Qed.

(** C8 at its failing input: an empty pattern label enters the term set
    (the empty custom term next to it does not) and is reported as removed.
    In general only the custom terms are filtered. *)
Theorem docx_term_set_keeps_empty_pattern :
  DOCXRedactor.term_set empty_label_request = [""]
  ∧ (DOCXRedactor.redact_document empty_label_request
       (mkDocx [jane_text] [] (mkCore None None None None 1 None None))).2 = [""]
  ∧ ∀ (SO : SetOrder) req,
      "" ∈ DOCXRedactor.term_set req
      ↔ "" ∈ RedactionRequest.patterns_applied req
        ∨ "" ∈ RedactionRequest.matched_texts req.
Proof.
  split_and!; [by_running | by_running |].
  intros SO req. rewrite elem_of_term_set. tauto.
Qed.

End DocxRuns.

(** ** What the steps of the endpoint leave alone *)

Create HintDb frame.

Section Frame.
Context {A B : Type}.

Lemma stable_ret (a : A) : catalog_stable (mret a).
Proof. by intros w. Qed.

Lemma stable_abort status description : catalog_stable (abort (A:=A) status description).
Proof. by intros w. Qed.

Lemma stable_raise e : catalog_stable (raise (A:=A) e).
Proof. by intros w. Qed.

Lemma stable_bind (m : M A) (k : A → M B) :
  catalog_stable m → (∀ a, catalog_stable (k a)) → catalog_stable (m ≫= k).
Proof.
  intros Hm Hk w. unfold mbind, M_bind, bind. specialize (Hm w).
  destruct (m w) as [[a | status description | e] w1]; simpl in *; [|done..].
  by rewrite Hk.
Qed.

Lemma blind_ret (a : A) : removal_blind (mret a).
Proof. by intros u w. Qed.

Lemma blind_abort status description : removal_blind (abort (A:=A) status description).
Proof. by intros u w. Qed.

Lemma blind_raise e : removal_blind (raise (A:=A) e).
Proof. by intros u w. Qed.

Lemma blind_bind (m : M A) (k : A → M B) :
  removal_blind m → (∀ a, removal_blind (k a)) → removal_blind (m ≫= k).
Proof.
  intros Hm Hk u w. unfold mbind, M_bind, bind. rewrite Hm.
  destruct (m w) as [[a | status description | e] w1]; simpl; [|done..].
  rewrite Hk. by destruct (k a w1).
Qed.

End Frame.

#[local] Hint Resolve stable_ret stable_abort stable_raise stable_bind : frame.
#[local] Hint Resolve blind_ret blind_abort blind_raise blind_bind : frame.

Lemma stable_run {A} (m : M A) (w w' : world) (r : outcome A) :
  catalog_stable m → m w = (r, w') → catalog w' = catalog w.
Proof. intros Hm Hrun. specialize (Hm w). by rewrite Hrun in Hm. Qed.

Lemma stable_on_files f : catalog_stable (on_files f).
Proof. intros w. unfold on_files. by destruct (f (fs w)). Qed.

Lemma blind_on_files f : removal_blind (on_files f).
Proof. intros u w. unfold on_files. simpl. by destruct (f (fs w)). Qed.

Lemma stable_read_bytes path : catalog_stable (read_bytes path).
Proof. intros w. unfold read_bytes. by destruct (fs w !! path). Qed.

Lemma blind_read_bytes path : removal_blind (read_bytes path).
Proof. intros u w. unfold read_bytes. simpl. by destruct (fs w !! path). Qed.

Lemma stable_write_bytes path b : catalog_stable (write_bytes path b).
Proof. by intros w. Qed.

Lemma blind_write_bytes path b : removal_blind (write_bytes path b).
Proof. by intros u w. Qed.

Lemma stable_exists path : catalog_stable (exists_ path).
Proof. by intros w. Qed.

Lemma blind_exists path : removal_blind (exists_ path).
Proof. by intros u w. Qed.

Lemma stable_logger_warning line : catalog_stable (logger_warning line).
Proof. by intros w. Qed.

Lemma stable_os_remove path : catalog_stable (os_remove path).
Proof.
  intros w. unfold os_remove. destruct (decide _); [done|].
  by destruct (fs w !! path).
Qed.

Lemma blind_insert_one new_id record : removal_blind (insert_one new_id record).
Proof. by intros u w. Qed.

Lemma stable_draw : catalog_stable draw.
Proof. by intros w. Qed.

Lemma blind_draw : removal_blind draw.
Proof. by intros u w. Qed.

#[local] Hint Resolve stable_on_files blind_on_files stable_read_bytes
  blind_read_bytes stable_write_bytes blind_write_bytes stable_exists
  blind_exists stable_logger_warning stable_os_remove blind_insert_one
  stable_draw blind_draw : frame.

Lemma stable_getsize path : catalog_stable (getsize path).
Proof. unfold getsize. auto with frame. Qed.

Lemma blind_getsize path : removal_blind (getsize path).
Proof. unfold getsize. auto with frame. Qed.

#[local] Hint Resolve stable_getsize blind_getsize : frame.

Section FrameRedactors.
Context {HL : Hashlib} {F : Fitz} {FIO : FitzIO} {DIO : DocxIO} {SO : SetOrder}.

Lemma stable_pdf_apply req : catalog_stable (pdf_apply_redactions req).
Proof.
  unfold pdf_apply_redactions. apply stable_bind; [auto with frame|].
  intros src. destruct (fitz_open src); [|auto with frame].
  destruct (PDFRedactor.redact_document _ _). auto 8 with frame.
Qed.

Lemma blind_pdf_apply req : removal_blind (pdf_apply_redactions req).
Proof.
  unfold pdf_apply_redactions. apply blind_bind; [auto with frame|].
  intros src. destruct (fitz_open src); [|auto with frame].
  destruct (PDFRedactor.redact_document _ _). auto 8 with frame.
Qed.

Lemma stable_docx_apply req : catalog_stable (docx_apply_redactions req).
Proof.
  unfold docx_apply_redactions. apply stable_bind; [auto with frame|].
  intros src. destruct (docx_open src); [|auto with frame].
  destruct (DOCXRedactor.redact_document _ _).
  destruct (DOCXRedactor.scrubbed _ _); auto 8 with frame.
Qed.

Lemma blind_docx_apply req : removal_blind (docx_apply_redactions req).
Proof.
  unfold docx_apply_redactions. apply blind_bind; [auto with frame|].
  intros src. destruct (docx_open src); [|auto with frame].
  destruct (DOCXRedactor.redact_document _ _).
  destruct (DOCXRedactor.scrubbed _ _); auto 8 with frame.
Qed.

Lemma stable_apply_redactions r : catalog_stable (apply_redactions r).
Proof. destruct r; [apply stable_pdf_apply | apply stable_docx_apply]. Qed.

Lemma blind_apply_redactions r : removal_blind (apply_redactions r).
Proof. destruct r; [apply blind_pdf_apply | apply blind_docx_apply]. Qed.

End FrameRedactors.

#[local] Hint Resolve stable_apply_redactions blind_apply_redactions : frame.

(** ** The endpoint, step by step *)

Section EndpointFacts.
Context {HL : Hashlib} {F : Fitz} {FIO : FitzIO} {DIO : DocxIO} {SO : SetOrder}
        {C : Collaborators}.

Lemma build_regions_pure (raws : list raw_region) (w w' : world)
    (r : outcome (list RedactionRegion.t)) :
  _build_regions raws w = (r, w') → w' = w.
Proof.
  revert r w'. induction raws as [|raw raws IH]; intros r w'; simpl.
  - by intros [= _ <-].
  - destruct (build_region raw) as [region| |]; [|by intros [= _ <-]..].
    intros Hrun. apply bind_inv in Hrun
      as [(regions & w1 & Hstep & Hret) | [(? & ? & Hstep & _) | (? & Hstep & _)]].
    + apply IH in Hstep as ->. by injection Hret as _ <-.
    + by apply IH in Hstep.
    + by apply IH in Hstep.
Qed.

Lemma create_redactor_pure (rr : RedactionRequest.t) (w w' : world)
    (r : outcome redactor) :
  _create_redactor rr w = (r, w') → w' = w.
Proof.
  unfold _create_redactor. repeat case_match; by intros [= _ <-].
Qed.

Lemma create_redactor_ok (rr : RedactionRequest.t) (w w' : world) (red : redactor) :
  _create_redactor rr w = (Ok red, w') → red = PDFRedactor_ rr ∨ red = DOCXRedactor_ rr.
Proof.
  unfold _create_redactor. repeat case_match; intros [= <-]; auto.
Qed.

Lemma stable_build_regions raws : catalog_stable (_build_regions raws).
Proof.
  intros w. destruct (_build_regions raws w) as [r w'] eqn:Hrun.
  by apply build_regions_pure in Hrun as ->.
Qed.

Lemma blind_build_regions raws : removal_blind (_build_regions raws).
Proof.
  induction raws as [|raw raws IH]; simpl; [auto with frame|].
  destruct (build_region raw); auto with frame.
Qed.

Lemma stable_create_redactor rr : catalog_stable (_create_redactor rr).
Proof. unfold _create_redactor. repeat case_match; auto with frame. Qed.

Lemma blind_create_redactor rr : removal_blind (_create_redactor rr).
Proof. unfold _create_redactor. repeat case_match; auto with frame. Qed.

Lemma stable_try_add_file path : catalog_stable (try_add_file path).
Proof. by intros w. Qed.

Lemma blind_try_add_file path : removal_blind (try_add_file path).
Proof. by intros u w. Qed.

Lemma stable_try_anchor_file hash size cid :
  catalog_stable (try_anchor_file hash size cid).
Proof. by intros w. Qed.

Lemma blind_try_anchor_file hash size cid :
  removal_blind (try_anchor_file hash size cid).
Proof. by intros u w. Qed.

Hint Resolve stable_build_regions blind_build_regions stable_create_redactor
  blind_create_redactor stable_try_add_file blind_try_add_file
  stable_try_anchor_file blind_try_anchor_file : frame.

(** The [try] block does not depend on which removals would fail. *)
Lemma blind_redact_body req env passphrase rec canonical_id :
  removal_blind (redact_body req env passphrase rec canonical_id).
Proof.
  unfold redact_body.
  repeat (apply blind_bind; [solve [auto with frame] | intros ?]).
  apply blind_ret.
Qed.

(** One step of a run: the step ends normally and the run goes on, or the
    run ends with the step, which left the catalog alone. *)
Ltac catalog_step Hrun :=
  let Hs := fresh "Hstep" in
  apply bind_inv in Hrun
    as [(? & ? & Hs & Hrun) | [(? & ? & Hs & ->) | (? & Hs & ->)]];
  (apply stable_run in Hs; [|solve [auto with frame]]);
  [ | congruence ..].

(** The only step of the [try] block that writes to the catalog is the
    final insert: a block that does not end normally leaves the catalog as
    it was, one that does has appended the new record. *)
Lemma redact_body_catalog req env passphrase rec canonical_id w r w1 :
  redact_body req env passphrase rec canonical_id w = (r, w1) →
  match r with
  | Ok resp =>
      ∃ record,
        catalog w1 = catalog w ++ [(Response.file_id resp, record)]
        ∧ FileRecord.sha256 record = Some (Response.hash resp)
        ∧ FileRecord.parent_file_id record = Some canonical_id
  | _ => catalog w1 = catalog w
  end.
Proof.
  unfold redact_body. intros Hrun.
  repeat catalog_step Hrun.
  apply bind_inv in Hrun
    as [(i & w2 & Hins & Hret) | [(? & ? & Hins & _) | (? & Hins & _)]];
    [|by unfold insert_one in Hins..].
  unfold insert_one in Hins. injection Hins as <- <-.
  injection Hret as <- <-. simpl.
  eexists. split.
  - apply (f_equal2 app); [congruence | reflexivity].
  - split; reflexivity.
Qed.

End EndpointFacts.

(** ** The digest of the saved file *)

Section Digest.
Context {HL : Hashlib} {F : Fitz} {FIO : FitzIO} {DIO : DocxIO} {SO : SetOrder}.

Lemma docx_apply_ok (req : RedactionRequest.t) (w : world) (res : RedactionResult.t) :
  (docx_apply_redactions req w).1 = Ok res →
  ∃ src doc saved,
    fs w !! RedactionRequest.source_path req = Some src
    ∧ docx_open src = Some doc
    ∧ DOCXRedactor.scrubbed req (DOCXRedactor.redact_document req doc).1 = Some saved
    ∧ res = DOCXRedactor.result req
              (sha256_hexdigest (docx_save (entropy w) saved))
              (DOCXRedactor.redact_document req doc).2
    ∧ (docx_apply_redactions req w).2
      = with_fs (<[RedactionRequest.output_path req := docx_save (entropy w) saved]>
                   (fs w)) (draw w).2.
Proof.
  unfold docx_apply_redactions, mbind, M_bind, bind, read_bytes, write_bytes, draw,
    raise, mret, M_ret, ret.
  destruct (fs w !! RedactionRequest.source_path req) as [src|] eqn:Hsrc; [|done].
  destruct (docx_open src) as [doc|] eqn:Hopen; [|done].
  destruct (DOCXRedactor.redact_document req doc) as [doc1 terms] eqn:Hred.
  destruct (DOCXRedactor.scrubbed req doc1) as [saved|] eqn:Hscrub; [|done].
  simpl. rewrite lookup_insert_eq. simpl.
  intros [= <-]. exists src, doc, saved. by rewrite Hred.
Qed.

(** Whichever redactor ran, it saved the redacted document at the output
    path and its result carries the digest of these bytes. *)
Lemma apply_redactions_digest (rr : RedactionRequest.t) (red : redactor)
    (w w' : world) (res : RedactionResult.t) :
  red = PDFRedactor_ rr ∨ red = DOCXRedactor_ rr →
  apply_redactions red w = (Ok res, w') →
  ∃ saved,
    saved_by red w saved
    ∧ fs w' !! RedactionRequest.output_path rr = Some saved
    ∧ RedactionResult.sha256 res = sha256_hexdigest saved.
Proof.
  intros [-> | ->] Hrun; simpl in Hrun.
  - assert ((pdf_apply_redactions rr w).1 = Ok res) as Hok by by rewrite Hrun.
    apply pdf_apply_ok in Hok as (src & doc & Hsrc & Hopen & -> & Hw).
    rewrite Hrun in Hw. simpl in Hw. subst w'.
    eexists. split_and!; [by exists src, doc | apply lookup_insert_eq | done].
  - assert ((docx_apply_redactions rr w).1 = Ok res) as Hok by by rewrite Hrun.
    apply docx_apply_ok in Hok as (src & doc & doc' & Hsrc & Hopen & Hscrub & -> & Hw).
    rewrite Hrun in Hw. simpl in Hw. subst w'.
    eexists. split_and!; [by exists src, doc, doc' | apply lookup_insert_eq | done].
Qed.

End Digest.

(** ** The endpoint as a whole *)

Section EndpointWhole.
Context {HL : Hashlib} {F : Fitz} {FIO : FitzIO} {DIO : DocxIO} {SO : SetOrder}
        {C : Collaborators}.

(** A [try] block that ends normally went through decryption, region
    normalisation, dispatch and the redactor, in this order, and answers
    with the redactor's digest. *)
Lemma redact_body_ok req env passphrase rec canonical_id w resp w1 :
  redact_body req env passphrase rec canonical_id w = (Ok resp, w1) →
  ∃ regions red result w_red,
    let w_dec :=
      (on_files (crypto_decrypt
                   (path_join ensure_storage_dir (FileRecord.enc_filename rec))
                   (tmp_plain env rec) passphrase (FileRecord.aad rec)) w).2 in
    _create_redactor (redaction_request req env rec canonical_id regions) w_dec
    = (Ok red, w_dec)
    ∧ apply_redactions red w_dec = (Ok result, w_red)
    ∧ Response.hash resp = RedactionResult.sha256 result.
Proof.
  unfold redact_body. intros Hrun.
  apply bind_ok in Hrun as ([] & w_dec & Hdec & Hrun).
  apply bind_ok in Hrun as (regions & wa & Hregions & Hrun).
  apply build_regions_pure in Hregions as ->.
  apply bind_ok in Hrun as (red & wb & Hcreate & Hrun).
  pose proof (create_redactor_pure _ _ _ _ Hcreate) as ->.
  apply bind_ok in Hrun as (result & w_red & Happly & Hrun).
  exists regions, red, result, w_red. rewrite Hdec. simpl.
  split_and!; [done..|].
  repeat (apply bind_ok in Hrun as (? & ? & _ & Hrun)).
  by injection Hrun as <- _.
Qed.

(** The [finally] block on one path: it always ends normally, touches
    nothing but that file and the log, and leaves the file absent unless its
    removal failed, in which case the warning is in the log. *)
Lemma cleanup_path_spec (path : string) (w : world) :
  ∃ w',
    cleanup_path path w = (Ok (), w')
    ∧ catalog w' = catalog w
    ∧ undeletable w' = undeletable w
    ∧ (fs w' !! path = None
       ∨ (path ∈ undeletable w ∧ cleanup_warning path ∈ log w'))
    ∧ (∀ q, fs w !! q = None → fs w' !! q = None)
    ∧ (∀ line, line ∈ log w → line ∈ log w').
Proof.
  unfold cleanup_path, except_OSError, mbind, M_bind, bind, exists_, os_remove,
    logger_warning, mret, M_ret, ret.
  destruct (fs w !! path) as [b|] eqn:Hpath.
  - rewrite bool_decide_eq_true_2 by eauto. rewrite Hpath.
    destruct (decide (path ∈ undeletable w)) as [Hin | Hout].
    + eexists. split; [reflexivity|]. simpl. split_and!; try done.
      * right. split; [done|]. apply elem_of_app. right. by apply list_elem_of_singleton.
      * intros line Hline. apply elem_of_app. by left.
    + eexists. split; [reflexivity|]. simpl. split_and!; try done.
      * left. apply lookup_delete_eq.
      * intros q Hq. by rewrite lookup_delete_None; right.
  - rewrite bool_decide_eq_false_2 by (intros [? ?]; congruence).
    eexists. split; [reflexivity|]. split_and!; auto.
Qed.

Lemma cleanup_spec (env : Env) (rec : FileRecord.t) (w : world) :
  ∃ w',
    cleanup env rec w = (Ok (), w')
    ∧ catalog w' = catalog w
    ∧ ∀ path, path ∈ [tmp_plain env rec; tmp_redacted env rec] →
              fs w' !! path = None
              ∨ (path ∈ undeletable w ∧ cleanup_warning path ∈ log w').
Proof.
  unfold cleanup, mbind, M_bind, bind.
  destruct (cleanup_path_spec (tmp_plain env rec) w)
    as (w1 & -> & Hcat1 & Hun1 & Hplain & Hfs1 & Hlog1).
  destruct (cleanup_path_spec (tmp_redacted env rec) w1)
    as (w2 & -> & Hcat2 & Hun2 & Hredacted & Hfs2 & Hlog2).
  exists w2. split_and!; [done | congruence |].
  intros path Hpath. rewrite !elem_of_cons, elem_of_nil in Hpath.
  destruct Hpath as [-> | [-> | []]].
  - destruct Hplain as [Habsent | [Hin Hlogged]]; [left; auto | right; auto].
  - rewrite Hun1 in Hredacted. exact Hredacted.
Qed.

(** [try: ... finally: cleanup]: the block's way of ending is the call's. *)
Lemma try_finally_cleanup {A} (body : M A) (env : Env) (rec : FileRecord.t)
    (w : world) :
  ∃ w',
    try_finally body (cleanup env rec) w = ((body w).1, w')
    ∧ cleanup env rec (body w).2 = (Ok (), w').
Proof.
  unfold try_finally. destruct (body w) as [r w1]. simpl.
  destruct (cleanup_spec env rec w1) as (w' & Hclean & _).
  exists w'. by rewrite Hclean.
Qed.

Lemma missing_false (value : option string) :
  missing value = false → ∃ s, value = Some s ∧ s ≠ "".
Proof.
  destruct value as [s|]; simpl; [|done].
  intros Hs. exists s. split; [done|]. apply truthy_nonempty.
  by destruct (truthy s).
Qed.

(** Either the request is turned away before anything is staged, and the
    world is as it was, or it is admitted and the call is the [try] block
    followed by the [finally] block. *)
Lemma redact_file_cases (req : Request) (env : Env) (w : world) :
  ((redact_file req env w).2 = w ∧ ∀ resp, (redact_file req env w).1 ≠ Ok resp)
  ∨ ∃ rec canonical_id passphrase,
      admitted req w rec canonical_id passphrase
      ∧ redact_file req env w
        = try_finally (redact_body req env passphrase rec canonical_id)
                      (cleanup env rec) w.
Proof.
  assert (∀ status description,
            ((@Abort Response.t status description, w).2 = w
             ∧ ∀ resp, (@Abort Response.t status description, w).1 ≠ Ok resp))
    as Hrejected by (by intros; split).
  unfold redact_file.
  destruct (missing (Payload.file_id (data req))) eqn:Hid; [left; apply Hrejected|].
  destruct (missing (Payload.passphrase (data req))) eqn:Hpass;
    [left; apply Hrejected|].
  apply missing_false in Hid as (file_id & Hid & Hid_ne).
  apply missing_false in Hpass as (passphrase & Hpass & Hpass_ne).
  rewrite Hid, Hpass. simpl.
  unfold mbind, M_bind, bind, lookup_file, exists_. cbv beta.
  destruct (_lookup_file (catalog w) file_id) as [[rec canonical_id] | |] eqn:Hlookup;
    [|left; by split..].
  case_bool_decide as Howner; [left; apply Hrejected|].
  case_bool_decide as Hblob; simpl; [|left; apply Hrejected].
  right. exists rec, canonical_id, passphrase. split; [|done].
  exists file_id. split_and!; done.
Qed.

End EndpointWhole.

(** ** The endpoint: catalog, digest, temporary files, ownership *)

Section EndpointClaims.
Context {HL : Hashlib} {F : Fitz} {FIO : FitzIO} {DIO : DocxIO} {SO : SetOrder}
        {C : Collaborators}.

(** The catalog after a call, from the catalog before it and the way the
    call ends. *)
Lemma redact_file_catalog (req : Request) (env : Env) (w : world) :
  match (redact_file req env w).1 with
  | Ok resp =>
      ∃ rec canonical_id passphrase record,
        admitted req w rec canonical_id passphrase
        ∧ catalog (redact_file req env w).2
          = catalog w ++ [(Response.file_id resp, record)]
        ∧ FileRecord.sha256 record = Some (Response.hash resp)
        ∧ FileRecord.parent_file_id record = Some canonical_id
  | _ => catalog (redact_file req env w).2 = catalog w
  end.
Proof.
  destruct (redact_file_cases req env w)
    as [[Hw Hfail] | (rec & canonical_id & passphrase & Hadm & Hrun)].
  - destruct (redact_file req env w).1 as [resp| |] eqn:Hr;
      [by destruct (Hfail resp) | by rewrite Hw..].
  - destruct (try_finally_cleanup (redact_body req env passphrase rec canonical_id)
                env rec w) as (w' & Htry & Hclean).
    rewrite Hrun, Htry. simpl.
    destruct (cleanup_spec env rec
                (redact_body req env passphrase rec canonical_id w).2)
      as (w'' & Hclean' & Hcat & _).
    rewrite Hclean in Hclean'. injection Hclean' as <-.
    destruct (redact_body req env passphrase rec canonical_id w) as [r w1] eqn:Hbody.
    pose proof (redact_body_catalog _ _ _ _ _ _ _ _ Hbody) as Hins.
    simpl in *. destruct r as [resp| |]; [|congruence..].
    destruct Hins as (record & Hrecord & Hsha & Hparent).
    exists rec, canonical_id, passphrase, record.
    split_and!; [done | congruence | done..].
Qed.

(** C1.  A call that does not end normally, whichever step failed, leaves
    the catalog as it was; a call that ends normally has appended exactly one
    record, the successor of the parent. *)
Theorem failed_redaction_inserts_no_record (req : Request) (env : Env) (w : world) :
  ((∀ resp, (redact_file req env w).1 ≠ Ok resp) →
   catalog (redact_file req env w).2 = catalog w)
  ∧ (∀ resp, (redact_file req env w).1 = Ok resp →
       ∃ canonical_id record,
         catalog (redact_file req env w).2
         = catalog w ++ [(Response.file_id resp, record)]
         ∧ FileRecord.parent_file_id record = Some canonical_id).
Proof.
  pose proof (redact_file_catalog req env w) as Hcat. split.
  - intros Hfail.
    destruct (redact_file req env w).1 as [resp| |]; [by destruct (Hfail resp) | done..].
  - intros resp Hok. rewrite Hok in Hcat.
    destruct Hcat as (rec & canonical_id & passphrase & record & _ & Hrecord & _ & Hparent).
    by exists canonical_id, record.
Qed.

(** C2.  When the call ends normally, the redactor chosen for the request
    opened the decrypted plaintext and saved the redacted document at the
    redacted temporary path; the hash of the response and of the persisted
    record is the digest of the bytes of that save, computed by the redactor
    before the re-encryption step runs; nothing after it changes the
    value. *)
Theorem content_hash_is_digest_of_redacted_plaintext
    (req : Request) (env : Env) (w : world) (resp : Response.t) :
  (redact_file req env w).1 = Ok resp →
  ∃ rec canonical_id passphrase regions red result w_red saved record,
    admitted req w rec canonical_id passphrase
    ∧ (let w_dec :=
         (on_files (crypto_decrypt
                      (path_join ensure_storage_dir (FileRecord.enc_filename rec))
                      (tmp_plain env rec) passphrase (FileRecord.aad rec)) w).2 in
       _create_redactor (redaction_request req env rec canonical_id regions) w_dec
       = (Ok red, w_dec)
       ∧ (red = PDFRedactor_ (redaction_request req env rec canonical_id regions)
          ∨ red = DOCXRedactor_ (redaction_request req env rec canonical_id regions))
       ∧ apply_redactions red w_dec = (Ok result, w_red)
       ∧ saved_by red w_dec saved)
    ∧ fs w_red !! tmp_redacted env rec = Some saved
    ∧ RedactionResult.sha256 result = sha256_hexdigest saved
    ∧ Response.hash resp = sha256_hexdigest saved
    ∧ catalog (redact_file req env w).2
      = catalog w ++ [(Response.file_id resp, record)]
    ∧ FileRecord.sha256 record = Some (sha256_hexdigest saved).
Proof.
  intros Hok. pose proof (redact_file_catalog req env w) as Hcat.
  rewrite Hok in Hcat.
  destruct Hcat as (rec0 & canonical0 & pass0 & record & _ & Hrecord & Hsha & _).
  destruct (redact_file_cases req env w)
    as [[_ Hfail] | (rec & canonical_id & passphrase & Hadm & Hrun)];
    [by destruct (Hfail resp)|].
  destruct (try_finally_cleanup (redact_body req env passphrase rec canonical_id)
              env rec w) as (w' & Htry & _).
  rewrite Hrun, Htry in Hok. simpl in Hok.
  destruct (redact_body req env passphrase rec canonical_id w) as [r w1] eqn:Hbody.
  simpl in Hok. subst r.
  apply redact_body_ok in Hbody as (regions & red & result & w_red & Hcreate & Happly & Hhash).
  pose proof (create_redactor_ok _ _ _ _ Hcreate) as Hred.
  destruct (apply_redactions_digest _ _ _ _ _ Hred Happly)
    as (saved & Hsave & Hsaved & Hdigest).
  exists rec, canonical_id, passphrase, regions, red, result, w_red, saved, record.
  cbv zeta. split_and!; first [done | congruence | exact Hsave].
Qed.

(** C5.  A call turned away before anything is staged leaves the world as
    it was.  Every other call, however its [try] block ends, goes through the
    [finally] block: afterwards each of the two temporary paths is absent,
    unless its removal failed, and then the warning for it is in the log.
    The way the call ends is never affected: it is the same whatever the
    set of paths whose removal fails. *)
Theorem temp_files_removed_on_every_exit (req : Request) (env : Env) (w : world) :
  (((redact_file req env w).2 = w ∧ ∀ resp, (redact_file req env w).1 ≠ Ok resp)
   ∨ ∃ rec canonical_id passphrase,
       admitted req w rec canonical_id passphrase
       ∧ (redact_file req env w).1
         = (redact_body req env passphrase rec canonical_id w).1
       ∧ ∀ path, path ∈ [tmp_plain env rec; tmp_redacted env rec] →
                 fs (redact_file req env w).2 !! path = None
                 ∨ (path ∈ undeletable w
                    ∧ cleanup_warning path ∈ log (redact_file req env w).2))
  ∧ ∀ u, (redact_file req env (with_undeletable u w)).1 = (redact_file req env w).1.
Proof.
  split.
  - destruct (redact_file_cases req env w)
      as [Hrejected | (rec & canonical_id & passphrase & Hadm & Hrun)]; [by left|].
    right. exists rec, canonical_id, passphrase. split; [done|].
    destruct (try_finally_cleanup (redact_body req env passphrase rec canonical_id)
                env rec w) as (w' & Htry & Hclean).
    rewrite Hrun, Htry. simpl. split; [done|].
    destruct (cleanup_spec env rec
                (redact_body req env passphrase rec canonical_id w).2)
      as (w'' & Hclean' & _ & Hpaths).
    rewrite Hclean in Hclean'. injection Hclean' as <-.
    pose proof (blind_redact_body req env passphrase rec canonical_id
                  (undeletable w) w) as Hblind.
    assert (with_undeletable (undeletable w) w = w) as Hw by by destruct w.
    rewrite Hw in Hblind.
    assert (undeletable (redact_body req env passphrase rec canonical_id w).2
            = undeletable w) as Hun by by rewrite Hblind at 1.
    intros path Hpath. specialize (Hpaths path Hpath). by rewrite Hun in Hpaths.
  - intros u. unfold redact_file.
    destruct (missing (Payload.file_id (data req))); [done|].
    destruct (missing (Payload.passphrase (data req))); [done|].
    unfold mbind, M_bind, bind, lookup_file, exists_. cbv beta. simpl.
    destruct (_lookup_file (catalog w) _) as [[rec canonical_id] | |]; [|done..].
    case_bool_decide; [done|].
    change (fs (with_undeletable u w)) with (fs w).
    case_bool_decide; [|done]. simpl.
    set (body := redact_body req env _ rec canonical_id).
    destruct (try_finally_cleanup body env rec w) as (w1 & -> & _).
    destruct (try_finally_cleanup body env rec (with_undeletable u w)) as (w2 & -> & _).
    simpl. unfold body. by rewrite blind_redact_body.
Qed.

(** C6 (as the code has it).  A request that carries a file id and a
    passphrase, whose parent record is found and is owned by somebody other
    than the requester, is answered 403, and the world is untouched: nothing
    is decrypted, redacted or re-encrypted and no record is created. *)
Theorem non_owner_is_forbidden (req : Request) (env : Env) (w : world)
    (file_id passphrase : string) (rec : FileRecord.t) (canonical_id : string) :
  Payload.file_id (data req) = Some file_id → file_id ≠ "" →
  Payload.passphrase (data req) = Some passphrase → passphrase ≠ "" →
  _lookup_file (catalog w) file_id = Ok (rec, canonical_id) →
  FileRecord.owner rec ≠ Some (lower (address req)) →
  redact_file req env w = (Abort 403 "only file owner may request redaction", w).
Proof.
  intros Hid Hid_ne Hpass Hpass_ne Hlookup Howner. unfold redact_file.
  rewrite Hid, Hpass. simpl.
  apply truthy_nonempty in Hid_ne, Hpass_ne. rewrite Hid_ne, Hpass_ne. simpl.
  unfold mbind, M_bind, bind, lookup_file. rewrite Hlookup.
  by rewrite bool_decide_eq_true_2.
Qed.

End EndpointClaims.

(** ** The names of the temporary files *)

Lemma append_inv_head (s a b : string) : (s ++ a = s ++ b)%string → a = b.
Proof. induction s as [|c s IH]; simpl; [done|]. intros [= Heq]. auto. Qed.

Lemma digits_no_underscore (d : Decimal.uint) :
  contains_char "_" (NilEmpty.string_of_uint d) = false.
Proof. induction d; simpl; auto. Qed.

Lemma str_of_int_no_underscore (n : Z) : contains_char "_" (str_of_int n) = false.
Proof.
  unfold str_of_int, NilZero.string_of_int, NilZero.string_of_uint.
  destruct (Z.to_int n) as [d | d]; destruct d; simpl;
    auto using digits_no_underscore.
Qed.

Lemma str_of_int_inj (a b : Z) : str_of_int a = str_of_int b → a = b.
Proof.
  assert (∀ n, NilZero.int_of_string (str_of_int n) = Some (Z.to_int n)) as Hparse.
  { intros n. apply NilZero.isi; destruct n; simpl; try discriminate;
      intros [= Hnil]; by apply Unsigned.to_uint_nonnil in Hnil. }
  intros Heq. apply DecimalZ.to_int_inj.
  pose proof (Hparse a) as Ha. rewrite Heq, Hparse in Ha. congruence.
Qed.

(** Two strings cut at the first occurrence of a separator are equal only
    when both parts are. *)
Lemma split_at_char (c : ascii) (s1 s2 n1 n2 : string) :
  contains_char c s1 = false → contains_char c s2 = false →
  (s1 ++ String c n1 = s2 ++ String c n2)%string → s1 = s2 ∧ n1 = n2.
Proof.
  revert s2. induction s1 as [|a s1 IH]; intros [|b s2]; simpl.
  - by intros _ _ [= ->].
  - intros _ Hb [= -> _]. by rewrite Ascii.eqb_refl in Hb.
  - intros Ha _ [= -> _]. by rewrite Ascii.eqb_refl in Ha.
  - intros Ha Hb [= -> Hrest].
    apply orb_false_elim in Ha as [_ Ha]. apply orb_false_elim in Hb as [_ Hb].
    destruct (IH s2 Ha Hb Hrest) as [-> ->]. done.
Qed.

Lemma stamped_name_inj (prefix : string) (t1 t2 : Z) (n1 n2 : string) :
  (prefix ++ str_of_int t1 ++ "_" ++ n1 = prefix ++ str_of_int t2 ++ "_" ++ n2)%string
  ↔ t1 = t2 ∧ n1 = n2.
Proof.
  split; [|by intros [-> ->]].
  intros Heq. apply append_inv_head in Heq.
  apply split_at_char in Heq as [Ht ->]; auto using str_of_int_no_underscore.
  split; [|done]. by apply str_of_int_inj.
Qed.

(** ** Strings *)

Lemma contains_char_app (c : ascii) (a b : string) :
  contains_char c (a ++ b) = contains_char c a || contains_char c b.
Proof.
  induction a as [|x a IH]; simpl; [done|]. by rewrite IH, orb_assoc.
Qed.

Lemma digits_without (c : ascii) (d : Decimal.uint) :
  contains_char c "0123456789" = false →
  contains_char c (NilEmpty.string_of_uint d) = false.
Proof.
  intros Hc. simpl in Hc.
  repeat (apply orb_false_elim in Hc as [? Hc]).
  induction d as [|d IH|d IH|d IH|d IH|d IH|d IH|d IH|d IH|d IH|d IH];
    cbn [NilEmpty.string_of_uint contains_char]; [done|..];
    rewrite IH, orb_false_r; assumption.
Qed.

Lemma str_of_int_without (c : ascii) (n : Z) :
  contains_char c "-0123456789" = false → contains_char c (str_of_int n) = false.
Proof.
  intros Hc. simpl in Hc. apply orb_false_elim in Hc as [Hminus Hc].
  pose proof (digits_without c) as Hdigits.
  unfold str_of_int, NilZero.string_of_int, NilZero.string_of_uint.
  destruct (Z.to_int n) as [d | d]; destruct d; simpl; rewrite ?Hminus; simpl;
    try (apply (Hdigits (Decimal.D0 Decimal.Nil) Hc));
    first [ apply (Hdigits (Decimal.D0 _) Hc) | apply (Hdigits (Decimal.D1 _) Hc)
          | apply (Hdigits (Decimal.D2 _) Hc) | apply (Hdigits (Decimal.D3 _) Hc)
          | apply (Hdigits (Decimal.D4 _) Hc) | apply (Hdigits (Decimal.D5 _) Hc)
          | apply (Hdigits (Decimal.D6 _) Hc) | apply (Hdigits (Decimal.D7 _) Hc)
          | apply (Hdigits (Decimal.D8 _) Hc) | apply (Hdigits (Decimal.D9 _) Hc) ].
Qed.

Lemma rfind_None (c : ascii) (s : string) :
  rfind c s = None ↔ contains_char c s = false.
Proof.
  induction s as [|a s IH]; simpl; [done|].
  destruct (rfind c s) as [i|].
  - split; [done|]. intros Hno. apply orb_false_elim in Hno as [_ Hno].
    by apply IH in Hno.
  - destruct IH as [IH _]. rewrite IH by done. rewrite orb_false_r.
    by destruct (Ascii.eqb a c).
Qed.

Lemma rfind_app (c : ascii) (a b : string) (i : nat) :
  rfind c b = Some i → rfind c (a ++ b) = Some (String.length a + i)%nat.
Proof.
  intros Hb. induction a as [|x a IH]; simpl; [done|]. by rewrite IH.
Qed.

Lemma rfind_head (c : ascii) (s : string) :
  contains_char c s = false → rfind c (String c s) = Some 0%nat.
Proof.
  intros Hno. apply rfind_None in Hno. simpl. rewrite Hno.
  by rewrite Ascii.eqb_refl.
Qed.

Lemma string_length_app (a b : string) :
  String.length (a ++ b) = (String.length a + String.length b)%nat.
Proof. induction a as [|x a IH]; simpl; [done|]. by rewrite IH. Qed.

Lemma substring_all (b : string) : substring 0 (String.length b) b = b.
Proof. induction b as [|y b IH]; simpl; [done|]. by rewrite IH. Qed.

Lemma substring_after (a b : string) (x : ascii) :
  substring (S (String.length a)) (String.length b) (a ++ String x b) = b.
Proof. induction a as [|y a IH]; simpl; [apply substring_all | done]. Qed.

Lemma append_assoc_str (a b c : string) : ((a ++ b) ++ c = a ++ b ++ c)%string.
Proof.
  induction a as [|x a IH]; [done|].
  change (String x ((a ++ b) ++ c) = String x (a ++ b ++ c))%string.
  by rewrite IH.
Qed.

Lemma append_nil_r (a : string) : (a ++ "")%string = a.
Proof.
  induction a as [|x a IH]; [done|].
  change (String x (a ++ "") = String x a). by rewrite IH.
Qed.

(** ** Paths *)

Lemma split_slash_cons (s : string) : ∃ p ps, split_slash s = p :: ps.
Proof.
  induction s as [|c s (p & ps & IH)]; simpl; [by eexists _, _|].
  destruct (Ascii.eqb c "/"); [by eexists _, _|]. rewrite IH. by eexists _, _.
Qed.

(** Splitting after a prefix without separator. *)
Lemma split_slash_app (a b p : string) (ps : list string) :
  contains_char "/" a = false → split_slash b = p :: ps →
  split_slash (a ++ b) = (a ++ p)%string :: ps.
Proof.
  intros Ha Hb. induction a as [|c a IH]; [done|].
  simpl in Ha. apply orb_false_elim in Ha as [Hc Ha].
  change (split_slash (String c (a ++ b)) = String c (a ++ p) :: ps).
  cbn [split_slash]. by rewrite Hc, (IH Ha).
Qed.

Lemma split_slash_free (s : string) :
  Forall (λ p, contains_char "/" p = false) (split_slash s).
Proof.
  induction s as [|c s IH]; simpl; [by repeat constructor|].
  destruct (Ascii.eqb c "/") eqn:Hc; [by constructor|].
  destruct (split_slash s) as [|p ps]; [by repeat constructor; simpl; rewrite Hc|].
  apply Forall_cons in IH as [Hp Hps]. constructor; [|done].
  simpl. by rewrite Hc.
Qed.

Lemma path_parts_clean (s : string) : Forall clean (path_parts s).
Proof.
  unfold path_parts. apply Forall_forall. intros p [[Hne _] Hin]%list_elem_of_filter.
  split; [done|]. pose proof (split_slash_free s) as Hfree.
  rewrite Forall_forall in Hfree. auto.
Qed.

Lemma concat_cons (sep x y : string) (l : list string) :
  String.concat sep (x :: y :: l) = (x ++ sep ++ String.concat sep (y :: l))%string.
Proof. done. Qed.

(** Joining clean components with the separator loses nothing. *)
Lemma concat_slash_inj (l1 l2 : list string) :
  Forall clean l1 → Forall clean l2 →
  String.concat "/" l1 = String.concat "/" l2 → l1 = l2.
Proof.
  intros H1. revert l2. induction H1 as [|x xs [Hx Hxfree] Hxs IH]; intros l2 H2.
  - destruct H2 as [|y ys [Hy _] _]; [done|]. 
    destruct ys; [simpl; congruence|]. rewrite concat_cons.
    destruct y; [done|]. done.
  - destruct H2 as [|y ys [Hy Hyfree] Hys].
    + destruct xs; [simpl; congruence|]. rewrite concat_cons. destruct x; done.
    + destruct xs as [|x' xs], ys as [|y' ys]; rewrite ?concat_cons.
      * simpl. by intros ->.
      * simpl (String.concat _ [x]). intros ->.
        rewrite contains_char_app in Hxfree. simpl in Hxfree.
        by rewrite orb_true_r in Hxfree.
      * simpl (String.concat _ [y]). intros <-.
        rewrite contains_char_app in Hyfree. simpl in Hyfree.
        by rewrite orb_true_r in Hyfree.
      * intros Heq. change ("/" ++ ?s)%string with (String "/" s) in Heq.
        apply split_at_char in Heq as [-> Heq]; [|done..].
        f_equal. by apply IH.
Qed.

Lemma format_path_cons (root p : string) (ps : list string) :
  format_path root (p :: ps) = (root ++ String.concat "/" (p :: ps))%string.
Proof. unfold format_path. by destruct root. Qed.

(** Joining a relative name that does keep a component. *)
Lemma path_join_relative (dir name p : string) (ps : list string) :
  path_root name = "" → path_parts name = p :: ps →
  path_join dir name
  = (path_root dir ++ String.concat "/" (path_parts dir ++ p :: ps))%string.
Proof.
  intros Hroot Hparts. unfold path_join. rewrite Hroot, Hparts. simpl.
  destruct (path_parts dir ++ p :: ps) as [|q qs] eqn:Hall.
  - by destruct (path_parts dir).
  - apply format_path_cons.
Qed.

Lemma path_join_relative_inj (dir n1 n2 p1 p2 : string) (ps1 ps2 : list string) :
  path_root n1 = "" → path_root n2 = "" →
  path_parts n1 = p1 :: ps1 → path_parts n2 = p2 :: ps2 →
  path_join dir n1 = path_join dir n2 → p1 = p2 ∧ ps1 = ps2.
Proof.
  intros Hr1 Hr2 Hp1 Hp2.
  rewrite (path_join_relative _ _ _ _ Hr1 Hp1), (path_join_relative _ _ _ _ Hr2 Hp2).
  intros Heq%append_inv_head.
  apply concat_slash_inj in Heq.
  - apply app_inv_head in Heq. by injection Heq.
  - apply Forall_app. split; [apply path_parts_clean|].
    rewrite <- Hp1. apply path_parts_clean.
  - apply Forall_app. split; [apply path_parts_clean|].
    rewrite <- Hp2. apply path_parts_clean.
Qed.

(** The components of a stamped name: the stamp stays with the first
    component of the name. *)
Lemma stamped_parts (prefix : string) (t : Z) (name : string) :
  contains_char "/" prefix = false →
  ∃ p ps,
    split_slash name = p :: ps
    ∧ path_parts (prefix ++ str_of_int t ++ "_" ++ name)
      = (prefix ++ str_of_int t ++ "_" ++ p)%string
        :: filter (fun p => p ≠ "" ∧ p ≠ ".") ps.
Proof.
  intros Hprefix. destruct (split_slash_cons name) as (p & ps & Hname).
  exists p, ps. split; [done|]. unfold path_parts.
  rewrite (split_slash_app prefix _ (str_of_int t ++ "_" ++ p) ps Hprefix).
  - rewrite filter_cons_True; [done|].
    assert (contains_char "_" (prefix ++ str_of_int t ++ "_" ++ p) = true) as Hin.
    { rewrite !contains_char_app. simpl. by rewrite !orb_true_r. }
    split; intros Heq; rewrite Heq in Hin; done.
  - apply split_slash_app; [by apply str_of_int_without|].
    by apply (split_slash_app "_").
Qed.

Lemma split_slash_single (s : string) :
  contains_char "/" s = false → split_slash s = [s].
Proof.
  intros Hs. rewrite <- (append_nil_r s) at 1.
  rewrite (split_slash_app s "" "" []) by done. by rewrite append_nil_r.
Qed.

Lemma path_root_relative (s : string) :
  contains_char "/" s = false → path_root s = "".
Proof.
  destruct s as [|c s]; [done|]. cbn [contains_char].
  intros [Hc _]%orb_false_elim. unfold path_root.
  destruct c as [[] [] [] [] [] [] [] []]; try done.
Qed.

Lemma path_root_cases (s : string) :
  path_root s = "" ∨ path_root s = "/" ∨ path_root s = "//".
Proof. unfold path_root. repeat case_match; auto. Qed.

Lemma concat_snoc (sep x y : string) (l : list string) :
  String.concat sep ((x :: l) ++ [y])
  = (String.concat sep (x :: l) ++ sep ++ y)%string.
Proof.
  revert x. induction l as [|z l IH]; intros x; [done|].
  change ((x :: z :: l) ++ [y]) with (x :: ((z :: l) ++ [y])).
  cbn [app]. rewrite !concat_cons.
  change (z :: l ++ [y]) with ((z :: l) ++ [y]). rewrite IH.
  by rewrite !append_assoc_str.
Qed.

(** A name that is a single component comes last in [dir / name], after a
    separator if anything comes before it. *)
Lemma path_join_last (dir name : string) :
  clean name → name ≠ "." →
  ∃ before,
    path_join dir name = (before ++ name)%string
    ∧ (before = "" ∨ ∃ head, before = (head ++ "/")%string).
Proof.
  intros [Hne Hfree] Hdot.
  assert (path_parts name = [name]) as Hparts.
  { unfold path_parts. rewrite split_slash_single by done.
    by rewrite filter_cons_True, filter_nil. }
  rewrite (path_join_relative dir name name []) by auto using path_root_relative.
  destruct (path_parts dir) as [|q qs] eqn:Hdir.
  - exists (path_root dir). split; [done|].
    destruct (path_root_cases dir) as [-> | [-> | ->]];
      [by left | right; by exists "" | right; by exists "/"].
  - exists (path_root dir ++ String.concat "/" (q :: qs) ++ "/")%string. split.
    + rewrite concat_snoc. by rewrite !append_assoc_str.
    + right. eexists. by rewrite append_assoc_str.
Qed.

Lemma path_name_last (before name : string) :
  contains_char "/" name = false →
  before = "" ∨ (∃ head, before = (head ++ "/")%string) →
  path_name (before ++ name) = name.
Proof.
  intros Hfree [-> | [head ->]]; unfold path_name.
  - change ("" ++ name)%string with name.
    apply rfind_None in Hfree. by rewrite Hfree.
  - rewrite append_assoc_str.
    change (head ++ "/" ++ name)%string with (head ++ String "/" name)%string.
    rewrite (rfind_app _ _ _ 0%nat) by by apply rfind_head.
    rewrite Nat.add_0_r, string_length_app. cbn [String.length].
    replace (String.length head + S (String.length name) - S (String.length head))%nat
      with (String.length name) by lia.
    apply substring_after.
Qed.

(** The final component of [dir / name] is [name] when [name] is a single
    component. *)
Lemma path_name_join (dir name : string) :
  clean name → name ≠ "." → path_name (path_join dir name) = name.
Proof.
  intros Hclean Hdot.
  destruct (path_join_last dir name Hclean Hdot) as (before & -> & Hbefore).
  apply path_name_last; [apply Hclean | done].
Qed.

Lemma suffix_join (dir name : string) :
  clean name → name ≠ "." → suffix (path_join dir name) = suffix name.
Proof.
  intros Hclean Hdot. unfold suffix. rewrite path_name_join by done.
  assert (path_name name = name) as ->; [|done].
  unfold path_name. destruct Hclean as [_ Hno].
  apply rfind_None in Hno. by rewrite Hno.
Qed.

(** Two stamped names joined to the same directory give the same path only
    when the stamps are the same and the names start with the same
    component. *)
Lemma stamped_path_inj (dir prefix : string) (t1 t2 : Z) (n1 n2 : string) :
  contains_char "/" prefix = false → prefix ≠ "" →
  path_join dir (prefix ++ str_of_int t1 ++ "_" ++ n1)
  = path_join dir (prefix ++ str_of_int t2 ++ "_" ++ n2) →
  t1 = t2 ∧ hd "" (split_slash n1) = hd "" (split_slash n2).
Proof.
  intros Hfree Hne Heq.
  destruct (stamped_parts prefix t1 n1 Hfree) as (p1 & ps1 & Hn1 & Hparts1).
  destruct (stamped_parts prefix t2 n2 Hfree) as (p2 & ps2 & Hn2 & Hparts2).
  assert (∀ s, path_root (prefix ++ s) = "") as Hroot.
  { intros s. destruct prefix as [|c prefix]; [done|].
    cbn [contains_char] in Hfree. apply orb_false_elim in Hfree as [Hc _].
    change (String c prefix ++ s)%string with (String c (prefix ++ s)).
    unfold path_root. destruct c as [[] [] [] [] [] [] [] []]; try done. }
  pose proof (path_join_relative_inj dir _ _ _ _ _ _ (Hroot _) (Hroot _)
                Hparts1 Hparts2 Heq) as [Hhead _].
  apply stamped_name_inj in Hhead as [Ht Hp]. by rewrite Hn1, Hn2.
Qed.

Section TempNames.
Context {C : Collaborators}.

(** C9 (as the code has it).  The staged paths are made of the storage
    directory, the millisecond read from the clock and the parent's original
    name, and of nothing else.  Two requests stage at the same path only
    when they read the same millisecond; two requests for parents of the
    same original name, so also for the same parent, stage at the same path
    exactly when they read the same millisecond. *)
Theorem tmp_paths_equal_only_in_same_ms (env1 env2 : Env)
    (rec1 rec2 : FileRecord.t) :
  (tmp_plain env1 rec1 = tmp_plain env2 rec2 →
   time_ms_plain env1 = time_ms_plain env2)
  ∧ (tmp_redacted env1 rec1 = tmp_redacted env2 rec2 →
     time_ms_redacted env1 = time_ms_redacted env2)
  ∧ (FileRecord.original_name rec1 = FileRecord.original_name rec2 →
     (tmp_plain env1 rec1 = tmp_plain env2 rec2
      ↔ time_ms_plain env1 = time_ms_plain env2)
     ∧ (tmp_redacted env1 rec1 = tmp_redacted env2 rec2
        ↔ time_ms_redacted env1 = time_ms_redacted env2)).
Proof.
  unfold tmp_plain, tmp_redacted, tmp_plain_name, tmp_redacted_name.
  assert (∀ prefix t1 t2,
            contains_char "/" prefix = false → prefix ≠ "" →
            path_join ensure_storage_dir
              (prefix ++ str_of_int t1 ++ "_" ++ FileRecord.original_name rec1)
            = path_join ensure_storage_dir
                (prefix ++ str_of_int t2 ++ "_" ++ FileRecord.original_name rec2) →
            t1 = t2) as Hinj.
  { intros prefix t1 t2 Hfree Hne Heq.
    by apply stamped_path_inj in Heq as [Ht _]. }
  split_and!.
  - intros Heq. by apply Hinj in Heq.
  - intros Heq. by apply Hinj in Heq.
  - intros Hname. split; (split; [intros Heq; by apply Hinj in Heq|]).
    + intros Hms. by rewrite Hms, Hname.
    + intros Hms. by rewrite Hms, Hname.
Qed.

End TempNames.

(** ** The endpoint: runs on the demo deployment *)

Section EndpointRuns.
Import Demo.

(** A wrong passphrase makes decryption fail and the catalog keeps its one
    record; the owner's request appends the successor. *)
Lemma failed_redaction_inserts_no_record_run :
  (redact_file wrong_passphrase_request env (world_of "a.pdf")).1 = Raise Exception
  ∧ catalog (redact_file wrong_passphrase_request env (world_of "a.pdf")).2
    = catalog (world_of "a.pdf")
  ∧ ∃ resp canonical_id record,
      (redact_file alice_request env (world_of "a.pdf")).1 = Ok resp
      ∧ catalog (redact_file alice_request env (world_of "a.pdf")).2
        = catalog (world_of "a.pdf") ++ [(Response.file_id resp, record)]
      ∧ FileRecord.parent_file_id record = Some canonical_id.
Proof.
  assert ((redact_file wrong_passphrase_request env (world_of "a.pdf")).1
          = Raise Exception) as Hfail by by_running.
  split; [exact Hfail|]. split.
  - apply (proj1 (failed_redaction_inserts_no_record
                    wrong_passphrase_request env (world_of "a.pdf"))).
    intros resp. rewrite Hfail. discriminate.
  - eexists.
    edestruct (proj2 (failed_redaction_inserts_no_record
                        alice_request env (world_of "a.pdf")))
      as (canonical_id & record & Hcat & Hparent); [by_running|].
    exists canonical_id, record. split_and!; [by_running | exact Hcat | exact Hparent].
Defined.

Lemma content_hash_is_digest_of_redacted_plaintext_run :
  ∃ resp,
    (redact_file alice_request env (world_of "a.pdf")).1 = Ok resp
    ∧ Response.hash resp
      = sha256_hexdigest (fitz_save 0 [mkPage fitz (py_mul block 16) []]).
Proof.
  eexists.
  edestruct (content_hash_is_digest_of_redacted_plaintext
               alice_request env (world_of "a.pdf"))
    as (rec & canonical_id & passphrase & regions & red & result & w_red & saved
        & record & _ & _ & _ & _ & Hhash & _); [by_running|].
  split; by_running.
Defined.

(** With a staged plaintext that cannot be removed the response is the
    same, the file stays and the warning is logged. *)
Lemma cleanup_failure_is_logged_run :
  (redact_file alice_request env locked_world).1
  = (redact_file alice_request env (world_of "a.pdf")).1
  ∧ log (redact_file alice_request env locked_world).2
    = [cleanup_warning (tmp_plain env (parent "a.pdf"))]
  ∧ is_Some (fs (redact_file alice_request env locked_world).2
               !! tmp_plain env (parent "a.pdf"))
  ∧ fs (redact_file alice_request env locked_world).2
      !! tmp_redacted env (parent "a.pdf") = None
  ∧ fs (redact_file wrong_passphrase_request env (world_of "a.pdf")).2
    = fs (world_of "a.pdf").
Proof.
  split_and!; [by_running | by_running | | by_running | by_running].
  eexists. by_running.
Qed.

Lemma non_owner_is_forbidden_run :
  FileRecord.owner (parent "a.pdf") ≠ Some (lower (address bob_request))
  ∧ redact_file bob_request env (world_of "a.pdf")
    = (Abort 403 "only file owner may request redaction", world_of "a.pdf").
Proof.
  assert (FileRecord.owner (parent "a.pdf") ≠ Some (lower (address bob_request)))
    as Howner by (vm_compute; discriminate).
  split; [exact Howner|].
  apply (non_owner_is_forbidden bob_request env (world_of "a.pdf")
           "f1" "hunter2" (parent "a.pdf") "f1");
    [reflexivity | discriminate | reflexivity | discriminate | reflexivity
    | exact Howner].
Defined.

(** C6 (as stated) fails: somebody who is not the owner and sends no
    passphrase is answered 400, not 403. *)
Lemma non_owner_without_passphrase_gets_400 :
  _lookup_file (catalog (world_of "a.pdf")) "f1" = Ok (parent "a.pdf", "f1")
  ∧ FileRecord.owner (parent "a.pdf")
    ≠ Some (lower (address bob_request_without_passphrase))
  ∧ redact_file bob_request_without_passphrase env (world_of "a.pdf")
    = (Abort 400 "passphrase required for redaction", world_of "a.pdf")
  ∧ http_status (redact_file bob_request_without_passphrase env (world_of "a.pdf")).1
    ≠ 403.
Proof.
  split_and!; [reflexivity | vm_compute; discriminate | reflexivity
              | vm_compute; discriminate].
Qed.

(** C9 (as stated) fails: two different requests for the same parent,
    served within the same millisecond, stage their plaintexts at the same
    paths. *)
Lemma same_ms_requests_share_temp_paths :
  (alice_request, env) ≠ (wrong_passphrase_request, env_same_ms)
  ∧ tmp_plain env (parent "a.pdf") = tmp_plain env_same_ms (parent "a.pdf")
  ∧ tmp_redacted env (parent "a.pdf") = tmp_redacted env_same_ms (parent "a.pdf").
Proof. split_and!; [discriminate | reflexivity | reflexivity]. Qed.

End EndpointRuns.

(** * Further properties of the redaction code *)

(** ** The PDF redactor: the document it saves *)

Section PdfOutput.
Context {F : Fitz}.
Import PDFRedactor.

Lemma page_eq (p q : Page) : body p = body q → annots p = annots q → p = q.
Proof. destruct p, q; simpl; by intros -> ->. Qed.

Lemma marks_append (found : list Rect) (p : Page) :
  annots (foldl (fun q rect => add_redact_annot rect q) p found) = annots p ++ found.
Proof.
  revert p. induction found as [|rect found IH]; intros p; simpl.
  - by rewrite app_nil_r.
  - rewrite IH. simpl. by rewrite <- app_assoc.
Qed.

Lemma search_terms_page (matched : list string) (p : Page) (r : list string) :
  annots (foldl (fun s term => search_term term s) (p, r) matched).1
  = annots p ++ found_rects matched (body p).
Proof.
  unfold found_rects. revert p r.
  induction matched as [|term matched IH]; intros p r; cbn [foldl].
  - simpl. by rewrite app_nil_r.
  - pose proof (search_term_body term p r) as Hbody.
    destruct (search_term term (p, r)) as [p1 r1] eqn:Hstep. simpl in Hbody.
    rewrite IH, Hbody. rewrite filter_cons.
    unfold search_term in Hstep. destruct (truthy term) eqn:Hterm; simpl in Hstep.
    + rewrite decide_True by done. simpl.
      assert (annots p1 = annots p ++ search_for (body p) term) as ->.
      { destruct (search_for (body p) term) eqn:Hfound.
        - injection Hstep as <- _. simpl. by rewrite app_nil_r.
        - injection Hstep as <- _. apply (marks_append (_ :: _)). }
      by rewrite app_assoc.
    + rewrite decide_False by done. by injection Hstep as <- _.
Qed.

Lemma insert_as_alter {A} (f : A → A) (l : list A) (i : nat) :
  match l !! i with
  | Some a => <[i := f a]> l
  | None => l
  end = alter f i l.
Proof.
  revert i. induction l as [|a l IH]; intros [|i]; try done.
  specialize (IH i). cbn. change (list_alter f i l) with (alter f i l).
  rewrite <- IH. by destruct (l !! i).
Qed.

Lemma search_page_doc (matched : list string) (i : nat) (d : Document)
    (r : list string) :
  (search_page matched i (d, r)).1 = alter (searched_page matched) i d.
Proof.
  rewrite <- insert_as_alter. unfold search_page.
  destruct (d !! i) as [p|] eqn:Hp; [|done].
  pose proof (search_terms_page matched p r) as Hannots.
  destruct (search_terms_spec matched p r) as [Hbody _].
  destruct (foldl _ (p, r) matched) as [p1 r1]. simpl in *.
  f_equal. by apply page_eq.
Qed.

(** Visiting every index of a list once, in any order, maps the list. *)
Lemma alter_each {A} (f : A → A) (idxs : list nat) (l : list A) (j : nat) :
  NoDup idxs →
  foldl (fun d i => alter f i d) l idxs !! j
  = if decide (j ∈ idxs) then f <$> l !! j else l !! j.
Proof.
  revert l. induction idxs as [|i idxs IH]; intros l Hnodup; cbn [foldl].
  - by rewrite decide_False by apply not_elem_of_nil.
  - apply NoDup_cons in Hnodup as [Hi Hnodup]. rewrite IH by done.
    destruct (decide (j ∈ idxs)) as [Hj | Hj].
    + rewrite decide_True by (apply elem_of_cons; auto).
      rewrite list_lookup_alter_ne by (intros ->; done). done.
    + destruct (decide (j = i)) as [-> | Hne].
      * rewrite decide_True by (apply elem_of_cons; auto).
        by rewrite list_lookup_alter_eq.
      * rewrite decide_False by (rewrite elem_of_cons; tauto).
        by rewrite list_lookup_alter_ne.
Qed.

Lemma alter_all {A} (f : A → A) (l : list A) :
  foldl (fun d i => alter f i d) l (seq 0 (length l)) = f <$> l.
Proof.
  apply list_eq. intros j. rewrite alter_each by apply NoDup_seq.
  rewrite list_lookup_fmap. case_decide as Hj; [done|].
  rewrite lookup_ge_None_2; [done|].
  rewrite elem_of_seq in Hj. lia.
Qed.

Lemma search_pass_doc (matched : list string) (doc : Document) :
  (search_pass matched doc).1 = searched_page matched <$> doc.
Proof.
  unfold search_pass. rewrite <- alter_all.
  generalize (seq 0 (length doc)) as idxs. generalize (@nil string) as r.
  intros r idxs. revert doc r.
  induction idxs as [|i idxs IH]; intros doc r; cbn [foldl]; [done|].
  pose proof (search_page_doc matched i doc r) as Hstep.
  destruct (search_page matched i (doc, r)) as [d1 r1]. simpl in Hstep. subst d1.
  apply IH.
Qed.

Lemma apply_pass_doc (doc : Document) : apply_pass doc = apply_page <$> doc.
Proof.
  unfold apply_pass. rewrite <- alter_all.
  generalize (seq 0 (length doc)) as idxs. intros idxs. revert doc.
  induction idxs as [|i idxs IH]; intros doc; cbn [foldl]; [done|].
  rewrite insert_as_alter. apply IH.
Qed.

Lemma region_pass_lookup (regions : list RedactionRegion.t) (doc : Document)
    (i : nat) :
  region_pass regions doc !! i
  = (fun p => {| body := body p;
                 annots := annots p ++ region_rects doc regions i |}) <$> doc !! i.
Proof.
  unfold region_pass, region_rects. revert doc.
  induction regions as [|region regions IH]; intros doc; simpl.
  - destruct (doc !! i) as [p|]; simpl; [|done].
    f_equal. apply page_eq; simpl; [done | by rewrite app_nil_r].
  - rewrite IH.
    rewrite (list_filter_iff
               (fun r => out_of_bounds (mark_region doc region) r = false
                         ∧ Z.to_nat (RedactionRegion.page r) = i)
               (fun r => out_of_bounds doc r = false
                         ∧ Z.to_nat (RedactionRegion.page r) = i)).
    2:{ intros r. by rewrite (out_of_bounds_length _ doc) by apply mark_region_length. }
    rewrite filter_cons. unfold mark_region.
    destruct (out_of_bounds doc region) eqn:Hb.
    + rewrite decide_False by (intros [? _]; done). done.
    + rewrite insert_as_alter.
      destruct (decide (Z.to_nat (RedactionRegion.page region) = i)) as [<- | Hne].
      * rewrite decide_True by done. rewrite list_lookup_alter_eq.
        destruct (doc !! _) as [p|]; simpl; [|done].
        f_equal. apply page_eq; simpl; [done|]. by rewrite <- app_assoc.
      * rewrite decide_False by (intros [_ ?]; done).
        by rewrite list_lookup_alter_ne.
Qed.

(** The document handed to [doc.save]: it has the pages of the opened
    document, each with its own earlier marks, the rectangles found for the
    matched texts and the rectangles of its in-bounds regions burnt in, and
    with no mark left pending. *)
Lemma redact_document_pages (req : RedactionRequest.t) (doc : Document) :
  (redact_document req doc).1 = imap (redacted_page req doc) doc.
Proof.
  unfold redact_document.
  pose proof (search_pass_doc (RedactionRequest.matched_texts req) doc) as Hsearch.
  destruct (search_pass (RedactionRequest.matched_texts req) doc) as [d1 r1].
  simpl in *. subst d1. rewrite apply_pass_doc.
  apply list_eq. intros i.
  rewrite list_lookup_fmap, region_pass_lookup, !list_lookup_fmap, list_lookup_imap.
  destruct (doc !! i) as [p|]; simpl; [|done].
  f_equal. unfold apply_page, redacted_page. simpl. f_equal.
  rewrite <- app_assoc. do 2 f_equal. unfold region_rects.
  apply (f_equal (app _)), (f_equal (map region_rect)), list_filter_iff. intros r.
  by rewrite (out_of_bounds_length _ doc) by by rewrite length_fmap.
Qed.

End PdfOutput.

Section PdfSave.
Context {HL : Hashlib} {F : Fitz} {FIO : FitzIO}.

(** X1.  A successful run of the PDF redactor writes one file, the output:
    the serialisation of the opened document in which every page has its
    earlier marks, the rectangles found for the non-empty matched texts and
    the rectangles of its in-bounds regions burnt in, with no mark left
    pending and the page count unchanged.  Every other file, the source
    included, is as before. *)
Theorem pdf_saves_redacted_pages
    (req : RedactionRequest.t) (w : world) (res : RedactionResult.t) :
  (pdf_apply_redactions req w).1 = Ok res →
  ∃ src doc,
    fs w !! RedactionRequest.source_path req = Some src
    ∧ fitz_open src = Some doc
    ∧ fs (pdf_apply_redactions req w).2 !! RedactionRequest.output_path req
      = Some (fitz_save (entropy w) (imap (redacted_page req doc) doc))
    ∧ length (imap (redacted_page req doc) doc) = length doc
    ∧ ∀ path, path ≠ RedactionRequest.output_path req →
              fs (pdf_apply_redactions req w).2 !! path = fs w !! path.
Proof.
  intros Hrun. apply pdf_apply_ok in Hrun as (src & doc & Hsrc & Hopen & _ & ->).
  exists src, doc. rewrite redact_document_pages. simpl.
  split_and!; [done | done | apply lookup_insert_eq | apply length_imap |].
  intros path Hpath. by apply lookup_insert_ne.
Qed.

End PdfSave.

(** ** Both redactors: the list of removed terms *)

#[local] Instance str_le_total : Total str_le.
Proof. intros a b. apply String.leb_total. Qed.

Section RemovedTerms.
Context {HL : Hashlib} {F : Fitz} {FIO : FitzIO} {DIO : DocxIO} {SO : SetOrder}.

Lemma sorted_set_spec (l : list string) :
  Sorted str_le (sorted (py_set l)) ∧ NoDup (sorted (py_set l)).
Proof.
  unfold sorted, py_set. split.
  - apply Sorted_merge_sort. apply _.
  - rewrite merge_sort_Permutation. apply NoDup_remove_dups.
Qed.

(** X2.  Whichever redactor ran, the removed terms of its result are in
    ascending order and without duplicates. *)
Theorem removed_terms_sorted_without_duplicates
    (red : redactor) (w : world) (res : RedactionResult.t) :
  (apply_redactions red w).1 = Ok res →
  Sorted str_le (RedactionResult.removed_terms res)
  ∧ NoDup (RedactionResult.removed_terms res).
Proof.
  destruct red as [req | req]; simpl; intros Hrun.
  - apply pdf_apply_ok in Hrun as (src & doc & _ & _ & -> & _). simpl.
    apply sorted_set_spec.
  - apply docx_apply_ok in Hrun as (src & doc & saved & _ & _ & _ & -> & _). simpl.
    unfold DOCXRedactor.redact_document.
    destruct (DOCXRedactor.term_set req) as [|t terms] eqn:Hterms; simpl.
    + split; constructor.
    + unfold DOCXRedactor.term_set in Hterms. rewrite <- Hterms.
      apply sorted_set_spec.
Qed.

End RemovedTerms.

(** ** The DOCX redactor: what substitution keeps *)

Lemma py_len_app (a b : string) : py_len (a ++ b) = (py_len a + py_len b)%nat.
Proof.
  induction a as [|c a IH]; simpl; [done|].
  destruct (is_continuation c); simpl; lia.
Qed.

Lemma py_len_block_fill (n : nat) : py_len (py_mul block n) = n.
Proof.
  induction n as [|n IH]; simpl; [done|].
  change (py_len (block ++ py_mul block n) = S n).
  rewrite py_len_app, IH. reflexivity.
Qed.

Lemma prefix_split (old text : string) :
  String.prefix old text = true →
  substring 0 (String.length old) text = old.
Proof. apply String.prefix_correct. Qed.

(** Replacing occurrences of [old] by a string with as many characters
    keeps the number of characters; [skip] characters of the text belong to
    an occurrence already replaced. *)
Lemma replace_from_len (old new : string) (skip : nat) (text : string) :
  py_len new = py_len old → old ≠ "" →
  (py_len (replace_from old new skip text) + py_len (substring 0 skip text))%nat
  = py_len text.
Proof.
  intros Hnew Hold. revert skip.
  induction text as [|c text IH]; intros skip.
  - by destruct skip.
  - destruct skip as [|skip]; cbn [replace_from].
    + destruct old as [|c0 old]; [done|].
      destruct (String.prefix (String c0 old) (String c text)) eqn:Hprefix.
      * apply prefix_split in Hprefix. simpl in Hprefix.
        injection Hprefix as <- Hprefix.
        rewrite py_len_app, Hnew. specialize (IH (String.length old)).
        cbn [String.length]. rewrite Nat.sub_succ, Nat.sub_0_r.
        rewrite Hprefix in IH. simpl.
        destruct (is_continuation c); lia.
      * simpl. specialize (IH 0%nat).
        assert (substring 0 0 text = "") as Hnil by by destruct text.
        rewrite Hnil in IH. simpl in IH.
        destruct (is_continuation c); lia.
    + specialize (IH skip). simpl. destruct (is_continuation c); lia.
Qed.

Lemma intersperse_empty (text : string) : intersperse "" text = text.
Proof. induction text as [|c text IH]; simpl; [done|]. by rewrite IH. Qed.

Section DocxKeeps.
Context {SO : SetOrder}.
Import DOCXRedactor.

Lemma redact_term_len (text term : string) :
  py_len (redact_term text term) = py_len text.
Proof.
  unfold redact_term. destruct (py_in term text); [|done].
  unfold py_replace. destruct term as [|c term].
  - simpl. by rewrite intersperse_empty.
  - pose proof (replace_from_len (String c term)
                  (py_mul block (py_len (String c term))) 0 text) as Hlen.
    rewrite py_len_block_fill in Hlen.
    assert (substring 0 0 text = "") as Hnil by by destruct text.
    rewrite Hnil in Hlen. specialize (Hlen eq_refl ltac:(done)).
    simpl py_len at 3 in Hlen. lia.
Qed.

Lemma redact_text_len (terms : list string) (text : string) :
  py_len (redact_text terms text) = py_len text.
Proof.
  unfold redact_text. generalize (set_iter terms) as order. intros order.
  revert text. induction order as [|term order IH]; intros text; simpl; [done|].
  by rewrite IH, redact_term_len.
Qed.

(** X3.  Substitution keeps the shape of a document: the redacted document
    has the paragraphs, tables, rows and cells of the opened one, and every
    paragraph and every cell keeps its number of characters, whatever the
    terms and the order in which the term set is visited. *)
Theorem docx_redaction_keeps_lengths (req : RedactionRequest.t) (doc : DocxDocument) :
  map py_len (paragraphs (redact_document req doc).1) = map py_len (paragraphs doc)
  ∧ map (map (map py_len)) (tables (redact_document req doc).1)
    = map (map (map py_len)) (tables doc).
Proof.
  unfold redact_document.
  destruct (term_set req) as [|t terms]; simpl; [done|].
  split.
  - rewrite map_map. apply map_ext. intros. apply redact_text_len.
  - rewrite map_map. apply map_ext. intros table.
    rewrite map_map. apply map_ext. intros row.
    rewrite map_map. apply map_ext. intros. apply redact_text_len.
Qed.

End DocxKeeps.

Section DocxSave.
Context {HL : Hashlib} {DIO : DocxIO} {SO : SetOrder}.

Lemma strip_metadata_spec (requested_by : string) (core : CoreProperties) :
  DOCXRedactor._strip_metadata requested_by core
  = if Nat.ltb 255 (py_len requested_by) then None
    else Some (mkCore (Some "None") (Some "None") (Some "None") (Some requested_by)
                      1 (Some "None") (Some "None")).
Proof.
  unfold DOCXRedactor._strip_metadata, DOCXRedactor.set_text. simpl.
  by destruct (Nat.ltb 255 (py_len requested_by)).
Qed.

(** X4.  The DOCX redactor and the core properties.  python-docx stores the
    text of whatever is assigned, so after a successful run the saved
    document carries the text [None] as author, comments, keywords, subject
    and title, whatever they were before; its revision is 1 and its last
    modifier is the requester, who then has at most 255 characters.  The
    paragraphs and tables saved are those the substitution loops left, and
    only the output file is written.  With a requester of more than 255
    characters the run of a source that opens raises, and nothing is
    written. *)
Theorem docx_saves_scrubbed_metadata (req : RedactionRequest.t) (w : world) :
  (∀ res,
     (docx_apply_redactions req w).1 = Ok res →
     (py_len (RedactionRequest.requested_by req) ≤ 255)%nat
     ∧ ∃ src doc saved,
         fs w !! RedactionRequest.source_path req = Some src
         ∧ docx_open src = Some doc
         ∧ fs (docx_apply_redactions req w).2 !! RedactionRequest.output_path req
           = Some (docx_save (entropy w) saved)
         ∧ core_properties saved
           = mkCore (Some "None") (Some "None") (Some "None")
                    (Some (RedactionRequest.requested_by req)) 1
                    (Some "None") (Some "None")
         ∧ paragraphs saved = paragraphs (DOCXRedactor.redact_document req doc).1
         ∧ tables saved = tables (DOCXRedactor.redact_document req doc).1
         ∧ ∀ path, path ≠ RedactionRequest.output_path req →
                   fs (docx_apply_redactions req w).2 !! path = fs w !! path)
  ∧ (∀ src doc,
       fs w !! RedactionRequest.source_path req = Some src →
       docx_open src = Some doc →
       (255 < py_len (RedactionRequest.requested_by req))%nat →
       docx_apply_redactions req w = (Raise Exception, w)).
Proof.
  split.
  - intros res Hrun.
    apply docx_apply_ok in Hrun as (src & doc & saved & Hsrc & Hopen & Hscrub & _ & ->).
    unfold DOCXRedactor.scrubbed in Hscrub. rewrite strip_metadata_spec in Hscrub.
    destruct (Nat.ltb 255 (py_len (RedactionRequest.requested_by req))) eqn:Hlen;
      [done|].
    apply Nat.ltb_ge in Hlen. split; [done|].
    injection Hscrub as <-. exists src, doc. eexists. simpl.
    split_and!; [done | done | apply lookup_insert_eq | done | done | done |].
    intros path Hpath. by apply lookup_insert_ne.
  - intros src doc Hsrc Hopen Hlen. apply Nat.ltb_lt in Hlen.
    unfold docx_apply_redactions, mbind, M_bind, bind, read_bytes.
    rewrite Hsrc, Hopen.
    destruct (DOCXRedactor.redact_document req doc) as [doc1 terms].
    unfold DOCXRedactor.scrubbed. by rewrite strip_metadata_spec, Hlen.
Qed.

End DocxSave.

(** ** The endpoint: normalising the request *)

Section Normalise.
Context {HL : Hashlib} {F : Fitz} {FIO : FitzIO} {DIO : DocxIO} {SO : SetOrder}
        {C : Collaborators}.

Lemma build_region_Converted (raw : raw_region) (r : RedactionRegion.t) :
  build_region raw = Converted r
  ↔ raw_page raw = Converted (RedactionRegion.page r)
    ∧ raw_x raw = Converted (RedactionRegion.x r)
    ∧ raw_y raw = Converted (RedactionRegion.y r)
    ∧ raw_w raw = Converted (RedactionRegion.w r)
    ∧ raw_h raw = Converted (RedactionRegion.h r).
Proof.
  unfold build_region.
  destruct raw as [[p| |] [x| |] [y| |] [w| |] [h| |]], r; simpl;
    split; try (intros (? & ? & ? & ? & ?)); try intros ?; simplify_eq; done.
Qed.

(** X5.  Region normalisation accepts a region list as a whole or not at
    all, and the first entry that does not convert decides how it ends:
    either every entry converts, and the regions come out one per entry, in
    order, with the converted values; or the first entry that does not
    convert fails with an exception the loop catches, and the outcome is
    400; or it fails with [OverflowError], which the loop does not catch,
    and the call ends with that exception (status 500).  The entries after
    it play no part, and the world is not touched in any case. *)
Theorem build_regions_all_or_nothing (raws : list raw_region) (w : world) :
  (∃ regions,
     _build_regions raws w = (Ok regions, w)
     ∧ Forall2 (fun raw r =>
                  raw_page raw = Converted (RedactionRegion.page r)
                  ∧ raw_x raw = Converted (RedactionRegion.x r)
                  ∧ raw_y raw = Converted (RedactionRegion.y r)
                  ∧ raw_w raw = Converted (RedactionRegion.w r)
                  ∧ raw_h raw = Converted (RedactionRegion.h r)) raws regions)
  ∨ (∃ before raw after,
       raws = before ++ raw :: after
       ∧ Forall (fun raw => ∃ r, build_region raw = Converted r) before
       ∧ ((build_region raw = Refused
           ∧ _build_regions raws w
             = (Abort 400 "invalid redaction region data", w))
          ∨ (build_region raw = OverflowError
             ∧ _build_regions raws w = (Raise Exception, w)))).
Proof.
  induction raws as [|raw raws IH]; simpl.
  - left. exists []. split; [done | constructor].
  - destruct (build_region raw) as [r| |] eqn:Hraw.
    + unfold mbind, M_bind, bind.
      destruct IH as [(regions & -> & Hall)
                     | (before & raw' & after & -> & Hbefore & Hend)].
      * left. exists (r :: regions). split; [done|].
        constructor; [by apply build_region_Converted | done].
      * right. exists (raw :: before), raw', after.
        split_and!; [done | constructor; by eauto |].
        destruct Hend as [[Hfail ->] | [Hfail ->]]; [by left | by right].
    + right. exists [], raw, raws. split_and!; [done | constructor | by left].
    + right. exists [], raw, raws. split_and!; [done | constructor | by right].
Qed.

(** X6.  The matched texts handed to the redactor are the distinct non-empty
    matched texts of the payload: no duplicate, no empty string, nothing
    added and nothing else dropped, in whatever order the set lists them. *)
Theorem endpoint_matched_texts_normalised (req : Request) (env : Env)
    (rec : FileRecord.t) (canonical_id : string) (regions : list RedactionRegion.t) :
  NoDup (RedactionRequest.matched_texts
           (redaction_request req env rec canonical_id regions))
  ∧ ∀ t, t ∈ RedactionRequest.matched_texts
               (redaction_request req env rec canonical_id regions)
         ↔ t ∈ Payload.matched_texts (data req) ∧ t ≠ "".
Proof.
  simpl. split.
  - rewrite set_iter_perm. apply NoDup_remove_dups.
  - intros t.
    rewrite set_iter_perm, elem_of_py_set, list_elem_of_filter, truthy_nonempty.
    tauto.
Qed.

End Normalise.

(** ** The endpoint: choosing the redactor *)

Lemma substring_tail (a b : string) :
  substring (String.length a) (String.length b) (a ++ b) = b.
Proof. induction a as [|x a IH]; simpl; [apply substring_all | done]. Qed.

(** The suffix of a name that ends in a dot and a dot-free extension, after
    a non-empty head: the dot and the extension. *)
Lemma suffix_of_name (head ext : string) :
  head ≠ "" → ext ≠ "" → contains_char "." ext = false →
  contains_char "/" (head ++ String "." ext) = false →
  suffix (head ++ String "." ext) = String "." ext.
Proof.
  intros Hhead Hext Hdot Hslash. unfold suffix.
  assert (path_name (head ++ String "." ext) = (head ++ String "." ext)%string) as ->.
  { unfold path_name. apply rfind_None in Hslash. by rewrite Hslash. }
  rewrite (rfind_app _ _ _ 0%nat) by by apply rfind_head.
  rewrite Nat.add_0_r, string_length_app. cbn [String.length].
  destruct head as [|h head]; [done|]. destruct ext as [|e ext]; [done|].
  cbn [String.length].
  rewrite (proj2 (Nat.ltb_lt _ _)) by lia.
  rewrite (proj2 (Nat.ltb_lt _ _)) by lia. cbn [andb].
  replace (S (String.length head) + S (S (String.length ext)) - S (String.length head))%nat
    with (String.length (String "." (String e ext))) by (simpl; lia).
  apply (substring_tail (String h head)).
Qed.

Lemma suffix_without_dot (name : string) :
  contains_char "." name = false → contains_char "/" name = false →
  suffix name = "".
Proof.
  intros Hdot Hslash. unfold suffix, path_name.
  apply rfind_None in Hslash. rewrite Hslash.
  apply rfind_None in Hdot. by rewrite Hdot.
Qed.

Section Dispatch.
Context {HL : Hashlib} {F : Fitz} {FIO : FitzIO} {DIO : DocxIO} {SO : SetOrder}
        {C : Collaborators}.

Lemma tmp_plain_name_no_slash (env : Env) (rec : FileRecord.t) :
  contains_char "/" (FileRecord.original_name rec) = false →
  contains_char "/" (tmp_plain_name env rec) = false.
Proof.
  intros Hname. unfold tmp_plain_name.
  rewrite !contains_char_app, Hname, str_of_int_without by done. done.
Qed.

(** The staged name is a single component when the original name has no
    separator, and its suffix is that of the staged path. *)
Lemma tmp_plain_suffix (env : Env) (rec : FileRecord.t) :
  contains_char "/" (FileRecord.original_name rec) = false →
  suffix (tmp_plain env rec) = suffix (tmp_plain_name env rec).
Proof.
  intros Hname. apply suffix_join.
  - split; [|by apply tmp_plain_name_no_slash]. unfold tmp_plain_name.
    change ("dec_" ++ ?s)%string with (String "d" ("ec_" ++ s)). done.
  - unfold tmp_plain_name.
    change ("dec_" ++ ?s)%string with (String "d" ("ec_" ++ s)). done.
Qed.

(** X7.  The redactor is chosen by the extension of the parent's original
    name alone, compared without regard to case: for a name without
    separator that ends in a dot and a non-empty dot-free extension, [pdf]
    gives the PDF redactor, [docx] the DOCX redactor and anything else 415,
    whatever the storage directory, the clock and the rest of the request.
    The name [.pdf] is a PDF too: the staged name has a prefix before the
    dot. *)
Theorem redactor_chosen_by_extension (req : Request) (env : Env)
    (rec : FileRecord.t) (canonical_id : string)
    (regions : list RedactionRegion.t) (w : world) (stem ext : string) :
  FileRecord.original_name rec = (stem ++ "." ++ ext)%string →
  contains_char "/" (FileRecord.original_name rec) = false →
  contains_char "." ext = false → ext ≠ "" →
  _create_redactor (redaction_request req env rec canonical_id regions) w
  = (if String.eqb (lower ext) "pdf"
     then Ok (PDFRedactor_ (redaction_request req env rec canonical_id regions))
     else if String.eqb (lower ext) "docx"
     then Ok (DOCXRedactor_ (redaction_request req env rec canonical_id regions))
     else Abort 415 "unsupported file type for redaction", w).
Proof.
  intros Hname Hslash Hdot Hext. unfold _create_redactor.
  change (RedactionRequest.source_path
            (redaction_request req env rec canonical_id regions))
    with (tmp_plain env rec).
  rewrite tmp_plain_suffix by done.
  pose proof (tmp_plain_name_no_slash env rec Hslash) as Hno.
  unfold tmp_plain_name in *. rewrite Hname in *.
  set (head := ("dec_" ++ str_of_int (time_ms_plain env) ++ "_" ++ stem)%string).
  assert (("dec_" ++ str_of_int (time_ms_plain env) ++ "_" ++ stem ++ "." ++ ext)%string
          = (head ++ String "." ext)%string) as Hsplit.
  { unfold head. by rewrite !append_assoc_str. }
  rewrite Hsplit in *.
  rewrite suffix_of_name by done. cbn [lower].
  change (lower_ascii ".") with "."%char.
  cbn [String.eqb Ascii.eqb Bool.eqb]. simpl.
  by repeat case_match.
Qed.

(** A name with neither separator nor dot has no extension: 415. *)
Lemma redactor_without_extension (req : Request) (env : Env)
    (rec : FileRecord.t) (canonical_id : string)
    (regions : list RedactionRegion.t) (w : world) :
  contains_char "/" (FileRecord.original_name rec) = false →
  contains_char "." (FileRecord.original_name rec) = false →
  _create_redactor (redaction_request req env rec canonical_id regions) w
  = (Abort 415 "unsupported file type for redaction", w).
Proof.
  intros Hslash Hdot. unfold _create_redactor.
  change (RedactionRequest.source_path
            (redaction_request req env rec canonical_id regions))
    with (tmp_plain env rec).
  pose proof (tmp_plain_name_no_slash env rec Hslash) as Hno.
  rewrite tmp_plain_suffix by done.
  rewrite suffix_without_dot; [done | | done].
  unfold tmp_plain_name.
  rewrite !contains_char_app, Hdot, str_of_int_without by done. done.
Qed.

End Dispatch.

(** ** The endpoint: the successor record *)

Section Successor.
Context {HL : Hashlib} {F : Fitz} {FIO : FitzIO} {DIO : DocxIO} {SO : SetOrder}
        {C : Collaborators}.

Lemma redact_body_record req env passphrase rec canonical_id w resp w1 :
  redact_body req env passphrase rec canonical_id w = (Ok resp, w1) →
  ∃ regions result size,
    catalog w1
    = catalog w
      ++ [(Response.file_id resp,
           new_record rec canonical_id
             (os_path_join "redacted" (generate_encrypted_filename env))
             size (time_ms_created env)
             (Response.new_cid resp) (Response.anchor_tx resp)
             (redaction_request req env rec canonical_id regions) result)]
    ∧ Response.file_id resp = inserted_id (catalog w)
    ∧ Response.hash resp = RedactionResult.sha256 result
    ∧ Response.redacted_by resp = lower (address req)
    ∧ Response.status resp = "success".
Proof.
  unfold redact_body. intros Hrun.
  apply bind_ok in Hrun as ([] & w2 & Hdec & Hrun).
  apply stable_run in Hdec; [|auto with frame].
  apply bind_ok in Hrun as (regions & w3 & Hregions & Hrun).
  apply build_regions_pure in Hregions as ->.
  apply bind_ok in Hrun as (red & w4 & Hcreate & Hrun).
  apply create_redactor_pure in Hcreate as ->.
  apply bind_ok in Hrun as (result & w5 & Happly & Hrun).
  apply stable_run in Happly; [|auto with frame].
  apply bind_ok in Hrun as ([] & w6 & Henc & Hrun).
  apply stable_run in Henc; [|auto with frame].
  apply bind_ok in Hrun as (size & w7 & Hsize & Hrun).
  apply stable_run in Hsize; [|auto with frame].
  apply bind_ok in Hrun as (cid & w8 & Hcid & Hrun).
  apply stable_run in Hcid; [|apply stable_try_add_file].
  apply bind_ok in Hrun as (anchor & w9 & Hanchor & Hrun).
  apply stable_run in Hanchor; [|apply stable_try_anchor_file].
  apply bind_ok in Hrun as (i & w10 & Hins & Hret).
  unfold insert_one in Hins. injection Hins as <- <-.
  injection Hret as <- <-. simpl.
  exists regions, result, size.
  assert (catalog w9 = catalog w) as -> by congruence.
  done.
Qed.

(** X8.  The record a successful call appends is the successor of the
    parent it was admitted on: it inherits the parent's owner, original name,
    associated data and folder, points to the parent through
    [parent_file_id], lives under [redacted/] with the freshly drawn name,
    and carries the payload's pattern labels and custom terms in its audit
    block.  The response names the id the catalog gave it, the record's
    hash, content id and anchor, and the requester. *)
Theorem successor_record_inherits_parent (req : Request) (env : Env) (w : world)
    (resp : Response.t) :
  (redact_file req env w).1 = Ok resp →
  ∃ rec canonical_id passphrase record meta,
    admitted req w rec canonical_id passphrase
    ∧ catalog (redact_file req env w).2
      = catalog w ++ [(Response.file_id resp, record)]
    ∧ Response.file_id resp = inserted_id (catalog w)
    ∧ FileRecord.owner record = FileRecord.owner rec
    ∧ FileRecord.original_name record = FileRecord.original_name rec
    ∧ FileRecord.aad record = FileRecord.aad rec
    ∧ FileRecord.folder record = FileRecord.folder rec
    ∧ FileRecord.parent_file_id record = Some canonical_id
    ∧ FileRecord.enc_filename record
      = os_path_join "redacted" (generate_encrypted_filename env)
    ∧ FileRecord.created_at record = time_ms_created env
    ∧ FileRecord.sha256 record = Some (Response.hash resp)
    ∧ FileRecord.cid record = Response.new_cid resp
    ∧ FileRecord.anchor_tx record = Response.anchor_tx resp
    ∧ Response.redacted_by resp = lower (address req)
    ∧ FileRecord.owner record = Some (Response.redacted_by resp)
    ∧ FileRecord.redaction_meta record = Some meta
    ∧ FileRecord.patterns meta = Payload.patterns_applied (data req)
    ∧ FileRecord.custom_terms meta = Payload.custom_terms (data req).
Proof.
  intros Hok.
  destruct (redact_file_cases req env w)
    as [[_ Hfail] | (rec & canonical_id & passphrase & Hadm & Hrun)];
    [by destruct (Hfail resp)|].
  destruct (try_finally_cleanup (redact_body req env passphrase rec canonical_id)
              env rec w) as (w' & Htry & Hclean).
  destruct (cleanup_spec env rec
              (redact_body req env passphrase rec canonical_id w).2)
    as (w'' & Hclean' & Hcat & _).
  rewrite Hclean in Hclean'. injection Hclean' as <-.
  rewrite Hrun, Htry in Hok |- *. simpl in Hok |- *.
  destruct (redact_body req env passphrase rec canonical_id w) as [r w1] eqn:Hbody.
  simpl in *. subst r.
  apply redact_body_record in Hbody
    as (regions & result & size & Hrecord & Hid & Hhash & Hby & _).
  pose proof Hadm as (file_id & _ & _ & _ & _ & _ & Howner & _).
  eexists rec, canonical_id, passphrase, _, _.
  split; [done|]. split; [by rewrite Hcat, Hrecord|].
  simpl. rewrite Hby, Hhash, Howner. done.
Qed.

End Successor.

(** ** Anchoring *)

Lemma py_len_take (n : nat) (s : string) :
  (n ≤ py_len s)%nat → py_len (py_take n s) = n.
Proof.
  revert n. induction s as [|c s IH]; intros n; simpl.
  - lia.
  - destruct (is_continuation c) eqn:Hc; simpl.
    + rewrite Hc. apply IH.
    + destruct n as [|n]; simpl; [done|]. rewrite Hc. intros Hn. rewrite IH; lia.
Qed.

(** Two strings with as many characters, each followed by a character that
    starts a new one, are equal when the wholes are. *)
Lemma same_length_heads (p1 p2 : string) (x : ascii) (r1 r2 : string) :
  is_continuation x = false → py_len p1 = py_len p2 →
  (p1 ++ String x r1 = p2 ++ String x r2)%string → p1 = p2 ∧ r1 = r2.
Proof.
  intros Hx. revert p2. induction p1 as [|a p1 IH]; intros [|b p2]; simpl.
  - by intros _ [= ->].
  - intros Hlen [= <- _]. rewrite Hx in Hlen. lia.
  - intros Hlen [= -> _]. rewrite Hx in Hlen. lia.
  - intros Hlen [= -> Hrest].
    destruct (IH p2) as [-> ->]; [|done..].
    destruct (is_continuation b); lia.
Qed.

Section AnchorFacts.
Context {N : onchain.Node}.
Import onchain.



(** X10.  Simulated references tell two anchored files apart only by the
    first 16 characters of their hashes and their sizes: for hashes of 64
    characters the references coincide exactly when both coincide. *)
Theorem simulated_reference_collides_iff (h1 h2 : string) (s1 s2 : Z) :
  py_len h1 = 64%nat → py_len h2 = 64%nat →
  simulated h1 s1 = simulated h2 s2 ↔ py_take 16 h1 = py_take 16 h2 ∧ s1 = s2.
Proof.
  intros Hh1 Hh2. unfold simulated. split; [|by intros [-> ->]].
  intros Heq. apply append_inv_head in Heq.
  apply (same_length_heads _ _ ":") in Heq as [Htake Hrest]; [|done|].
  - split; [done|]. injection Hrest as Hrest. by apply str_of_int_inj.
  - rewrite !py_len_take; lia.
Qed.

End AnchorFacts.

(** ** Authentication in front of the endpoint *)

Section AuthFacts.
Context {HL : Hashlib} {F : Fitz} {FIO : FitzIO} {DIO : DocxIO} {SO : SetOrder}
        {C : Collaborators} {T : security.Tokens}.
Import security.

Lemma attach_role_spec (db : string + list Assignment.t) (address : string)
    (w : world) :
  ∃ w1,
    _attach_role db address w
    = (Ok {| role := dict_get _ROLE_VALUE_BY_SLUG (resolved_slug db address) 2;
             role_name := resolved_slug db address;
             role_slug := resolved_slug db address |}, w1)
    ∧ fs w1 = fs w ∧ catalog w1 = catalog w ∧ undeletable w1 = undeletable w.
Proof.
  unfold _attach_role. destruct db as [exc | coll]; eexists; (split; [reflexivity|]);
    done.
Qed.

(** A call behind [require_auth] is turned away with 401 or fails on the
    token, the world untouched, or runs the wrapped function for the subject
    of a verified token. *)
Lemma require_auth_cases {A} (fn : string → attrs → M A)
    (authorization : option string) (db : string + list Assignment.t) (w : world) :
  (∃ description, require_auth fn authorization db w = (Abort 401 description, w))
  ∨ require_auth fn authorization db w = (Raise Exception, w)
  ∨ ∃ header sub a w1,
      authorization = Some header
      ∧ String.prefix "Bearer " header = true
      ∧ verify_jwt (strip (removeprefix "Bearer " header)) = Decoded (Some sub)
      ∧ sub ≠ ""
      ∧ _attach_role db sub w = (Ok a, w1)
      ∧ require_auth fn authorization db w = fn sub a w1.
Proof.
  unfold require_auth.
  destruct (String.prefix "Bearer " (default "" authorization)) eqn:Hprefix; simpl;
    [|left; eauto].
  destruct authorization as [header|]; [|done]. simpl in *.
  destruct (truthy (strip (removeprefix "Bearer " header))); simpl; [|left; eauto].
  destruct (verify_jwt (strip (removeprefix "Bearer " header))) as [sub| | |] eqn:Hjwt;
    [|left; eauto|left; eauto|right; left; done].
  destruct (missing sub) eqn:Hsub; [left; eauto|].
  apply missing_false in Hsub as (s & -> & Hs). simpl.
  destruct (attach_role_spec db s w) as (w1 & Hattach & _).
  right; right. eexists header, s, _, w1.
  split_and!; [done..|exact Hattach|].
  unfold mbind, M_bind, bind. by rewrite Hattach.
Qed.

(** X11.  Behind [require_auth], a redaction succeeds only for the subject
    of a verified bearer token who owns the parent: the header starts with
    [Bearer ], the stripped token decodes to a non-empty subject, the parent
    found for the payload's file id is owned by the lower-cased subject, and
    the one record appended to the catalog is owned by the same identity and
    points to that parent. *)
Theorem redaction_only_for_authenticated_owner
    (authorization : option string) (db : string + list Assignment.t)
    (body : Payload.t) (env : Env) (w : world) (resp : Response.t) :
  (redact_endpoint authorization db body env w).1 = Ok resp →
  ∃ header sub file_id rec canonical_id record,
    authorization = Some header
    ∧ String.prefix "Bearer " header = true
    ∧ verify_jwt (strip (removeprefix "Bearer " header)) = Decoded (Some sub)
    ∧ sub ≠ ""
    ∧ Payload.file_id body = Some file_id
    ∧ _lookup_file (catalog w) file_id = Ok (rec, canonical_id)
    ∧ FileRecord.owner rec = Some (lower sub)
    ∧ Response.redacted_by resp = lower sub
    ∧ catalog (redact_endpoint authorization db body env w).2
      = catalog w ++ [(Response.file_id resp, record)]
    ∧ FileRecord.owner record = Some (lower sub)
    ∧ FileRecord.parent_file_id record = Some canonical_id.
Proof.
  unfold redact_endpoint. intros Hok.
  destruct (require_auth_cases
              (fun address _ => redact_file (mkRequest address body) env)
              authorization db w)
    as [[d Hrun] | [Hrun | (header & sub & a & w1 & Hauth & Hprefix & Hjwt & Hsub
                            & Hattach & Hrun)]];
    rewrite Hrun in Hok |- *; [done | done |].
  destruct (attach_role_spec db sub w) as (w1' & Hattach' & _ & Hcat1 & _).
  rewrite Hattach in Hattach'. injection Hattach' as _ <-.
  set (req := mkRequest sub body) in *.
  destruct (redact_file_cases req env w1)
    as [[_ Hfail] | (rec & canonical_id & passphrase & Hadm & Hfile)];
    [by destruct (Hfail resp)|].
  destruct (try_finally_cleanup (redact_body req env passphrase rec canonical_id)
              env rec w1) as (w' & Htry & Hclean).
  destruct (cleanup_spec env rec
              (redact_body req env passphrase rec canonical_id w1).2)
    as (w'' & Hclean' & Hcat & _).
  rewrite Hclean in Hclean'. injection Hclean' as <-.
  rewrite Hfile, Htry in Hok |- *. simpl in Hok |- *.
  destruct (redact_body req env passphrase rec canonical_id w1) as [r w2] eqn:Hbody.
  simpl in *. subst r.
  apply redact_body_record in Hbody
    as (regions & result & size & Hrecord & _ & _ & Hby & _).
  destruct Hadm as (file_id & Hid & _ & _ & _ & Hlookup & Howner & _).
  match type of Hrecord with
  | _ = _ ++ [(_, ?r)] => exists header, sub, file_id, rec, canonical_id, r
  end.
  split_and!; try done.
  - by rewrite <- Hcat1.
  - by rewrite Hcat, Hrecord, Hcat1.
Qed.

Lemma dict_get_role (slug : string) :
  dict_get _ROLE_VALUE_BY_SLUG slug 2
  = if decide (slug = "none") then 0
    else if decide (slug = "viewer") then 1
    else if decide (slug = "admin") then 3 else 2.
Proof.
  unfold dict_get, _ROLE_VALUE_BY_SLUG. simpl.
  repeat (case_decide; simplify_eq/=; try done).
Qed.

(** X12.  The role attached to a request is owner level (2) by default:
    when reading the assignments fails, when none is stored for the
    lower-cased address, when the first one stored has no role, or when its
    role is not a known name.  It is lower only when that assignment says
    [none] or [viewer], and admin level (3) only when it says [admin], in
    any letter case.  Attaching the role never fails and touches neither
    the files nor the catalog. *)
Theorem attached_role_defaults_to_owner (db : string + list Assignment.t)
    (address : string) (w : world) :
  ∃ a w1,
    _attach_role db address w = (Ok a, w1)
    ∧ fs w1 = fs w ∧ catalog w1 = catalog w
    ∧ 0 ≤ role a ≤ 3
    ∧ (role a ≠ 2 →
       ∃ coll assignment r,
         db = inr coll
         ∧ find_assignment coll (lower address) = Some assignment
         ∧ Assignment.role assignment = Some r
         ∧ ((lower r = "none" ∧ role a = 0)
            ∨ (lower r = "viewer" ∧ role a = 1)
            ∨ (lower r = "admin" ∧ role a = 3))).
Proof.
  destruct (attach_role_spec db address w) as (w1 & Hattach & Hfs & Hcat & _).
  eexists _, w1. split; [exact Hattach|]. split; [done|]. split; [done|].
  simpl. rewrite dict_get_role. split.
  - repeat case_decide; lia.
  - unfold resolved_slug.
    destruct db as [exc | coll]; [by repeat case_decide|].
    destruct (find_assignment coll (lower address)) as [assignment|] eqn:Hfind;
      [|by repeat case_decide].
    destruct (Assignment.role assignment) as [r|] eqn:Hrole; [|by repeat case_decide].
    destruct (truthy r); [|by repeat case_decide].
    intros Hne. exists coll, assignment, r. split_and!; [done..|].
    repeat case_decide; try done; auto.
Qed.

End AuthFacts.

(** ** Further runs on the demo deployment *)

Section MoreRuns.
Import Demo DemoAuth.

Lemma pdf_saves_redacted_pages_run :
  ∃ res,
    (pdf_apply_redactions two_region_request ssn_pdf).1 = Ok res
    ∧ fs (pdf_apply_redactions two_region_request ssn_pdf).2
        !! RedactionRequest.output_path two_region_request
      = Some (list_byte_of_string (py_mul block 16 ++ "/ID 0"))
    ∧ fs (pdf_apply_redactions two_region_request ssn_pdf).2
        !! RedactionRequest.source_path two_region_request
      = fs ssn_pdf !! RedactionRequest.source_path two_region_request.
Proof.
  eexists. split; [by_running|].
  edestruct (pdf_saves_redacted_pages two_region_request ssn_pdf)
    as (src & doc & _ & _ & _ & _ & Hother); [by_running|].
  split; [by_running|]. apply Hother. discriminate.
Defined.

Lemma removed_terms_sorted_without_duplicates_run :
  ∃ res,
    (apply_redactions (DOCXRedactor_ absent_term_request) jane_docx).1 = Ok res
    ∧ RedactionResult.removed_terms res = ["Jane Doe"; "John Roe"]
    ∧ Sorted str_le (RedactionResult.removed_terms res)
    ∧ NoDup (RedactionResult.removed_terms res).
Proof.
  eexists. split; [by_running|]. split; [by_running|].
  apply (removed_terms_sorted_without_duplicates
           (DOCXRedactor_ absent_term_request) jane_docx).
  by_running.
Defined.

Lemma docx_saves_scrubbed_metadata_run :
  ∃ res src doc saved,
    (docx_apply_redactions absent_term_request jane_docx).1 = Ok res
    ∧ fs jane_docx !! RedactionRequest.source_path absent_term_request = Some src
    ∧ docx_open src = Some doc
    ∧ author (core_properties doc) = Some "carol"
    ∧ fs (docx_apply_redactions absent_term_request jane_docx).2
        !! RedactionRequest.output_path absent_term_request
      = Some (docx_save 0 saved)
    ∧ author (core_properties saved) = Some "None"
    ∧ last_modified_by (core_properties saved) = Some "0xa11ce".
Proof.
  eexists.
  edestruct (proj1 (docx_saves_scrubbed_metadata absent_term_request jane_docx))
    as (_ & src & doc & saved & Hsrc & Hopen & Hout & Hcore & _); [by_running|].
  exists src, doc, saved.
  split_and!; [by_running | done | done | | done | by rewrite Hcore
              | by rewrite Hcore].
  assert (Some src = Some (list_byte_of_string jane_text)) as [= ->]
    by (rewrite <- Hsrc; by_running).
  by injection Hopen as <-.
Defined.

Lemma redactor_chosen_by_extension_run :
  _create_redactor
    (redaction_request alice_request env (parent "Report.PDF") "f1" []) (world_of "Report.PDF")
  = (Ok (PDFRedactor_
           (redaction_request alice_request env (parent "Report.PDF") "f1" [])),
     world_of "Report.PDF").
Proof.
  exact (redactor_chosen_by_extension alice_request env (parent "Report.PDF") "f1" []
           (world_of "Report.PDF") "Report" "PDF"
           eq_refl eq_refl eq_refl ltac:(discriminate)).
Defined.

Lemma successor_record_inherits_parent_run :
  ∃ resp record,
    (redact_file alice_request env (world_of "a.pdf")).1 = Ok resp
    ∧ catalog (redact_file alice_request env (world_of "a.pdf")).2
      = catalog (world_of "a.pdf") ++ [(Response.file_id resp, record)]
    ∧ FileRecord.owner record = Some "0xa11ce"
    ∧ FileRecord.parent_file_id record = Some "f1"
    ∧ FileRecord.enc_filename record = "redacted/c0ffee.enc".
Proof.
  eexists.
  edestruct (successor_record_inherits_parent alice_request env (world_of "a.pdf"))
    as (rec & canonical_id & passphrase & record & meta & Hadm & Hcat & _ & Howner
        & _ & _ & _ & Hparent & Hname & _); [by_running|].
  exists record.
  destruct Hadm as (file_id & [= <-] & _ & _ & _ & Hlookup & _).
  assert (Ok (rec, canonical_id) = Ok (parent "a.pdf", "f1")) as [= -> ->]
    by (rewrite <- Hlookup; by_running).
  split_and!; [by_running | exact Hcat | by rewrite Howner | done | by rewrite Hname].
Defined.


Lemma simulated_reference_collides_iff_run :
  digest_a ≠ digest_b ∧ onchain.simulated digest_a 16 = onchain.simulated digest_b 16.
Proof.
  split; [by_running || discriminate|].
  apply (simulated_reference_collides_iff digest_a digest_b 16 16);
    [by_running | by_running | split; by_running].
Defined.

Lemma redaction_only_for_authenticated_owner_run :
  ∃ resp,
    (redact_endpoint (Some "Bearer  valid-token ") (inr assignments)
                     redact_payload env (world_of "a.pdf")).1 = Ok resp
    ∧ Response.redacted_by resp = "0xa11ce"
    ∧ (redact_endpoint (Some "Bearer old-token") (inr assignments)
                       redact_payload env (world_of "a.pdf"))
      = (Abort 401 "token expired", world_of "a.pdf")
    ∧ (redact_endpoint (Some "valid-token") (inr assignments)
                       redact_payload env (world_of "a.pdf"))
      = (Abort 401 "missing bearer token", world_of "a.pdf").
Proof.
  eexists.
  edestruct (redaction_only_for_authenticated_owner
               (Some "Bearer  valid-token ") (inr assignments)
               redact_payload env (world_of "a.pdf"))
    as (header & sub & file_id & rec & canonical_id & record & [= <-] & _ & Hjwt
        & _ & _ & _ & _ & Hby & _); [by_running|].
  assert (security.Decoded (Some sub) = security.Decoded (Some "0xA11CE"))
    as [= ->] by (rewrite <- Hjwt; by_running).
  split_and!; [by_running | by rewrite Hby | by_running | by_running].
Defined.

End MoreRuns.

(** ** The role workflow (core/rbac.py, api/rbac.py) *)

Lemma lower_ascii_idemp (c : ascii) : lower_ascii (lower_ascii c) = lower_ascii c.
Proof. by destruct c as [[] [] [] [] [] [] [] []]. Qed.

Lemma lower_idemp (s : string) : lower (lower s) = lower s.
Proof. induction s as [|c s IH]; simpl; [done|]. by rewrite lower_ascii_idemp, IH. Qed.

Section ListUpdates.
Context {A : Type}.
Implicit Types (matches : A → bool) (set : A → A) (coll : list A).

Lemma update_first_None matches set coll :
  update_first matches set coll = None ↔ Forall (λ d, matches d = false) coll.
Proof.
  induction coll as [|d rest IH]; simpl.
  - split; [constructor | done].
  - destruct (matches d) eqn:Hd.
    + split; [done|]. intros [? _]%Forall_cons. congruence.
    + rewrite fmap_None, IH, Forall_cons. tauto.
Qed.

Lemma update_first_Some matches set coll coll' :
  update_first matches set coll = Some coll' →
  ∃ before d rest,
    coll = before ++ d :: rest ∧ coll' = before ++ set d :: rest
    ∧ matches d = true ∧ Forall (λ d, matches d = false) before.
Proof.
  revert coll'. induction coll as [|d rest IH]; simpl; intros coll' Hupd; [done|].
  destruct (matches d) eqn:Hd.
  - injection Hupd as <-. by exists [], d, rest.
  - apply fmap_Some in Hupd as (tail & Htail & ->).
    destruct (IH _ Htail) as (before & d' & rest' & -> & -> & Hd' & Hbefore).
    exists (d :: before), d', rest'. split_and!; try done. by constructor.
Qed.

Lemma delete_first_spec matches coll :
  (Forall (λ d, matches d = false) coll ∧ delete_first matches coll = (coll, 0))
  ∨ ∃ before d rest,
      coll = before ++ d :: rest ∧ delete_first matches coll = (before ++ rest, 1)
      ∧ matches d = true ∧ Forall (λ d, matches d = false) before.
Proof.
  induction coll as [|d rest IH]; simpl.
  - left. by split.
  - destruct (matches d) eqn:Hd.
    + right. by exists [], d, rest.
    + destruct IH as [[Hnone ->] | (before & d' & rest' & -> & -> & Hd' & Hbefore)].
      * left. split; [by constructor | done].
      * right. exists (d :: before), d', rest'. split_and!; try done. by constructor.
Qed.

Lemma list_find_split (P : A → Prop) `{!∀ x, Decision (P x)} before d rest :
  Forall (λ d, ¬ P d) before → P d →
  snd <$> list_find P (before ++ d :: rest) = Some d.
Proof.
  intros Hbefore Hd.
  assert (list_find P (before ++ d :: rest) = Some (length before, d)) as ->; [|done].
  apply list_find_Some. split_and!.
  - by rewrite lookup_app_r, Nat.sub_diag by lia.
  - done.
  - intros j y Hj Hlt. rewrite lookup_app_l in Hj by done.
    eapply Forall_lookup_1 in Hbefore; eauto.
Qed.

Lemma update_first_split matches set before d rest :
  Forall (λ d, matches d = false) before → matches d = true →
  update_first matches set (before ++ d :: rest) = Some (before ++ set d :: rest).
Proof.
  intros Hbefore Hd. induction Hbefore as [|x before Hx _ IH]; simpl.
  - by rewrite Hd.
  - by rewrite Hx, IH.
Qed.

Lemma list_find_first (P : A → Prop) `{!∀ x, Decision (P x)} coll i d :
  list_find P coll = Some (i, d) →
  ∃ before rest, coll = before ++ d :: rest ∧ Forall (λ d, ¬ P d) before ∧ P d.
Proof.
  intros (Hi & Hd & Hbefore)%list_find_Some.
  exists (take i coll), (drop (S i) coll). split_and!; [|..|done].
  - by rewrite take_drop_middle.
  - apply Forall_lookup_2. intros j y Hj.
    apply lookup_take_Some in Hj as [Hj Hlt]. eauto.
Qed.

End ListUpdates.

Section RoleWorkflow.
Context {E : RbacEnv}.
Import rbac_api.

Lemma guarded {B} (min_role : rbac.Role) (raw : Z) (k : R B) (db : rbac_db) :
  (rbac.ensure_role min_role raw;; k) db
  = match rbac.of_value raw with
    | None => (Raise Exception, db)
    | Some role =>
        if rbac.value role <? rbac.value min_role
        then (Abort 403 (rbac.role_name min_role ++ " role required")%string, db)
        else k db
    end.
Proof.
  unfold mbind, R_bind, rbac.ensure_role.
  destruct (rbac.of_value raw) as [role|]; [|done].
  by destruct (rbac.value role <? rbac.value min_role).
Qed.

Lemma bind_run {A B} (m : R A) (k : A → R B) (db db1 : rbac_db) (a : A) :
  m db = (Ok a, db1) → (m ≫= k) db = k a db1.
Proof. unfold mbind, R_bind. by intros ->. Qed.

Lemma admin_value (raw : Z) (role : rbac.Role) :
  rbac.of_value raw = Some role →
  (rbac.value role <? rbac.value rbac.ADMIN) = false → raw = 3.
Proof.
  unfold rbac.of_value. intros Hrole Hge.
  repeat (case_match; simplify_eq/=; try lia).
Qed.

Lemma find_assignment_cons (d : Assignment.t) (coll : list Assignment.t) (a : string) :
  find_assignment (d :: coll) a
  = if decide (Assignment.address d = a) then Some d else find_assignment coll a.
Proof.
  unfold find_assignment. simpl. case_decide; [done|].
  destruct (list_find _ coll) as [[i x]|]; done.
Qed.

Lemma find_assignment_skip (before rest : list Assignment.t) (d : Assignment.t)
    (a : string) :
  Assignment.address d ≠ a →
  find_assignment (before ++ d :: rest) a = find_assignment (before ++ rest) a.
Proof.
  intros Hd. induction before as [|x before IH]; simpl.
  - rewrite find_assignment_cons. by case_decide.
  - rewrite !find_assignment_cons. by rewrite IH.
Qed.

Lemma find_assignment_here (before rest : list Assignment.t) (d : Assignment.t)
    (a : string) :
  Forall (λ x, assignment_matches a x = false) before →
  Assignment.address d = a →
  find_assignment (before ++ d :: rest) a = Some d.
Proof.
  intros Hbefore Hd. induction Hbefore as [|x before Hx _ IH]; simpl.
  - rewrite find_assignment_cons. by case_decide.
  - rewrite find_assignment_cons, IH.
    unfold assignment_matches in Hx. apply bool_decide_eq_false in Hx.
    by case_decide.
Qed.

Lemma find_assignment_none (coll : list Assignment.t) (a : string) :
  Forall (λ x, assignment_matches a x = false) coll ↔ find_assignment coll a = None.
Proof.
  induction coll as [|x coll IH]; [done|].
  rewrite find_assignment_cons, Forall_cons, IH.
  unfold assignment_matches. rewrite bool_decide_eq_false.
  case_decide; naive_solver.
Qed.

(** The assignments after [upsert_assignment]. *)
Lemma upsert_assignment_find (a : string) (new : Assignment.t) (db : rbac_db)
    (b : string) :
  Assignment.address new = a →
  find_assignment (assignments (upsert_assignment a new db).2) b
  = if decide (a = b) then Some new else find_assignment (assignments db) b.
Proof.
  intros Hnew. simpl.
  destruct (update_first _ _ (assignments db)) as [coll|] eqn:Hupd.
  - apply update_first_Some in Hupd
      as (before & d & rest & -> & -> & Hd & Hbefore).
    apply bool_decide_eq_true in Hd.
    case_decide as Hab.
    + subst b. by apply find_assignment_here.
    + rewrite !find_assignment_skip; congruence.
  - apply update_first_None in Hupd.
    case_decide as Hab.
    + subst b. replace (assignments db ++ [new]) with (assignments db ++ new :: []) by done.
      by apply find_assignment_here.
    + replace (assignments db ++ [new]) with (assignments db ++ new :: []) by done.
      rewrite find_assignment_skip, app_nil_r; congruence.
Qed.

Lemma valid_role_slug (r : string) :
  r ∈ _VALID_ROLES → truthy r = true ∧ lower r = r
                      ∧ r ∈ map fst rbac._ROLE_SLUG_MAP.
Proof.
  unfold _VALID_ROLES. rewrite !elem_of_cons, elem_of_nil.
  intros [-> | [-> | [-> | []]]]; split_and!; try done; simpl; set_solver.
Qed.

Lemma upsert_assignment_consistent (a : string) (new : Assignment.t) (db : rbac_db) :
  Assignment.address new = a → lower a = a →
  Assignment.role new ∈ Some <$> _VALID_ROLES →
  consistent db → consistent (upsert_assignment a new db).2.
Proof.
  intros Hnew Hlower Hrole (Hone & Hpending & Hroles & Hrequested & Hlow & Hreqlow).
  unfold consistent. simpl.
  destruct (update_first _ _ (assignments db)) as [coll|] eqn:Hupd.
  - apply update_first_Some in Hupd
      as (before & d & rest & Hcoll & -> & Hd & Hbefore).
    apply bool_decide_eq_true in Hd. rewrite Hcoll in *.
    rewrite fmap_app in *. simpl in *. subst a. rewrite <- Hd at 1.
    rewrite !Forall_app, !Forall_cons in *.
    split_and!; try done; tauto.
  - apply update_first_None in Hupd.
    rewrite fmap_app, !Forall_app, !Forall_singleton. simpl.
    split_and!; try done; [|by rewrite Hnew].
    apply NoDup_app. split_and!; [done| |apply NoDup_singleton].
    intros x Hx ->%list_elem_of_singleton.
    apply list_elem_of_fmap in Hx as (d & Hd & Hin).
    rewrite Forall_forall in Hupd. specialize (Hupd d Hin).
    apply bool_decide_eq_false in Hupd. congruence.
Qed.


Lemma find_request_first (matches : RoleRequest.t → bool) (db : rbac_db)
    (d : RoleRequest.t) :
  (find_request matches db).1 = Ok (Some d) →
  ∃ before rest,
    requests db = before ++ d :: rest
    ∧ Forall (λ d, matches d = false) before ∧ matches d = true.
Proof.
  unfold find_request. simpl. intros [= Hfind].
  apply fmap_Some in Hfind as ([i x] & Hfind & ->).
  apply list_find_first in Hfind as (before & rest & Hsplit & Hbefore & Hd).
  exists before, rest. split_and!; [done| |done].
  eapply Forall_impl; [exact Hbefore|]. intros y. simpl. by destruct (matches y).
Qed.

Lemma find_request_here (matches : RoleRequest.t → bool) (db : rbac_db)
    (before rest : list RoleRequest.t) (d : RoleRequest.t) :
  requests db = before ++ d :: rest →
  Forall (λ d, matches d = false) before → matches d = true →
  find_request matches db = (Ok (Some d), db).
Proof.
  intros Hsplit Hbefore Hd. unfold find_request. rewrite Hsplit.
  rewrite list_find_split; [done| |done].
  eapply Forall_impl; [exact Hbefore|]. intros y. simpl. congruence.
Qed.

Lemma find_request_none (matches : RoleRequest.t → bool) (db : rbac_db) :
  (find_request matches db).1 = Ok None →
  Forall (λ d, matches d = false) (requests db).
Proof.
  unfold find_request. simpl. intros [= Hfind].
  apply fmap_None, list_find_None in Hfind.
  eapply Forall_impl; [exact Hfind|]. intros y. simpl. by destruct (matches y).
Qed.

(** What [assign_role_onchain] does: a reference for every role of
    [_ROLE_SLUG_MAP], and nothing but log lines. *)
Lemma assign_role_onchain_run (reg : rbac.registry) (address role : string)
    (db : rbac_db) :
  ∃ tx lines flag,
    rbac.assign_role_onchain reg address role db
    = (Ok tx, mkDb (assignments db) (requests db) (rlog db ++ lines) flag)
    ∧ (lower role ∈ map fst rbac._ROLE_SLUG_MAP →
       ∃ kind, tx = Some (kind ++ "-role::" ++ lower address ++ "::" ++ lower role)%string
               ∧ kind = match reg with
                        | rbac.Instantiated => "stub"
                        | _ => "simulated"
                        end).
Proof.
  unfold rbac.assign_role_onchain.
  case_bool_decide as Hrole; simpl.
  - destruct reg as [| |exc]; simpl.
    + destruct (warned db) eqn:Hwarned.
      * eexists _, [], true. rewrite app_nil_r. split.
        { unfold mbind, R_bind. simpl. rewrite Hwarned. destruct db; simpl in *.
          by subst. }
        intros _. by exists "simulated".
      * eexists _, [_], true. split.
        { unfold mbind, R_bind. simpl. by rewrite Hwarned. }
        intros _. by exists "simulated".
    + eexists _, [_], (warned db). split; [done|]. intros _. by exists "stub".
    + eexists _, [_], (warned db). split; [done|]. intros _. by exists "simulated".
  - eexists None, [_], (warned db). split; [done|]. done.
Qed.

Lemma upsert_member_cases (ctx : Ctx) (address role : option string) (now : Z)
    (db : rbac_db) :
  ((upsert_member ctx address role now db).2 = db
   ∧ ∀ m, (upsert_member ctx address role now db).1 ≠ Ok m)
  ∨ ∃ a tx lines flag,
      ctx_role ctx = 3 ∧ address = Some a ∧ a ≠ ""
      ∧ lower (default "" role) ∈ _VALID_ROLES
      ∧ upsert_member ctx address role now db
        = (Ok (mkMember (lower a) (lower (default "" role)) now (ctx_address ctx)
                        (Some tx)),
           mkDb (assignments
                   (upsert_assignment (lower a)
                      (Assignment.mk (lower a) (Some (lower (default "" role)))
                                     (ctx_address ctx) now) db).2)
                (requests db) (rlog db ++ lines) flag).
Proof.
  unfold upsert_member. rewrite guarded.
  destruct (rbac.of_value (ctx_role ctx)) as [r|] eqn:Hr; [|by left].
  destruct (rbac.value r <? rbac.value rbac.ADMIN) eqn:Hadmin; [by left|].
  apply (admin_value _ _ Hr) in Hadmin.
  destruct (missing address) eqn:Haddress; [by left|].
  apply missing_false in Haddress as (a & -> & Ha).
  case_bool_decide as Hrole; [|by left]. cbn [negb default].
  right. unfold _normalize_address.
  set (new := Assignment.mk _ _ _ _).
  destruct (assign_role_onchain_run role_registry a (lower (default "" role))
              (upsert_assignment (lower a) new db).2)
    as (tx & lines & flag & Hassign & (kind & -> & _)).
  { rewrite lower_idemp. by apply valid_role_slug. }
  eexists a, _, lines, flag. split_and!; [done..|].
  rewrite (bind_run (upsert_assignment (lower a) new) _ db _ () eq_refl).
  rewrite (bind_run _ _ _ _ _ Hassign). done.
Qed.

Lemma of_value_value (raw : Z) (role : rbac.Role) :
  rbac.of_value raw = Some role → rbac.value role = raw.
Proof.
  unfold rbac.of_value. intros Hrole.
  repeat (case_match; simplify_eq/=; try lia).
Qed.

Lemma submit_request_cases (ctx : Ctx) (requested_role reason : option string)
    (now : Z) (db : rbac_db) :
  ((submit_request ctx requested_role reason now db).2 = db
   ∧ ∀ r, (submit_request ctx requested_role reason now db).1 ≠ Ok r)
  ∨ ∃ doc,
      doc = RoleRequest.mk (new_request_id (requests db)) (lower (ctx_address ctx))
              (lower (default "" requested_role)) reason "pending" now now
              None None None
      ∧ 1 ≤ ctx_role ctx ≤ 3
      ∧ lower (default "" requested_role) ∈ _VALID_ROLES
      ∧ Forall (λ d, pending_for (lower (ctx_address ctx)) d = false) (requests db)
      ∧ submit_request ctx requested_role reason now db
        = (Ok (doc, 201), mkDb (assignments db) (requests db ++ [doc]) (rlog db) (warned db)).
Proof.
  unfold submit_request. rewrite guarded.
  destruct (rbac.of_value (ctx_role ctx)) as [r|] eqn:Hr; [|by left].
  destruct (rbac.value r <? rbac.value rbac.VIEWER) eqn:Hviewer; [by left|].
  apply of_value_value in Hr.
  case_bool_decide as Hrole; [|by left]. cbn [negb].
  unfold _normalize_address.
  rewrite (bind_run (find_request _) _ db db _ eq_refl).
  destruct (snd <$> list_find _ (requests db)) as [existing|] eqn:Hfind; [by left|].
  right. eexists. split; [done|]. split_and!; [destruct r; simpl in *; lia..|done| |done].
  apply (find_request_none _ db). unfold find_request. simpl. by rewrite Hfind.
Qed.

Lemma load_request_cases (request_id : string) (db : rbac_db) :
  _load_request_or_404 request_id db = (Abort 404 "request not found", db)
  ∨ ∃ oid before doc rest,
      parse_object_id request_id = Some oid
      ∧ requests db = before ++ doc :: rest
      ∧ Forall (λ d, has_id oid d = false) before ∧ has_id oid doc = true
      ∧ _load_request_or_404 request_id db = (Ok doc, db).
Proof.
  unfold _load_request_or_404.
  destruct (parse_object_id request_id) as [oid|]; [|by left].
  rewrite (bind_run (find_request _) _ db db _ eq_refl).
  destruct (snd <$> list_find _ (requests db)) as [doc|] eqn:Hfind; [|by left].
  right. destruct (find_request_first (has_id oid) db doc)
    as (before & rest & Hsplit & Hbefore & Hdoc).
  { unfold find_request. simpl. by rewrite Hfind. }
  by exists oid, before, doc, rest.
Qed.

(** A decision on a stored request: the first document with the id is
    rewritten and read back. *)
Lemma decide_request_run (oid : string) (set : RoleRequest.t → RoleRequest.t)
    (before rest : list RoleRequest.t) (doc : RoleRequest.t) (db : rbac_db) :
  requests db = before ++ doc :: rest →
  Forall (λ d, has_id oid d = false) before → has_id oid doc = true →
  update_request oid set db
  = (Ok (), mkDb (assignments db) (before ++ set doc :: rest) (rlog db) (warned db)).
Proof.
  intros Hsplit Hbefore Hdoc. unfold update_request.
  by rewrite Hsplit, (update_first_split _ _ _ _ _ Hbefore Hdoc).
Qed.

Lemma reload_request_run (oid : string) (before rest : list RoleRequest.t)
    (doc : RoleRequest.t) (db : rbac_db) :
  requests db = before ++ doc :: rest →
  Forall (λ d, has_id oid d = false) before → has_id oid doc = true →
  reload_request oid db = (Ok doc, db).
Proof.
  intros Hsplit Hbefore Hdoc. unfold reload_request.
  by rewrite (bind_run _ _ _ _ _ (find_request_here _ _ _ _ _ Hsplit Hbefore Hdoc)).
Qed.

Lemma approve_request_cases (ctx : Ctx) (request_id : string) (now : Z)
    (db : rbac_db) :
  ((approve_request ctx request_id now db).2 = db
   ∧ ∀ r, (approve_request ctx request_id now db).1 ≠ Ok r)
  ∨ ∃ oid before doc rest tx lines flag,
      ctx_role ctx = 3
      ∧ parse_object_id request_id = Some oid
      ∧ requests db = before ++ doc :: rest
      ∧ Forall (λ d, has_id oid d = false) before ∧ RoleRequest.id doc = oid
      ∧ RoleRequest.status doc = "pending"
      ∧ (RoleRequest.requested_role doc ∈ _VALID_ROLES → is_Some tx)
      ∧ approve_request ctx request_id now db
        = (Ok (approved (ctx_address ctx) now doc,
               mkMember (RoleRequest.address doc) (RoleRequest.requested_role doc)
                        now (ctx_address ctx) tx),
           mkDb (assignments
                   (upsert_assignment (RoleRequest.address doc)
                      (Assignment.mk (RoleRequest.address doc)
                         (Some (RoleRequest.requested_role doc))
                         (ctx_address ctx) now) db).2)
                (before ++ approved (ctx_address ctx) now doc :: rest)
                (rlog db ++ lines) flag).
Proof.
  unfold approve_request. rewrite guarded.
  destruct (rbac.of_value (ctx_role ctx)) as [r|] eqn:Hr; [|by left].
  destruct (rbac.value r <? rbac.value rbac.ADMIN) eqn:Hadmin; [by left|].
  apply (admin_value _ _ Hr) in Hadmin.
  destruct (load_request_cases request_id db)
    as [Hload | (oid & before & doc & rest & Hoid & Hsplit & Hbefore & Hdoc & Hload)].
  { left. unfold mbind, R_bind. by rewrite Hload. }
  rewrite (bind_run _ _ _ _ _ Hload).
  destruct (String.eqb (RoleRequest.status doc) "pending") eqn:Hstatus; [|by left].
  apply String.eqb_eq in Hstatus. cbn [negb].
  pose proof Hdoc as Hid. apply bool_decide_eq_true in Hid.
  set (new := Assignment.mk _ _ _ _).
  set (db1 := mkDb (assignments db) (before ++ approved (ctx_address ctx) now doc :: rest)
                   (rlog db) (warned db)).
  destruct (assign_role_onchain_run role_registry (RoleRequest.address doc)
              (RoleRequest.requested_role doc)
              (upsert_assignment (RoleRequest.address doc) new db1).2)
    as (tx & lines & flag & Hassign & Htx).
  right. exists oid, before, doc, rest, tx, lines, flag.
  split_and!; [done..| |].
  { intros Hvalid%valid_role_slug. destruct Hvalid as (_ & Hlow & Hin).
    rewrite Hlow in Htx. destruct (Htx Hin) as (kind & -> & _). by eexists. }
  rewrite Hid.
  rewrite (bind_run _ _ _ _ _ (decide_request_run oid _ _ _ _ db Hsplit Hbefore Hdoc)).
  fold db1.
  rewrite (bind_run (upsert_assignment (RoleRequest.address doc) new) _ db1 _ () eq_refl).
  rewrite (bind_run _ _ _ _ _ Hassign).
  erewrite bind_run; [done|].
  apply (reload_request_run oid before rest); [done|done|].
  unfold has_id, approved. simpl. by apply bool_decide_eq_true.
Qed.

Lemma deny_request_cases (ctx : Ctx) (request_id : string) (note : option string)
    (now : Z) (db : rbac_db) :
  ((deny_request ctx request_id note now db).2 = db
   ∧ ∀ r, (deny_request ctx request_id note now db).1 ≠ Ok r)
  ∨ ∃ oid before doc rest,
      ctx_role ctx = 3
      ∧ parse_object_id request_id = Some oid
      ∧ requests db = before ++ doc :: rest
      ∧ Forall (λ d, has_id oid d = false) before ∧ RoleRequest.id doc = oid
      ∧ RoleRequest.status doc = "pending"
      ∧ deny_request ctx request_id note now db
        = (Ok (denied (ctx_address ctx) now note doc),
           mkDb (assignments db)
                (before ++ denied (ctx_address ctx) now note doc :: rest)
                (rlog db) (warned db)).
Proof.
  unfold deny_request. rewrite guarded.
  destruct (rbac.of_value (ctx_role ctx)) as [r|] eqn:Hr; [|by left].
  destruct (rbac.value r <? rbac.value rbac.ADMIN) eqn:Hadmin; [by left|].
  apply (admin_value _ _ Hr) in Hadmin.
  destruct (load_request_cases request_id db)
    as [Hload | (oid & before & doc & rest & Hoid & Hsplit & Hbefore & Hdoc & Hload)].
  { left. unfold mbind, R_bind. by rewrite Hload. }
  rewrite (bind_run _ _ _ _ _ Hload).
  destruct (String.eqb (RoleRequest.status doc) "pending") eqn:Hstatus; [|by left].
  apply String.eqb_eq in Hstatus. cbn [negb].
  pose proof Hdoc as Hid. apply bool_decide_eq_true in Hid.
  right. exists oid, before, doc, rest. split_and!; [done..|].
  rewrite Hid.
  rewrite (bind_run _ _ _ _ _ (decide_request_run oid _ _ _ _ db Hsplit Hbefore Hdoc)).
  apply (reload_request_run oid before rest); [done|done|].
  unfold has_id, denied. simpl. by apply bool_decide_eq_true.
Qed.

Lemma delete_member_cases (ctx : Ctx) (address : string) (db : rbac_db) :
  ((delete_member ctx address db).2 = db
   ∧ ∀ r, (delete_member ctx address db).1 ≠ Ok r)
  ∨ (ctx_role ctx = 3
     ∧ delete_member ctx address db
       = (Ok (0 <? (delete_first (assignment_matches (lower address))
                      (assignments db)).2),
          mkDb (delete_first (assignment_matches (lower address)) (assignments db)).1
               (requests db) (rlog db) (warned db))).
Proof.
  unfold delete_member. rewrite guarded.
  destruct (rbac.of_value (ctx_role ctx)) as [r|] eqn:Hr; [|by left].
  destruct (rbac.value r <? rbac.value rbac.ADMIN) eqn:Hadmin; [by left|].
  apply (admin_value _ _ Hr) in Hadmin.
  right. split; [done|].
  unfold mbind, R_bind, delete_assignment, _normalize_address.
  by destruct (delete_first _ _).
Qed.

Lemma load_request_run (request_id oid : string) (before rest : list RoleRequest.t)
    (doc : RoleRequest.t) (db : rbac_db) :
  parse_object_id request_id = Some oid →
  requests db = before ++ doc :: rest →
  Forall (λ d, has_id oid d = false) before → has_id oid doc = true →
  _load_request_or_404 request_id db = (Ok doc, db).
Proof.
  intros Hoid Hsplit Hbefore Hdoc. unfold _load_request_or_404. rewrite Hoid.
  by rewrite (bind_run _ _ _ _ _ (find_request_here _ _ _ _ _ Hsplit Hbefore Hdoc)).
Qed.

(** *** The invariant *)

Lemma consistent_data (db db' : rbac_db) :
  assignments db' = assignments db → requests db' = requests db →
  consistent db → consistent db'.
Proof. unfold consistent. by intros -> ->. Qed.

Lemma decided_consistent (set : RoleRequest.t → RoleRequest.t)
    (before rest : list RoleRequest.t) (doc : RoleRequest.t) (db : rbac_db) :
  requests db = before ++ doc :: rest →
  ¬ is_pending (set doc) →
  RoleRequest.requested_role (set doc) = RoleRequest.requested_role doc →
  RoleRequest.address (set doc) = RoleRequest.address doc →
  consistent db →
  consistent (mkDb (assignments db) (before ++ set doc :: rest) (rlog db) (warned db)).
Proof.
  intros Hsplit Hdecided Hrole Haddress
    (Hone & Hpending & Hroles & Hrequested & Hlow & Hreqlow).
  unfold consistent. simpl. rewrite Hsplit in *.
  rewrite !Forall_app, !Forall_cons in *. rewrite Hrole, Haddress.
  split_and!; try done; try tauto.
  eapply sublist_NoDup; [exact Hpending|].
  rewrite !filter_app, filter_cons_False by done.
  apply fmap_sublist, sublist_app; [done|].
  rewrite filter_cons. case_decide; [by apply sublist_cons | done].
Qed.

Lemma inserted_consistent (doc : RoleRequest.t) (db : rbac_db) :
  RoleRequest.requested_role doc ∈ _VALID_ROLES →
  lower (RoleRequest.address doc) = RoleRequest.address doc →
  Forall (λ d, pending_for (RoleRequest.address doc) d = false) (requests db) →
  consistent db →
  consistent (mkDb (assignments db) (requests db ++ [doc]) (rlog db) (warned db)).
Proof.
  intros Hrole Hlower Hnone (Hone & Hpending & Hroles & Hrequested & Hlow & Hreqlow).
  unfold consistent. simpl. rewrite !Forall_app, !Forall_singleton.
  split_and!; try done.
  rewrite filter_app, fmap_app. apply NoDup_app. split_and!; [done| |].
  - intros a Ha Hdoc. apply list_elem_of_fmap in Ha as (d & -> & Hd).
    apply list_elem_of_filter in Hd as [Hd Hin].
    assert (RoleRequest.address d = RoleRequest.address doc) as Hsame.
    { apply list_elem_of_fmap in Hdoc as (x & -> & Hx).
      apply list_elem_of_filter in Hx as [_ Hx].
      by apply list_elem_of_singleton in Hx as ->. }
    rewrite Forall_forall in Hnone. specialize (Hnone d Hin).
    apply bool_decide_eq_false in Hnone. by apply Hnone.
  - rewrite filter_cons, filter_nil. case_decide; simpl;
      [apply NoDup_singleton | apply NoDup_nil_2].
Qed.

Lemma deleted_consistent (a : string) (db : rbac_db) :
  consistent db →
  consistent (mkDb (delete_first (assignment_matches a) (assignments db)).1
                   (requests db) (rlog db) (warned db)).
Proof.
  intros (Hone & Hpending & Hroles & Hrequested & Hlow & Hreqlow).
  unfold consistent. simpl.
  destruct (delete_first_spec (assignment_matches a) (assignments db))
    as [[_ ->] | (before & d & rest & Hsplit & -> & _)]; [done|].
  simpl. rewrite Hsplit in *.
  rewrite fmap_app, !Forall_app, ?Forall_cons in *. simpl in *.
  split_and!; try done; try tauto.
  eapply sublist_NoDup; [exact Hone|]. by apply sublist_app, sublist_cons.
Qed.

Lemma after_consistent (c : call) (db : rbac_db) :
  consistent db → consistent (after c db).
Proof.
  intros Hdb. pose proof Hdb as (_ & _ & _ & Hrequested & _ & Hreqlow).
  destruct c as [ctx address role now | ctx requested_role reason now
                 | ctx request_id now | ctx request_id note now | ctx address];
    unfold after.
  - destruct (upsert_member_cases ctx address role now db)
      as [[-> _] | (a & tx & lines & flag & _ & _ & _ & Hrole & ->)]; [done|].
    eapply consistent_data; [reflexivity..|].
    apply upsert_assignment_consistent; [done|apply lower_idemp| |done].
    cbn [Assignment.role]. by apply list_elem_of_fmap_2.
  - destruct (submit_request_cases ctx requested_role reason now db)
      as [[-> _] | (doc & -> & _ & Hrole & Hnone & ->)]; [done|].
    apply inserted_consistent; [done|apply lower_idemp|done|done].
  - destruct (approve_request_cases ctx request_id now db)
      as [[-> _] | (oid & before & doc & rest & tx & lines & flag & _ & _ & Hsplit & _ & _
                    & _ & _ & ->)]; [done|].
    rewrite Hsplit, Forall_app, Forall_cons in Hrequested, Hreqlow.
    set (db1 := mkDb (assignments db)
                     (before ++ approved (ctx_address ctx) now doc :: rest) (rlog db)
                     (warned db)).
    apply (consistent_data
             (upsert_assignment (RoleRequest.address doc)
                (Assignment.mk (RoleRequest.address doc)
                   (Some (RoleRequest.requested_role doc)) (ctx_address ctx) now)
                db1).2); [done..|].
    apply upsert_assignment_consistent; [done|tauto| |].
    + cbn [Assignment.role]. apply list_elem_of_fmap_2. tauto.
    + by apply decided_consistent.
  - destruct (deny_request_cases ctx request_id note now db)
      as [[-> _] | (oid & before & doc & rest & _ & _ & Hsplit & _ & _ & _ & ->)];
      [done|].
    by apply decided_consistent.
  - destruct (delete_member_cases ctx address db) as [[-> _] | [_ ->]]; [done|].
    by apply deleted_consistent.
Qed.

(** X13.  Whatever sequence of calls of the writing role endpoints runs
    against the empty database, one after another, and however each call
    ends: no address has two assignments, no address has two pending
    requests, every assigned and every requested role is one of [viewer],
    [editor] and [admin], and every stored address is lower-cased. *)
Theorem role_database_stays_consistent (calls : list call) :
  consistent (after_all calls empty_db).
Proof.
  assert (consistent empty_db) as Hempty.
  { unfold consistent, empty_db. simpl. split_and!; by constructor. }
  unfold after_all. revert Hempty. generalize empty_db.
  induction calls as [|c calls IH]; intros db Hdb; [done|].
  cbn [foldl]. by apply IH, after_consistent.
Qed.

(** *** Assignments and the role attached to the next request *)

Lemma attach_assigned (coll : list Assignment.t) (caller : string) (w : world)
    (d : Assignment.t) (r : string) :
  find_assignment coll (lower caller) = Some d →
  Assignment.role d = Some r → r ∈ _VALID_ROLES →
  ∃ w1,
    security._attach_role (inr coll) caller w
    = (Ok (security.mkAttrs
             (if decide (r = "viewer") then 1 else if decide (r = "admin") then 3 else 2)
             r r), w1).
Proof.
  intros Hfind Hrole Hvalid.
  destruct (attach_role_spec (inr coll) caller w) as (w1 & -> & _). exists w1.
  destruct (valid_role_slug r Hvalid) as (Htruthy & Hlower & _).
  unfold security.resolved_slug. rewrite Hfind, Hrole, Htruthy, Hlower, dict_get_role.
  repeat f_equal. case_decide; [|done]. subst r.
  unfold _VALID_ROLES in Hvalid. set_solver.
Qed.

Lemma attach_unassigned (coll : list Assignment.t) (caller : string) (w : world) :
  find_assignment coll (lower caller) = None →
  ∃ w1,
    security._attach_role (inr coll) caller w
    = (Ok (security.mkAttrs 2 "owner" "owner"), w1).
Proof.
  intros Hfind.
  destruct (attach_role_spec (inr coll) caller w) as (w1 & -> & _). exists w1.
  unfold security.resolved_slug. by rewrite Hfind.
Qed.

Lemma attach_same (coll coll' : list Assignment.t) (caller : string) (w : world) :
  find_assignment coll' (lower caller) = find_assignment coll (lower caller) →
  security._attach_role (inr coll') caller w
  = security._attach_role (inr coll) caller w.
Proof.
  intros Hfind. unfold security._attach_role, security.resolved_slug.
  by rewrite Hfind.
Qed.

(** X14.  A successful [upsert_member] was called by an admin, names a
    role of [_VALID_ROLES] and carries a transaction reference; from then on
    [_attach_role] gives every spelling of the address that role, at viewer
    level (1) for [viewer], admin level (3) for [admin] and owner level (2)
    for [editor], and gives every other address what it gave before. *)
Theorem assigned_role_is_attached (ctx : Ctx) (address role : option string)
    (now : Z) (db : rbac_db) (m : Member) (w : world) :
  (upsert_member ctx address role now db).1 = Ok m →
  ctx_role ctx = 3
  ∧ m_role m ∈ _VALID_ROLES
  ∧ is_Some (m_tx_reference m)
  ∧ (∀ caller, lower caller = m_address m →
       ∃ w1,
         security._attach_role
           (inr (assignments (upsert_member ctx address role now db).2)) caller w
         = (Ok (security.mkAttrs
                  (if decide (m_role m = "viewer") then 1
                   else if decide (m_role m = "admin") then 3 else 2)
                  (m_role m) (m_role m)), w1))
  ∧ (∀ caller, lower caller ≠ m_address m →
       security._attach_role
         (inr (assignments (upsert_member ctx address role now db).2)) caller w
       = security._attach_role (inr (assignments db)) caller w).
Proof.
  destruct (upsert_member_cases ctx address role now db)
    as [[_ Hfail] | (a & tx & lines & flag & Hadmin & _ & _ & Hrole & ->)];
    [intros Hok; by destruct (Hfail m)|].
  intros [= <-]. cbn [fst snd m_role m_address m_tx_reference assignments].
  split_and!; [done|done|by eexists| |].
  - intros caller Hcaller.
    eapply attach_assigned;
      [rewrite upsert_assignment_find by done; by rewrite decide_True
      |reflexivity|done].
  - intros caller Hcaller. apply attach_same.
    rewrite upsert_assignment_find by done. by rewrite decide_False.
Qed.

(** X15.  A caller whose attached role is not admin level changes no
    assignment, whichever endpoint is called; the only change such a call
    makes is one more pending request under the caller's own lower-cased
    address. *)
Theorem only_admins_change_assignments (c : call) (db : rbac_db) :
  ctx_role (call_ctx c) ≠ 3 →
  assignments (after c db) = assignments db
  ∧ (requests (after c db) = requests db
     ∨ ∃ requested_role reason now doc,
         c = SubmitRequest (call_ctx c) requested_role reason now
         ∧ requests (after c db) = requests db ++ [doc]
         ∧ RoleRequest.status doc = "pending"
         ∧ RoleRequest.address doc = lower (ctx_address (call_ctx c))).
Proof.
  intros Hrole.
  destruct c as [ctx address role now | ctx requested_role reason now
                 | ctx request_id now | ctx request_id note now | ctx address];
    unfold after; cbn [call_ctx] in *.
  - destruct (upsert_member_cases ctx address role now db)
      as [[-> _] | (a & tx & lines & flag & Hadmin & _)]; [by auto | done].
  - destruct (submit_request_cases ctx requested_role reason now db)
      as [[-> _] | (doc & -> & _ & _ & _ & ->)]; [by auto|].
    split; [done|]. right. by eexists _, _, _, _.
  - destruct (approve_request_cases ctx request_id now db)
      as [[-> _] | (oid & before & doc & rest & tx & lines & flag & Hadmin & _)];
      [by auto | done].
  - destruct (deny_request_cases ctx request_id note now db)
      as [[-> _] | (oid & before & doc & rest & Hadmin & _)]; [by auto | done].
  - destruct (delete_member_cases ctx address db) as [[-> _] | [Hadmin _]];
      [by auto | done].
Qed.

(** Replacing a document that does not match by another that does not
    leaves the first match where it is. *)
Lemma find_request_skip (matches : RoleRequest.t → bool)
    (before rest : list RoleRequest.t) (d d' : RoleRequest.t) (db db' : rbac_db) :
  requests db = before ++ d :: rest → requests db' = before ++ d' :: rest →
  matches d = false → matches d' = false →
  (find_request matches db').1 = (find_request matches db).1.
Proof.
  intros Hdb Hdb' Hd Hd'. unfold find_request. simpl. rewrite Hdb, Hdb'. f_equal.
  clear Hdb Hdb'. induction before as [|x before IH]; simpl.
  - rewrite !decide_False by congruence. done.
  - case_decide; [done|].
    destruct (list_find _ (before ++ d :: rest)) as [[i y]|],
             (list_find _ (before ++ d' :: rest)) as [[j z]|];
      simpl in *; congruence.
Qed.

Lemma find_request_data (matches : RoleRequest.t → bool) (db db' : rbac_db) :
  requests db' = requests db →
  (find_request matches db').1 = (find_request matches db).1.
Proof. unfold find_request. simpl. by intros ->. Qed.

(** A decided request stays the one found under its id, whatever is called
    next. *)
Lemma decided_stays (oid : string) (decided : RoleRequest.t) (c : call)
    (db : rbac_db) :
  RoleRequest.status decided ≠ "pending" →
  (find_request (has_id oid) db).1 = Ok (Some decided) →
  (find_request (has_id oid) (after c db)).1 = Ok (Some decided).
Proof.
  intros Hdecided Hfound.
  assert (∀ oid' before doc rest,
            requests db = before ++ doc :: rest →
            Forall (λ d, has_id oid' d = false) before →
            RoleRequest.id doc = oid' → RoleRequest.status doc = "pending" →
            has_id oid doc = false) as Hother.
  { intros oid' before doc rest Hsplit Hbefore Hid Hpending.
    destruct (has_id oid doc) eqn:Hdoc; [|done].
    apply bool_decide_eq_true in Hdoc.
    assert (find_request (has_id oid) db = (Ok (Some doc), db)) as Hdoc'.
    { apply (find_request_here _ _ before rest); [done| |].
      - by rewrite Hdoc, Hid in *.
      - by apply bool_decide_eq_true. }
    rewrite Hdoc' in Hfound. simpl in Hfound. congruence. }
  destruct c as [ctx address role now | ctx requested_role reason now
                 | ctx request_id now | ctx request_id note now | ctx address];
    unfold after.
  - destruct (upsert_member_cases ctx address role now db)
      as [[-> _] | (a & tx & lines & flag & _ & _ & _ & _ & ->)]; [done|].
    by rewrite (find_request_data _ db).
  - destruct (submit_request_cases ctx requested_role reason now db)
      as [[-> _] | (doc & _ & _ & _ & _ & ->)]; [done|].
    apply find_request_first in Hfound as (before & rest & Hsplit & Hbefore & Hd).
    cbn [snd].
    erewrite find_request_here; [done| |done|done].
    cbn [requests]. by rewrite Hsplit, <- app_assoc.
  - destruct (approve_request_cases ctx request_id now db)
      as [[-> _] | (oid' & before & doc & rest & tx & lines & flag & _ & _ & Hsplit
                    & Hbefore & Hid & Hpending & _ & ->)]; [done|].
    pose proof (Hother _ _ _ _ Hsplit Hbefore Hid Hpending) as Hdoc.
    cbn [snd].
    rewrite (find_request_skip _ before rest doc (approved (ctx_address ctx) now doc) db);
      done.
  - destruct (deny_request_cases ctx request_id note now db)
      as [[-> _] | (oid' & before & doc & rest & _ & _ & Hsplit & Hbefore & Hid
                    & Hpending & ->)]; [done|].
    pose proof (Hother _ _ _ _ Hsplit Hbefore Hid Hpending) as Hdoc.
    cbn [snd].
    rewrite (find_request_skip _ before rest doc
               (denied (ctx_address ctx) now note doc) db); done.
  - destruct (delete_member_cases ctx address db) as [[-> _] | [_ ->]]; [done|].
    by rewrite (find_request_data _ db).
Qed.

(** X16.  A request that was approved or denied is final.  After any
    sequence of further calls of the writing endpoints the request found
    under the id is still the request as it was decided; approving or
    denying it again changes nothing, whoever calls, and for an admin it
    ends with 400 "request already processed". *)
Theorem decided_request_is_final (ctx : Ctx) (request_id : string)
    (note : option string) (now : Z) (db db' : rbac_db) :
  (∃ r, approve_request ctx request_id now db = (Ok r, db'))
  ∨ (∃ r, deny_request ctx request_id note now db = (Ok r, db')) →
  ∃ oid decided,
    parse_object_id request_id = Some oid
    ∧ RoleRequest.id decided = oid
    ∧ (RoleRequest.status decided = "approved" ∨ RoleRequest.status decided = "denied")
    ∧ RoleRequest.handled_by decided = Some (ctx_address ctx)
    ∧ ∀ (calls : list call) ctx' note' now',
        find_request (has_id oid) (after_all calls db')
        = (Ok (Some decided), after_all calls db')
        ∧ after (ApproveRequest ctx' request_id now') (after_all calls db')
          = after_all calls db'
        ∧ after (DenyRequest ctx' request_id note' now') (after_all calls db')
          = after_all calls db'
        ∧ (ctx_role ctx' = 3 →
           approve_request ctx' request_id now' (after_all calls db')
           = (Abort 400 "request already processed", after_all calls db')
           ∧ deny_request ctx' request_id note' now' (after_all calls db')
             = (Abort 400 "request already processed", after_all calls db')).
Proof.
  intros Hdecided.
  assert (∃ oid decided,
            parse_object_id request_id = Some oid
            ∧ RoleRequest.id decided = oid
            ∧ (RoleRequest.status decided = "approved"
               ∨ RoleRequest.status decided = "denied")
            ∧ RoleRequest.handled_by decided = Some (ctx_address ctx)
            ∧ (find_request (has_id oid) db').1 = Ok (Some decided))
    as (oid & decided & Hoid & Hid & Hstatus & Hby & Hfound).
  { destruct Hdecided as [[r Hrun] | [r Hrun]].
    - destruct (approve_request_cases ctx request_id now db)
        as [[_ Hfail] | (oid & before & doc & rest & tx & lines & flag & _ & Hoid & _
                         & Hbefore & Hid & _ & _ & Heq)].
      { rewrite Hrun in Hfail. by destruct (Hfail r). }
      rewrite Hrun in Heq. injection Heq as _ ->.
      exists oid, (approved (ctx_address ctx) now doc).
      split_and!; [done | done | by left | done |].
      erewrite find_request_here; [done|done|done|]. by apply bool_decide_eq_true.
    - destruct (deny_request_cases ctx request_id note now db)
        as [[_ Hfail] | (oid & before & doc & rest & _ & Hoid & _ & Hbefore & Hid
                         & _ & Heq)].
      { rewrite Hrun in Hfail. by destruct (Hfail r). }
      rewrite Hrun in Heq. injection Heq as _ ->.
      exists oid, (denied (ctx_address ctx) now note doc).
      split_and!; [done | done | by right | done |].
      erewrite find_request_here; [done|done|done|]. by apply bool_decide_eq_true. }
  assert (RoleRequest.status decided ≠ "pending") as Hnot
    by (destruct Hstatus as [-> | ->]; done).
  exists oid, decided. split_and!; [done..|].
  intros calls ctx' note' now'.
  assert ((find_request (has_id oid) (after_all calls db')).1 = Ok (Some decided))
    as Hlater.
  { unfold after_all. revert Hfound. generalize db'.
    induction calls as [|c calls IH]; intros d Hd; [done|].
    cbn [foldl]. by apply IH, decided_stays. }
  set (later := after_all calls db') in *.
  apply find_request_first in Hlater as (before & rest & Hsplit & Hbefore & Hdoc).
  pose proof (find_request_here _ _ _ _ _ Hsplit Hbefore Hdoc) as Hfind.
  pose proof (load_request_run _ _ _ _ _ later Hoid Hsplit Hbefore Hdoc) as Hload.
  pose proof Hnot as Hneq. apply String.eqb_neq in Hneq.
  assert (∀ role,
            approve_request (mkCtx (ctx_address ctx') role) request_id now' later
            = (if decide (role = 3) then Abort 400 "request already processed"
               else (approve_request (mkCtx (ctx_address ctx') role) request_id
                       now' later).1, later)) as Happrove.
  { intros role. unfold approve_request. rewrite !guarded. cbn [ctx_role].
    destruct (rbac.of_value role) as [r|] eqn:Hr; [|by rewrite decide_False by (intros ->; done)].
    destruct (rbac.value r <? rbac.value rbac.ADMIN) eqn:Hadmin.
    - rewrite decide_False; [done|]. intros ->. by injection Hr as <-.
    - apply (admin_value _ _ Hr) in Hadmin as ->. rewrite decide_True by done.
      by rewrite (bind_run _ _ _ _ _ Hload), Hneq. }
  assert (∀ role,
            deny_request (mkCtx (ctx_address ctx') role) request_id note' now' later
            = (if decide (role = 3) then Abort 400 "request already processed"
               else (deny_request (mkCtx (ctx_address ctx') role) request_id note'
                       now' later).1, later)) as Hdeny.
  { intros role. unfold deny_request. rewrite !guarded. cbn [ctx_role].
    destruct (rbac.of_value role) as [r|] eqn:Hr; [|by rewrite decide_False by (intros ->; done)].
    destruct (rbac.value r <? rbac.value rbac.ADMIN) eqn:Hadmin.
    - rewrite decide_False; [done|]. intros ->. by injection Hr as <-.
    - apply (admin_value _ _ Hr) in Hadmin as ->. rewrite decide_True by done.
      by rewrite (bind_run _ _ _ _ _ Hload), Hneq. }
  destruct ctx' as [caller role]. cbn [ctx_address ctx_role] in *.
  split_and!; [done | | |].
  - unfold after. by rewrite Happrove.
  - unfold after. by rewrite Hdeny.
  - intros ->. by rewrite Happrove, Hdeny.
Qed.

(** X17.  When the database is consistent, a successful [approve_request]
    was called by an admin on a stored pending request; the request comes
    back approved and handled by the caller, the response's assignment is
    for the request's address and role with a transaction reference, and
    from then on [_attach_role] gives every spelling of that address the
    requested role. *)
Theorem approval_grants_requested_role (ctx : Ctx) (request_id : string) (now : Z)
    (db db' : rbac_db) (req : RoleRequest.t) (m : Member) (w : world) :
  consistent db →
  approve_request ctx request_id now db = (Ok (req, m), db') →
  ctx_role ctx = 3
  ∧ (∃ doc, doc ∈ requests db ∧ is_pending doc
            ∧ req = approved (ctx_address ctx) now doc)
  ∧ req ∈ requests db'
  ∧ RoleRequest.status req = "approved"
  ∧ RoleRequest.handled_by req = Some (ctx_address ctx)
  ∧ m_address m = RoleRequest.address req
  ∧ m_role m = RoleRequest.requested_role req
  ∧ is_Some (m_tx_reference m)
  ∧ ∀ caller, lower caller = RoleRequest.address req →
      ∃ w1,
        security._attach_role (inr (assignments db')) caller w
        = (Ok (security.mkAttrs
                 (if decide (m_role m = "viewer") then 1
                  else if decide (m_role m = "admin") then 3 else 2)
                 (m_role m) (m_role m)), w1).
Proof.
  intros (_ & _ & _ & Hrequested & _ & _) Hrun.
  destruct (approve_request_cases ctx request_id now db)
    as [[_ Hfail] | (oid & before & doc & rest & tx & lines & flag & Hadmin & _ & Hsplit
                     & _ & _ & Hpending & Htx & Heq)].
  { rewrite Hrun in Hfail. by destruct (Hfail (req, m)). }
  remember (upsert_assignment _ _ db) as up eqn:Hup in Heq.
  rewrite Hrun in Heq. injection Heq as -> -> ->.
  rewrite Hsplit, Forall_app, Forall_cons in Hrequested.
  destruct Hrequested as (_ & Hvalid & _).
  cbn [m_role m_address m_tx_reference assignments requests approved
       RoleRequest.status RoleRequest.handled_by RoleRequest.address
       RoleRequest.requested_role].
  split_and!; try done.
  - exists doc. rewrite Hsplit. split_and!; [set_solver|done..].
  - set_solver.
  - by apply Htx.
  - intros caller Hcaller. subst up.
    eapply attach_assigned;
      [rewrite upsert_assignment_find by done; by rewrite decide_True
      |reflexivity|done].
Qed.

(** X18.  When no address has two assignments, a successful
    [delete_member] reports [removed] exactly when an assignment was stored
    for the lower-cased address, leaves the requests alone, and from then on
    [_attach_role] gives every spelling of the address the default, owner
    level (2), whatever role was stored before; every other address gets
    what it got before. *)
Theorem removed_member_is_owner_again (ctx : Ctx) (address : string)
    (db db' : rbac_db) (removed : bool) (w : world) :
  NoDup (Assignment.address <$> assignments db) →
  delete_member ctx address db = (Ok removed, db') →
  ctx_role ctx = 3
  ∧ (removed = true ↔ is_Some (find_assignment (assignments db) (lower address)))
  ∧ requests db' = requests db
  ∧ (∀ caller, lower caller = lower address →
       ∃ w1,
         security._attach_role (inr (assignments db')) caller w
         = (Ok (security.mkAttrs 2 "owner" "owner"), w1))
  ∧ (∀ caller, lower caller ≠ lower address →
       security._attach_role (inr (assignments db')) caller w
       = security._attach_role (inr (assignments db)) caller w).
Proof.
  intros Hone Hrun.
  destruct (delete_member_cases ctx address db) as [[_ Hfail] | [Hadmin Heq]].
  { rewrite Hrun in Hfail. by destruct (Hfail removed). }
  rewrite Hrun in Heq. injection Heq as -> ->.
  cbn [assignments requests]. split; [done|].
  destruct (delete_first_spec (assignment_matches (lower address)) (assignments db))
    as [[Hnone ->] | (before & d & rest & Hsplit & -> & Hd & Hbefore)];
    cbn [fst snd].
  - pose proof Hnone as Hfind. apply find_assignment_none in Hfind.
    split_and!; [|done| |done].
    + rewrite Hfind. split; [done | by intros [? ?]].
    + intros caller Hcaller. apply attach_unassigned. by rewrite Hcaller.
  - apply bool_decide_eq_true in Hd.
    split_and!; [|done| |].
    + rewrite Hsplit, (find_assignment_here _ _ _ _ Hbefore Hd). split; [by eexists|done].
    + intros caller Hcaller. apply attach_unassigned. rewrite Hcaller.
      apply find_assignment_none.
      rewrite Hsplit, fmap_app, fmap_cons in Hone.
      apply NoDup_app in Hone as (_ & _ & Hrest). apply NoDup_cons in Hrest as [Hrest _].
      apply Forall_app. split; [done|].
      apply Forall_forall. intros x Hx. apply bool_decide_eq_false. intros Hsame.
      apply Hrest. rewrite Hd, <- Hsame. by apply list_elem_of_fmap_2.
    + intros caller Hcaller. apply attach_same.
      rewrite Hsplit, find_assignment_skip; [done|]. congruence.
Qed.

End RoleWorkflow.

(** ** Runs of the role endpoints *)

Section RoleRuns.
Import rbac_api DemoRbac.

Lemma assigned_role_is_attached_run :
  ∃ w1,
    security._attach_role (inr (assignments with_viewer)) "0XB0B"
                          (Demo.world_of "a.pdf")
    = (Ok (security.mkAttrs 1 "viewer" "viewer"), w1).
Proof.
  destruct (assigned_role_is_attached admin (Some "0xB0B") (Some "Viewer") 3000
              empty_db
              (mkMember "0xb0b" "viewer" 3000 "0xAD0000"
                        (Some "simulated-role::0xb0b::viewer"))
              (Demo.world_of "a.pdf"))
    as (_ & _ & _ & Hattach & _); [by_running|].
  exact (Hattach "0XB0B" eq_refl).
Defined.

Lemma only_admins_change_assignments_run :
  assignments (after (UpsertMember alice (Some "0xA11CE") (Some "admin") 4000)
                     with_viewer)
  = assignments with_viewer.
Proof.
  destruct (only_admins_change_assignments
              (UpsertMember alice (Some "0xA11CE") (Some "admin") 4000) with_viewer)
    as [Hsame _]; [simpl; lia | exact Hsame].
Defined.

Lemma decided_request_is_final_run :
  ∃ r db',
    approve_request admin first_id 2000 with_request = (Ok r, db')
    ∧ deny_request admin first_id (Some "late") 5000
        (after_all [SubmitRequest alice (Some "viewer") None 3000;
                    UpsertMember admin (Some "0xB0B") (Some "editor") 4000] db')
      = (Abort 400 "request already processed",
         after_all [SubmitRequest alice (Some "viewer") None 3000;
                    UpsertMember admin (Some "0xB0B") (Some "editor") 4000] db').
Proof.
  eexists _, _. split; [by_running|].
  edestruct (decided_request_is_final admin first_id None 2000 with_request)
    as (oid & decided & _ & _ & _ & _ & Hfinal); [left; eexists; by_running|].
  destruct (Hfinal [SubmitRequest alice (Some "viewer") None 3000;
                    UpsertMember admin (Some "0xB0B") (Some "editor") 4000]
                   admin (Some "late") 5000) as (_ & _ & _ & Hadmin).
  exact (proj2 (Hadmin eq_refl)).
Defined.

Lemma approval_grants_requested_role_run :
  ∃ req m db' w1,
    approve_request admin first_id 2000 with_request = (Ok (req, m), db')
    ∧ RoleRequest.status req = "approved"
    ∧ m_role m = "admin"
    ∧ security._attach_role (inr (assignments db')) "0xA11CE"
                            (Demo.world_of "a.pdf")
      = (Ok (security.mkAttrs 3 "admin" "admin"), w1).
Proof.
  pose proof (λ db' req m,
                approval_grants_requested_role admin first_id 2000 with_request
                  db' req m (Demo.world_of "a.pdf")) as Hgrants.
  eexists _, _, _.
  edestruct Hgrants as (_ & _ & _ & Hstatus & _ & _ & _ & _ & Hattach);
    [apply (bool_decide_unpack _); vm_compute; exact I | by_running |].
  destruct (Hattach "0xA11CE" eq_refl) as [w1 Hw1]. exists w1.
  split_and!; [by_running | exact Hstatus | reflexivity | exact Hw1].
Defined.

Lemma removed_member_is_owner_again_run :
  ∃ db' w1,
    delete_member admin "0XB0B" with_viewer = (Ok true, db')
    ∧ security._attach_role (inr (assignments db')) "0xB0B" (Demo.world_of "a.pdf")
      = (Ok (security.mkAttrs 2 "owner" "owner"), w1).
Proof.
  pose proof (λ db',
                removed_member_is_owner_again admin "0XB0B" with_viewer db' true
                  (Demo.world_of "a.pdf")) as Hremoved.
  eexists _.
  edestruct Hremoved as (_ & _ & _ & Hattach & _);
    [apply (bool_decide_unpack _); vm_compute; exact I | by_running |].
  destruct (Hattach "0xB0B" eq_refl) as [w1 Hw1]. exists w1.
  split; [by_running | exact Hw1].
Defined.

End RoleRuns.
